(** * git-rename-uri: the URI matching-and-rewrite engine

    A shallow embedding of [git-rename-uri.py] and the properties of its
    specification.  The script compiles one composite regular expression from
    two configuration fragments and uses it, through [re.sub] and
    [re.finditer], to list or rewrite the [url = ...] lines of git
    configuration files.

    Layout:
    - [Text]: characters and strings as the script sees them;
    - [Re]: the part of Python's [re] the script relies on (pattern syntax
      tree, backtracking matcher, scanning, pattern compiler);
    - [Py]: the effects of the script (streams, files, exceptions);
    - [Script]: the script itself, function by function;
    - the properties, claim by claim. *)

From Stdlib Require Import Ascii String DecimalString.
From stdpp Require Import base option list gmap strings.

Set Default Proof Using "Type".
Open Scope list_scope.

(** ** Text *)

Module Text.

(** A Python [str], restricted to the code points below 256. *)
Abbreviation str := (list ascii).

Definition lit (s : string) : str := list_ascii_of_string s.

Definition nl : ascii := "010"%char.
Definition tab : ascii := "009"%char.
Definition cr : ascii := "013"%char.

Definition code (c : ascii) : nat := nat_of_ascii c.

Definition in_range (lo hi c : ascii) : bool :=
  (code lo <=? code c) && (code c <=? code hi).

(** [Py_UNICODE_ISSPACE] on the Latin-1 range: what [\s] matches in a [str]
    pattern. *)
Definition is_space (c : ascii) : bool :=
  let n := code c in
  ((9 <=? n) && (n <=? 13)) || ((28 <=? n) && (n <=? 32))
  || (n =? 133) || (n =? 160).

Definition is_digit (c : ascii) : bool := in_range "0" "9" c.

(** The letters, digits and underscore of ASCII. *)
Definition is_ascii_word (c : ascii) : bool :=
  in_range "a" "z" c || in_range "A" "Z" c || is_digit c
  || bool_decide (c = "_"%char).

(** [Py_UNICODE_ISALNUM] on the Latin-1 range, beyond ASCII: the letters,
    the superscript digits and the fractions. *)
Definition is_latin1_alnum (c : ascii) : bool :=
  let n := code c in
  (n =? 170) || (n =? 178) || (n =? 179) || (n =? 181) || (n =? 185) || (n =? 186)
  || ((188 <=? n) && (n <=? 190)) || ((192 <=? n) && (n <=? 214))
  || ((216 <=? n) && (n <=? 246)) || ((248 <=? n) && (n <=? 255)).

(** What [\w] matches in a [str] pattern. *)
Definition is_word (c : ascii) : bool := is_ascii_word c || is_latin1_alnum c.

(** [sep.join(parts)] *)
Fixpoint join (sep : str) (parts : list str) : str :=
  match parts with
  | [] => []
  | [p] => p
  | p :: ps => p ++ sep ++ join sep ps
  end.

(** The text of a file given line by line, every line ended by a newline. *)
Definition unlines (ls : list string) : str :=
  concat (map (fun l => lit l ++ [nl]) ls).

End Text.
Export Text.

(** ** The regular expressions of Python's [re] used by the script *)

Module Re.

(** One member of a bracketed character set. *)
Inductive citem :=
| CChar (c : ascii)
| CRange (lo hi : ascii)
| CSpace
| CDigit
| CWord.

Definition citem_has (c : ascii) (i : citem) : bool :=
  match i with
  | CChar d => bool_decide (c = d)
  | CRange lo hi => in_range lo hi c
  | CSpace => is_space c
  | CDigit => is_digit c
  | CWord => is_word c
  end.

(** Pattern syntax trees.  [Star greedy r] is [r*] or [r*?]; unnamed
    capturing groups are [Group None r]: the script only ever reads the
    groups it names. *)
Inductive pattern :=
| Eps
| Chr (c : ascii)
| Any
| Cls (negated : bool) (items : list citem)
| Bol
| Eol
| Cat (r1 r2 : pattern)
| Alt (r1 r2 : pattern)
| Star (greedy : bool) (r : pattern)
| Group (name : option string) (r : pattern).

Definition Plus (greedy : bool) (r : pattern) : pattern := Cat r (Star greedy r).
Definition Opt (greedy : bool) (r : pattern) : pattern :=
  if greedy then Alt r Eps else Alt Eps r.

(** [seq [a; b; c]] is the pattern [abc], [alt [a; b; c]] is [a|b|c]. *)
Fixpoint seq (rs : list pattern) : pattern :=
  match rs with
  | [] => Eps
  | [r] => r
  | r :: rs' => Cat r (seq rs')
  end.

Fixpoint alt (rs : list pattern) : pattern :=
  match rs with
  | [] => Eps
  | [r] => r
  | r :: rs' => Alt r (alt rs')
  end.

Definition word (s : string) : pattern := seq (map Chr (lit s)).

(** A position in the subject string: the text before it, nearest character
    first, and the text after it. *)
Record cursor := Cursor { seen : str; rest : str }.

Definition subject (cu : cursor) : str := rev (seen cu) ++ rest cu.
Definition pos (cu : cursor) : nat := length (seen cu).

(** [re.MULTILINE]: [^] holds at the start of the string and after every
    newline, [$] at the end of the string and before every newline. *)
Definition at_bol (cu : cursor) : bool :=
  match seen cu with [] => true | c :: _ => bool_decide (c = nl) end.
Definition at_eol (cu : cursor) : bool :=
  match rest cu with [] => true | c :: _ => bool_decide (c = nl) end.

(** The text between two positions of one subject. *)
Definition between (cu cu' : cursor) : str :=
  take (length (rest cu) - length (rest cu')) (rest cu).

Abbreviation caps := (gmap string str).

Definition bind_group (name : option string) (s : str) (cs : caps) : caps :=
  match name with Some n => <[n := s]> cs | None => cs end.

Definition one {R} (ok : ascii -> bool) (cu : cursor) (cs : caps)
    (k : cursor -> caps -> option R) : option R :=
  match rest cu with
  | c :: a => if ok c then k (Cursor (c :: seen cu) a) cs else None
  | [] => None
  end.

Definition cls_ok (negated : bool) (items : list citem) (c : ascii) : bool :=
  xorb negated (existsb (citem_has c) items).

Definition any_ok (c : ascii) : bool := negb (bool_decide (c = nl)).

Definition orelse {R} (a b : option R) : option R :=
  match a with Some x => Some x | None => b end.

(** A repetition [r*] (greedy) or [r*?] (lazy) of the matcher [body].  An
    iteration that consumes nothing is abandoned, which bounds the number of
    iterations by the length of the remaining text, [fuel]. *)
Fixpoint star_loop {R}
    (body : cursor -> caps -> (cursor -> caps -> option R) -> option R)
    (greedy : bool) (k : cursor -> caps -> option R)
    (fuel : nat) (cu : cursor) (cs : caps) : option R :=
  match fuel with
  | 0 => k cu cs
  | S fuel' =>
      let again :=
        body cu cs (fun cu1 cs1 =>
          if length (rest cu1) <? length (rest cu)
          then star_loop body greedy k fuel' cu1 cs1 else None) in
      if greedy then orelse again (k cu cs) else orelse (k cu cs) again
  end.

(** The backtracking matcher, in continuation-passing style: [exec r cu cs k]
    tries the ways [r] can match at [cu] in the order the [re] module tries
    them, and returns the first one the rest of the pattern [k] accepts. *)
Fixpoint exec {R} (r : pattern) (cu : cursor) (cs : caps)
    (k : cursor -> caps -> option R) : option R :=
  match r with
  | Eps => k cu cs
  | Chr c => one (fun d => bool_decide (d = c)) cu cs k
  | Any => one any_ok cu cs k
  | Cls n items => one (cls_ok n items) cu cs k
  | Bol => if at_bol cu then k cu cs else None
  | Eol => if at_eol cu then k cu cs else None
  | Cat r1 r2 => exec r1 cu cs (fun cu1 cs1 => exec r2 cu1 cs1 k)
  | Alt r1 r2 => orelse (exec r1 cu cs k) (exec r2 cu cs k)
  | Star greedy r1 => star_loop (exec r1) greedy k (length (rest cu)) cu cs
  | Group name r1 =>
      exec r1 cu cs (fun cu1 cs1 => k cu1 (bind_group name (between cu cu1) cs1))
  end.

(** A match object: [m.string], [m.start()], [m.end()] and the named groups. *)
Record Match := MkMatch {
  m_string : str;
  m_start : nat;
  m_end : nat;
  m_groups : caps
}.

(** [m.group(0)] and [m.group(name)]; the latter is [None] for a group that
    took no part in the match. *)
Definition group0 (m : Match) : str :=
  take (m_end m - m_start m) (drop (m_start m) (m_string m)).
Definition group (m : Match) (name : string) : option str :=
  m_groups m !! name.

(** [regex.match] at one position of the subject.  With [must_advance] an
    empty match is refused, as [re] does when it searches again where an empty
    match has just been found. *)
Definition match_at (re : pattern) (must_advance : bool) (cu : cursor)
    : option Match :=
  exec re cu ∅ (fun cu' cs =>
    if must_advance && (pos cu' =? pos cu) then None
    else Some {| m_string := subject cu; m_start := pos cu;
                 m_end := pos cu'; m_groups := cs |}).

(** A left-to-right scan of the subject, as [regex.sub] and [regex.finditer]
    do it: the text falls into the matches found and the characters between
    them.  [skip] counts the characters still inside the match found last. *)
Inductive piece :=
| Lit (c : ascii)
| Hit (m : Match).

Definition m_len (m : Match) : nat := m_end m - m_start m.

Fixpoint scan_from (re : pattern) (seen rest : str) (skip : nat) : list piece :=
  match rest with
  | [] =>
      match skip with
      | 0 =>
          match match_at re false (Cursor seen []) with
          | Some m => [Hit m]
          | None => []
          end
      | S _ => []
      end
  | c :: rest' =>
      match skip with
      | S n => scan_from re (c :: seen) rest' n
      | 0 =>
          match match_at re false (Cursor seen rest) with
          | None => Lit c :: scan_from re (c :: seen) rest' 0
          | Some m =>
              match m_len m with
              | S n => Hit m :: scan_from re (c :: seen) rest' n
              | 0 =>
                  match match_at re true (Cursor seen rest) with
                  | Some m' =>
                      Hit m :: Hit m' :: scan_from re (c :: seen) rest' (m_len m' - 1)
                  | None => Hit m :: Lit c :: scan_from re (c :: seen) rest' 0
                  end
              end
          end
      end
  end.

Definition scan (re : pattern) (text : str) : list piece := scan_from re [] text 0.

Definition piece_text (p : piece) : str :=
  match p with Lit c => [c] | Hit m => group0 m end.

Definition hit (p : piece) : option Match :=
  match p with Lit _ => None | Hit m => Some m end.

(** [regex.finditer(text)], as the list of the matches it yields. *)
Definition finditer (re : pattern) (text : str) : list Match :=
  omap hit (scan re text).

(** [regex.search(text)]: the first match, if any. *)
Definition search (re : pattern) (text : str) : option Match :=
  head (finditer re text).

(** *** What a match is, whatever the order of the search *)

Inductive matches : pattern -> cursor -> caps -> cursor -> caps -> Prop :=
| M_eps cu cs : matches Eps cu cs cu cs
| M_chr c b a cs : matches (Chr c) (Cursor b (c :: a)) cs (Cursor (c :: b) a) cs
| M_any c b a cs :
    any_ok c = true -> matches Any (Cursor b (c :: a)) cs (Cursor (c :: b) a) cs
| M_cls n items c b a cs :
    cls_ok n items c = true ->
    matches (Cls n items) (Cursor b (c :: a)) cs (Cursor (c :: b) a) cs
| M_bol cu cs : at_bol cu = true -> matches Bol cu cs cu cs
| M_eol cu cs : at_eol cu = true -> matches Eol cu cs cu cs
| M_cat r1 r2 cu cs cu1 cs1 cu2 cs2 :
    matches r1 cu cs cu1 cs1 -> matches r2 cu1 cs1 cu2 cs2 ->
    matches (Cat r1 r2) cu cs cu2 cs2
| M_alt_l r1 r2 cu cs cu1 cs1 :
    matches r1 cu cs cu1 cs1 -> matches (Alt r1 r2) cu cs cu1 cs1
| M_alt_r r1 r2 cu cs cu1 cs1 :
    matches r2 cu cs cu1 cs1 -> matches (Alt r1 r2) cu cs cu1 cs1
| M_star_stop g r cu cs : matches (Star g r) cu cs cu cs
| M_star_more g r cu cs cu1 cs1 cu2 cs2 :
    matches r cu cs cu1 cs1 -> matches (Star g r) cu1 cs1 cu2 cs2 ->
    matches (Star g r) cu cs cu2 cs2
| M_group name r cu cs cu1 cs1 :
    matches r cu cs cu1 cs1 ->
    matches (Group name r) cu cs cu1 (bind_group name (between cu cu1) cs1).

(** [m] is a match of [re] somewhere in [text]. *)
Definition found (re : pattern) (text : str) (m : Match) : Prop :=
  exists cu cu',
    subject cu = text /\ matches re cu ∅ cu' (m_groups m) /\
    m_string m = text /\ m_start m = pos cu /\ m_end m = pos cu'.

(** Whether the pattern has a group of that name. *)
Fixpoint binds (name : string) (r : pattern) : bool :=
  match r with
  | Cat r1 r2 | Alt r1 r2 => binds name r1 || binds name r2
  | Star _ r1 => binds name r1
  | Group (Some n) r1 => bool_decide (n = name) || binds name r1
  | Group None r1 => binds name r1
  | _ => false
  end.

(** *** [re.compile]

    The pattern compiler, for the part of the pattern language the script and
    its documented configurations use: literals, [.], [^], [$], bracketed
    sets, the escapes of [class_escape], groups [(...)], [(?:...)] and
    [(?P<name>...)], alternation and the repetitions [*], [+], [?] with their
    lazy forms.  With [re.VERBOSE] white space outside a set is dropped and
    [#] starts a comment that runs to the end of the line.  The anchors are
    those of [re.MULTILINE], the only mode in which the script runs a pattern
    (the patterns it compiles without flags are thrown away).  Anything else
    (counted repetitions, look-around, back references, inline flags, other
    escapes) is [Unsupported]: the model says nothing about it. *)
Inductive outcome (A : Type) :=
| Done (a : A)
| Invalid (msg : string)
| Unsupported.
Arguments Done {A} a.
Arguments Invalid {A} msg.
Arguments Unsupported {A}.

Definition is_alnum (c : ascii) : bool :=
  in_range "a" "z" c || in_range "A" "Z" c || is_digit c.

(** [WHITESPACE] of [sre_parse]. *)
Definition is_pattern_space (c : ascii) : bool :=
  let n := code c in (n =? 32) || ((9 <=? n) && (n <=? 13)).

(** The character after a backslash. *)
Definition class_escape (c : ascii) : outcome citem :=
  if bool_decide (c = "s"%char) then Done CSpace
  else if bool_decide (c = "d"%char) then Done CDigit
  else if bool_decide (c = "w"%char) then Done CWord
  else if bool_decide (c = "n"%char) then Done (CChar nl)
  else if bool_decide (c = "t"%char) then Done (CChar tab)
  else if is_alnum c then Unsupported
  else Done (CChar c).

Definition item_regex (i : citem) : pattern :=
  match i with
  | CChar c => Chr c
  | _ => Cls false [i]
  end.

(** One member of a set, a character or an escape, with its source text. *)
Definition set_member (inp : str) : outcome (citem * str * str) :=
  match inp with
  | [] => Invalid "unterminated character set"
  | c :: inp1 =>
      if bool_decide (c = "\"%char) then
        match inp1 with
        | [] => Invalid "bad escape (end of pattern)"
        | e :: inp2 =>
            match class_escape e with
            | Done i => Done (i, [c; e], inp2)
            | Invalid m => Invalid m
            | Unsupported => Unsupported
            end
        end
      else Done (CChar c, [c], inp1)
  end.

(** ["bad character range %s-%s" % (this, that)] *)
Definition bad_range (this that : str) : string :=
  ("bad character range " ++ string_of_list_ascii this ++ "-" ++
   string_of_list_ascii that)%string.

(** The members of a set up to its closing bracket; [items] holds the members
    read so far, last first. *)
Fixpoint set_members (fuel : nat) (inp : str) (items : list citem)
    : outcome (list citem * str) :=
  match fuel with
  | 0 => Unsupported
  | S fuel' =>
      match inp, items with
      | [], _ => Invalid "unterminated character set"
      | "]"%char :: inp1, _ :: _ => Done (rev items, inp1)
      | _, _ =>
          match set_member inp with
          | Invalid m => Invalid m
          | Unsupported => Unsupported
          | Done (lo, this, inp1) =>
              match inp1 with
              | "-"%char :: [] => Invalid "unterminated character set"
              | "-"%char :: "]"%char :: inp2 =>
                  Done (rev (CChar "-" :: lo :: items), inp2)
              | "-"%char :: inp2 =>
                  match set_member inp2 with
                  | Invalid m => Invalid m
                  | Unsupported => Unsupported
                  | Done (hi, that, inp3) =>
                      match lo, hi with
                      | CChar l, CChar h =>
                          if code h <? code l then Invalid (bad_range this that)
                          else set_members fuel' inp3 (CRange l h :: items)
                      | _, _ => Invalid (bad_range this that)
                      end
                  end
              | _ => set_members fuel' inp1 (lo :: items)
              end
          end
      end
  end.

(** What stands last in the sequence being parsed: a repetition applies to
    it, unless it is an anchor or a repetition already. *)
Inductive kind := KItem | KAnchor | KRepeat.

Definition finish (branches : list pattern) (items : list (kind * pattern)) : pattern :=
  alt (rev (seq (rev (map snd items)) :: branches)).

(** The group names the model follows: the identifiers of ASCII. *)
Definition is_ident (name : str) : bool :=
  match name with
  | [] => false
  | c :: _ => negb (is_digit c) && forallb is_ascii_word name
  end.

(** The groups opened so far: the number of every group that has a name,
    and how many groups there are. *)
Definition groups : Type := list (string * nat) * nat.

Definition group_number (name : string) (gs : groups) : option nat :=
  snd <$> List.find (fun g => bool_decide (fst g = name)) (fst gs).

(** [state.opengroup(name)] *)
Definition opengroup (name : option string) (gs : groups) : groups :=
  match name with
  | Some n => ((n, S (snd gs)) :: fst gs, S (snd gs))
  | None => (fst gs, S (snd gs))
  end.

Definition decimal (n : nat) : string := NilZero.string_of_uint (Nat.to_uint n).

(** ["redefinition of group name %r as group %d; was group %d"] *)
Definition redefinition (name : string) (gid ogid : nat) : string :=
  ("redefinition of group name '" ++ name ++ "' as group " ++ decimal gid ++
   "; was group " ++ decimal ogid)%string.

(** [source.getuntil(">")] *)
Fixpoint getuntil (stop : ascii) (inp : str) : option (str * str) :=
  match inp with
  | [] => None
  | c :: inp' =>
      if bool_decide (c = stop) then Some ([], inp')
      else match getuntil stop inp' with
           | Some (w, r) => Some (c :: w, r)
           | None => None
           end
  end.

Fixpoint drop_comment (inp : str) : str :=
  match inp with
  | [] => []
  | c :: inp' => if bool_decide (c = nl) then inp' else drop_comment inp'
  end.

Definition repeat_of (op : ascii) (greedy : bool) (r : pattern) : pattern :=
  if bool_decide (op = "*"%char) then Star greedy r
  else if bool_decide (op = "+"%char) then Plus greedy r
  else Opt greedy r.

(** [_parse_sub]: an alternation of sequences, up to (not including) the
    closing parenthesis or the end of the pattern.  [names] are the groups
    opened so far, [branches] the alternatives completed and [items] the
    current sequence, both last first. *)
Fixpoint parse_sub (verbose : bool) (fuel : nat) (inp : str) (names : groups)
    (branches : list pattern) (items : list (kind * pattern))
    : outcome (pattern * str * groups) :=
  match fuel with
  | 0 => Unsupported
  | S fuel' =>
      match inp with
      | [] => Done (finish branches items, inp, names)
      | c :: inp1 =>
          if bool_decide (c = ")"%char) then Done (finish branches items, inp, names)
          else if bool_decide (c = "|"%char) then
            parse_sub verbose fuel' inp1 names (seq (rev (map snd items)) :: branches) []
          else if verbose && is_pattern_space c then
            parse_sub verbose fuel' inp1 names branches items
          else if verbose && bool_decide (c = "#"%char) then
            parse_sub verbose fuel' (drop_comment inp1) names branches items
          else if bool_decide (c = "\"%char) then
            match inp1 with
            | [] => Invalid "bad escape (end of pattern)"
            | e :: inp2 =>
                match class_escape e with
                | Done i => parse_sub verbose fuel' inp2 names branches ((KItem, item_regex i) :: items)
                | Invalid m => Invalid m
                | Unsupported => Unsupported
                end
            end
          else if bool_decide (c = "["%char) then
            let (negated, inp2) :=
              match inp1 with
              | "^"%char :: inp2 => (true, inp2)
              | _ => (false, inp1)
              end in
            match set_members (S (length inp2)) inp2 [] with
            | Done (members, inp3) =>
                parse_sub verbose fuel' inp3 names branches ((KItem, Cls negated members) :: items)
            | Invalid m => Invalid m
            | Unsupported => Unsupported
            end
          else if bool_decide (c = "*"%char) || bool_decide (c = "+"%char)
                  || bool_decide (c = "?"%char) then
            match items with
            | [] => Invalid "nothing to repeat"
            | (KAnchor, _) :: _ => Invalid "nothing to repeat"
            | (KRepeat, _) :: _ => Invalid "multiple repeat"
            | (KItem, r) :: items' =>
                match inp1 with
                | "?"%char :: "+"%char :: _ => Unsupported
                | "?"%char :: inp2 =>
                    parse_sub verbose fuel' inp2 names branches ((KRepeat, repeat_of c false r) :: items')
                | "+"%char :: _ => Unsupported
                | _ => parse_sub verbose fuel' inp1 names branches ((KRepeat, repeat_of c true r) :: items')
                end
            end
          else if bool_decide (c = "{"%char) then Unsupported
          else if bool_decide (c = "."%char) then
            parse_sub verbose fuel' inp1 names branches ((KItem, Any) :: items)
          else if bool_decide (c = "^"%char) then
            parse_sub verbose fuel' inp1 names branches ((KAnchor, Bol) :: items)
          else if bool_decide (c = "$"%char) then
            parse_sub verbose fuel' inp1 names branches ((KAnchor, Eol) :: items)
          else if bool_decide (c = "("%char) then
            let header : outcome (option (option string) * str) :=
              match inp1 with
              | "?"%char :: ":"%char :: inp2 => Done (None, inp2)
              | "?"%char :: "P"%char :: "<"%char :: inp2 =>
                  match getuntil ">" inp2 with
                  | None => Invalid "missing >, unterminated name"
                  | Some (name, inp3) =>
                      if negb (is_ident name) then Unsupported
                      else match group_number (string_of_list_ascii name) names with
                           | Some ogid =>
                               Invalid (redefinition (string_of_list_ascii name)
                                          (S (snd names)) ogid)
                           | None => Done (Some (Some (string_of_list_ascii name)), inp3)
                           end
                  end
              | "?"%char :: _ => Unsupported
              | _ => Done (Some None, inp1)
              end in
            match header with
            | Invalid m => Invalid m
            | Unsupported => Unsupported
            | Done (grp, inp2) =>
                let names1 :=
                  match grp with Some name => opengroup name names | None => names end in
                match parse_sub verbose fuel' inp2 names1 [] [] with
                | Invalid m => Invalid m
                | Unsupported => Unsupported
                | Done (r, inp3, names2) =>
                    match inp3 with
                    | ")"%char :: inp4 =>
                        let r' := match grp with Some name => Group name r | None => r end in
                        parse_sub verbose fuel' inp4 names2 branches ((KItem, r') :: items)
                    | _ => Invalid "missing ), unterminated subpattern"
                    end
                end
            end
          else parse_sub verbose fuel' inp1 names branches ((KItem, Chr c) :: items)
      end
  end.

(** [re.compile(pattern)] and [re.compile(pattern, re.MULTILINE | re.VERBOSE)] *)
Definition compile (verbose : bool) (source : str) : outcome pattern :=
  match parse_sub verbose (2 * length source + 2) source ([], 0) [] [] with
  | Done (r, [], _) => Done r
  | Done (_, _ :: _, _) => Invalid "unbalanced parenthesis"
  | Invalid m => Invalid m
  | Unsupported => Unsupported
  end.

End Re.
Export Re.

(** ** The composite pattern of the script *)

Module Composite.

Definition dq : ascii := "034"%char.

(** The pattern text of the script, [hosts] and [paths] spliced in by
    [str.format].  In the source the literal is not a raw string: Python keeps
    the backslash of [\s] and [\.] and turns [\n] into a newline. *)
Definition pattern_text (hosts paths : str) : str :=
  [nl] ++
  lit "    ^(?P<key>\s*url\s*=\s*)" ++ [nl] ++
  lit "    (?:" ++ [nl] ++
  lit "    # Either an URI:" ++ [nl] ++
  lit "      (?:(file|ssh|git|http|https)://)?         # protocol, optional" ++ [nl] ++
  lit "      (?:[a-z_][a-z0-9_-]*[$]?@)??              # Linux username, followed by '@', optional" ++ [nl] ++
  lit "      (?:" ++ hosts ++ lit ")                               # Accepted hostnames" ++ [nl] ++
  lit "      :?(?:" ++ paths ++ lit ")                             # Common paths" ++ [nl] ++
  lit "    | # or a relative path" ++ [nl] ++
  lit "      \.\.)" ++ [nl] ++
  lit "    /+(?P<project>[^\." ++ [nl] ++ lit "]+)                     # project name" ++ [nl] ++
  lit "    (?:\.git)??                                 # optionally followed by " ++ [dq] ++ lit ".git" ++ [dq] ++ [nl] ++
  lit "    \s*$".

(** The same pattern as a syntax tree, for fragments that are patterns of
    their own. *)
Definition ws : pattern := Cls false [CSpace].

Definition key_re : pattern :=
  seq [Star true ws; Chr "u"; Chr "r"; Chr "l"; Star true ws; Chr "="; Star true ws].

Definition protocol_re : pattern :=
  seq [Group None (alt [word "file"; word "ssh"; word "git"; word "http"; word "https"]);
       Chr ":"; Chr "/"; Chr "/"].

Definition username_re : pattern :=
  seq [Cls false [CRange "a" "z"; CChar "_"];
       Star true (Cls false [CRange "a" "z"; CRange "0" "9"; CChar "_"; CChar "-"]);
       Opt true (Cls false [CChar "$"]);
       Chr "@"].

Definition uri_re (hosts paths : pattern) : pattern :=
  alt [seq [Opt true protocol_re; Opt false username_re; hosts; Opt true (Chr ":"); paths];
       seq [Chr "."; Chr "."]].

Definition project_re : pattern := Plus true (Cls true [CChar "."; CChar nl]).

Definition suffix_re : pattern := Opt false (seq [Chr "."; Chr "g"; Chr "i"; Chr "t"]).

Definition composite (hosts paths : pattern) : pattern :=
  seq [Bol;
       Group (Some "key"%string) key_re;
       uri_re hosts paths;
       Plus true (Chr "/");
       Group (Some "project"%string) project_re;
       suffix_re;
       Star true ws;
       Eol].

End Composite.

(** ** The effects of the script *)

Module Py.

(** What [json.load] returns. *)
#[local] Unset Elimination Schemes.
Inductive json :=
| JNull
| JBool (b : bool)
| JNum (n : Z)
| JStr (s : str)
| JArr (l : list json)
| JObj (o : gmap str json).
#[local] Set Elimination Schemes.

(** The exceptions the script can meet.  A [ValueError] carries its message
    as the template and the values [str.format] puts into it; [NotModelled]
    marks the places where the model stops following the interpreter. *)
Inductive exn :=
| KeyError (key : str)
| TypeError (msg : string)
| AttributeError (msg : string)
| ValueError (template : str) (args : list json)
| ReError (source : str) (msg : string)
| IOError (filename : str) (strerror : string)
| NotModelled.

Inductive result (A : Type) :=
| Ok (a : A)
| Raise (e : exn).
Arguments Ok {A} a.
Arguments Raise {A} e.

(** The state the script acts on: the text files by path, the temporary
    files by serial number, the two output streams as the sequence of the
    chunks written to them, and the paths opened for reading so far. *)
Record world := World {
  files : gmap str str;
  temps : gmap nat str;
  next_temp : nat;
  stdout : list str;
  stderr : list str;
  opened : list str
}.

Definition M (A : Type) : Type := world -> result A * world.

Definition ret {A} (a : A) : M A := fun w => (Ok a, w).
Definition bind {A B} (m : M A) (f : A -> M B) : M B :=
  fun w => match m w with
           | (Ok a, w') => f a w'
           | (Raise e, w') => (Raise e, w')
           end.
Definition raise {A} (e : exn) : M A := fun w => (Raise e, w).

(** [try: m except <handled> as e: handler(e)] *)
Definition try_except {A} (m : M A) (handled : exn -> bool) (handler : exn -> M A)
    : M A :=
  fun w => match m w with
           | (Raise e, w') => if handled e then handler e w' else (Raise e, w')
           | r => r
           end.

Notation "x <- m ;; k" := (bind m (fun x => k))
  (at level 100, m at next level, right associativity).
Notation "m ;;; k" := (bind m (fun _ => k))
  (at level 100, right associativity).

(** [for x in xs: body(x)] *)
Fixpoint for_each {A} (xs : list A) (body : A -> M unit) : M unit :=
  match xs with
  | [] => ret tt
  | x :: xs' => body x ;;; for_each xs' body
  end.

(** [print(s)] and [print(s, file = sys.stderr)]; [print(s, end = '')] is
    [write_out]. *)
Definition write_out (s : str) : M unit :=
  fun w => (Ok tt, World (files w) (temps w) (next_temp w) (stdout w ++ [s]) (stderr w) (opened w)).
Definition print (s : str) : M unit := write_out (s ++ [nl]).
Definition eprint (s : str) : M unit :=
  fun w => (Ok tt, World (files w) (temps w) (next_temp w) (stdout w) (stderr w ++ [s ++ [nl]]) (opened w)).

(** What reading in text mode makes of the line ends: with [newline = None],
    the default of [open], every [\r\n] and every other [\r] becomes
    [\n]. *)
Fixpoint universal_newlines (s : str) : str :=
  match s with
  | [] => []
  | c :: s' =>
      if bool_decide (c = cr) then
        nl :: match s' with
              | d :: s'' => if bool_decide (d = nl) then universal_newlines s''
                            else universal_newlines s'
              | [] => []
              end
      else c :: universal_newlines s'
  end.

(** [open(path, 'r').read()] *)
Definition read_file (path : str) : M str :=
  fun w => match files w !! path with
           | Some text =>
               (Ok (universal_newlines text),
                World (files w) (temps w) (next_temp w) (stdout w) (stderr w) (opened w ++ [path]))
           | None => (Raise (IOError path "No such file or directory"), w)
           end.

(** [tempfile.mkstemp()]: a new, empty temporary file. *)
Definition mkstemp : M nat :=
  fun w => (Ok (next_temp w),
            World (files w) (<[next_temp w := []]> (temps w)) (S (next_temp w))
                  (stdout w) (stderr w) (opened w)).

(** [temp.write(s)] on the temporary file, opened for writing in text mode:
    every [\n] is written as [os.linesep], which is [\n] itself on the POSIX
    systems the script is written for; so are the streams of [print]. *)
Definition temp_write (t : nat) (s : str) : M unit :=
  fun w => (Ok tt,
            World (files w) (<[t := default [] (temps w !! t) ++ s]> (temps w)) (next_temp w)
                  (stdout w) (stderr w) (opened w)).

(** [os.remove(tempFile)] *)
Definition temp_remove (t : nat) : M unit :=
  fun w => (Ok tt, World (files w) (delete t (temps w)) (next_temp w) (stdout w) (stderr w) (opened w)).

(** [shutil.move(tempFile, path)] *)
Definition temp_move (t : nat) (path : str) : M unit :=
  fun w => (Ok tt,
            World (<[path := default [] (temps w !! t)]> (files w)) (delete t (temps w))
                  (next_temp w) (stdout w) (stderr w) (opened w)).

(** [v[key]] for a string key. *)
Definition getitem (v : json) (key : str) : M json :=
  match v with
  | JObj o => match o !! key with Some x => ret x | None => raise (KeyError key) end
  | JArr _ => raise (TypeError "list indices must be integers or slices, not str")
  | JStr _ => raise (TypeError "string indices must be integers")
  | _ => raise (TypeError "object is not subscriptable")
  end.

Fixpoint is_prefix (p s : str) : bool :=
  match p, s with
  | [], _ => true
  | c :: p', d :: s' => bool_decide (c = d) && is_prefix p' s'
  | _ :: _, [] => false
  end.

Fixpoint is_substring (p s : str) : bool :=
  is_prefix p s || match s with [] => false | _ :: s' => is_substring p s' end.

Definition is_jstr (key : str) (v : json) : bool :=
  match v with JStr s => bool_decide (s = key) | _ => false end.

(** [key in v] for a string key. *)
Definition contains (key : str) (v : json) : M bool :=
  match v with
  | JObj o => ret (bool_decide (is_Some (o !! key)))
  | JArr l => ret (existsb (is_jstr key) l)
  | JStr s => ret (is_substring key s)
  | _ => raise (TypeError "argument is not iterable")
  end.

(** [v.get(key)] *)
Definition get (v : json) (key : str) : M (option json) :=
  match v with
  | JObj o => ret (o !! key)
  | _ => raise (AttributeError "object has no attribute 'get'")
  end.

(** [re.compile(v)], with the flags [re.MULTILINE | re.VERBOSE] when
    [verbose]. *)
Definition re_compile (verbose : bool) (v : json) : M pattern :=
  match v with
  | JStr s =>
      match compile verbose s with
      | Done r => ret r
      | Invalid msg => raise (ReError s msg)
      | Unsupported => raise NotModelled
      end
  | _ => raise (TypeError "first argument must be string or compiled pattern")
  end.

End Py.
Export Py.

(** ** The script *)

Module Script.
Import Composite.

Definition VALID_PROTOCOLS : list str :=
  map lit ["git"; "ssh"; "http"; "https"; "ssh-colon"; "file"; "relative"]%string.

(** The parsed command line. *)
Record arguments := Arguments {
  list_configs : bool;
  list_projects : bool;
  show_new_path : option str;
  list_categorised : bool;
  dry_run : bool;
  protocol : option str;
  username : option str;
  modules : bool;
  modules_only : bool;
  hostname : option str;
  config : str;
  targets : list str
}.

(** What the script asks of the directory tree: [os.path.isdir] and
    [glob.iglob(pattern, recursive = True)]. *)
Record tree := Tree {
  isdir : str -> bool;
  iglob : str -> list str
}.

(** [regex.sub(repl, text)] with a function for [repl]: the text between the
    matches is copied, every match is replaced by what [repl] returns for
    it, in the order of the text. *)
Fixpoint sub_pieces (repl : Match -> M str) (ps : list piece) : M str :=
  match ps with
  | [] => ret []
  | Lit c :: ps' => out <- sub_pieces repl ps' ;; ret (c :: out)
  | Hit m :: ps' => r <- repl m ;; out <- sub_pieces repl ps' ;; ret (r ++ out)
  end.

Definition re_sub (re : pattern) (repl : Match -> M str) (text : str) : M str :=
  sub_pieces repl (scan re text).

(** ['{0}'.format(x)] for [x] a string or [None]. *)
Definition fmt (x : option str) : str := default (lit "None") x.

Definition warning_listed (project : option str) : str :=
  lit "WARNING: The project " ++ [dq] ++ fmt project ++ [dq] ++
  lit " does not have a defined new path".

Definition warning_replaced (project : option str) : str :=
  warning_listed project ++ lit " and will not be replaced".

(** The replacement URI, by protocol. *)
Definition format_uri (proto user host path : str) : str :=
  if bool_decide (proto = lit "ssh-colon") then user ++ host ++ lit ":" ++ path
  else if bool_decide (proto = lit "relative") then host ++ lit "/" ++ path
  else proto ++ lit "://" ++ user ++ host ++ lit "/" ++ path.

Section Functions.

(** The compiled composite pattern, a global of the script. *)
Variable regex : pattern.

Definition printIfMatching (gitConfigFile : str) : M unit :=
  text <- read_file gitConfigFile ;;
  match search regex text with
  | Some _ => print gitConfigFile
  | None => ret tt
  end.

Definition listProjects (gitConfigFile : str) (subst : gmap str str)
    (categorise : bool) (showNew : option str) : M unit :=
  (if categorise then print (gitConfigFile ++ lit ":") else ret tt) ;;;
  text <- read_file gitConfigFile ;;
  for_each (finditer regex text) (fun m =>
    let project := group m "project" in
    match project ≫= (subst !!.) with
    | None => eprint (warning_listed project)
    | Some newName =>
        (if categorise then write_out [tab] else ret tt) ;;;
        match showNew with
        | Some delimiter => print (fmt project ++ delimiter ++ newName)
        | None => print (fmt (group m "project"))
        end
    end).

(** The inner function [replace(match)] of [replace], the callback of
    [regex.sub]; [temp] is the temporary file opened for writing. *)
Definition replace_match (subst : gmap str str) (host proto : str)
    (username : option str) (dryRun : bool) (temp : nat) (m : Match) : M str :=
  let project := group m "project" in
  match project ≫= (subst !!.) with
  | None =>
      eprint (warning_replaced project) ;;;
      (if negb dryRun then temp_write temp (m_string m) else ret tt) ;;;
      ret (m_string m)
  | Some newName =>
      let user := match username with Some u => u ++ lit "@" | None => [] end in
      let uri := format_uri proto user host newName in
      match group m "key" with
      | Some key => ret (key ++ uri)
      | None => raise (TypeError "unsupported operand type(s) for +: 'NoneType' and 'str'")
      end
  end.

Definition is_IOError (e : exn) : bool :=
  match e with IOError _ _ => true | _ => false end.

Definition io_failure (e : exn) : str :=
  match e with
  | IOError filename strerror =>
      lit "Failed to replace config / creating temporary file " ++ filename ++
      lit ": " ++ lit strerror
  | _ => []
  end.

Definition replace (gitConfigFile : str) (subst : gmap str str) (host proto : str)
    (username : option str) (dryRun : bool) : M unit :=
  (if dryRun
   then print (lit "In " ++ gitConfigFile ++ lit " the following would be the new contents:")
   else ret tt) ;;;
  tempFile <- mkstemp ;;
  done <- try_except
    (text <- read_file gitConfigFile ;;
     result <- re_sub regex (replace_match subst host proto username dryRun tempFile) text ;;
     (if dryRun then print result else temp_write tempFile result) ;;;
     ret true)
    is_IOError
    (fun e => eprint (io_failure e) ;;; temp_remove tempFile ;;; ret false) ;;
  if done && negb dryRun then temp_move tempFile gitConfigFile else ret tt.

End Functions.

Definition confFiles (fs : tree) (target : str) (includeGitModules gitModulesOnly : bool)
    : list str :=
  if gitModulesOnly then iglob fs (target ++ lit "/**/.gitmodules")
  else if includeGitModules then
    iglob fs (target ++ lit "/**/.git/config") ++
    iglob fs (target ++ lit "/**/.git/modules/**/config") ++
    iglob fs (target ++ lit "/**/.gitmodules")
  else
    iglob fs (target ++ lit "/**/.git/config") ++
    iglob fs (target ++ lit "/**/.git/modules/**/config").

Definition is_ReError (e : exn) : bool :=
  match e with ReError _ _ => true | _ => false end.

Definition invalid_protocol : str :=
  lit "replace/protocol " ++ [dq] ++ lit "{}" ++ [dq] ++
  lit " is invalid (valid protocols: {})".

Definition invalid_regex (e : exn) : str :=
  match e with
  | ReError source msg =>
      lit "Config contains invalid regex " ++ [dq] ++ source ++ [dq] ++ lit ": " ++ lit msg
  | _ => []
  end.

Definition validateJSONConfig (json : json) : M unit :=
  rep <- getitem json (lit "replace") ;;
  has <- contains (lit "protocol") rep ;;
  invalid <-
    (if has : bool then
       rep <- getitem json (lit "replace") ;;
       p <- getitem rep (lit "protocol") ;;
       ret (negb (existsb (fun v => is_jstr v p) VALID_PROTOCOLS))
     else ret false) ;;
  (if invalid : bool then
     rep <- getitem json (lit "replace") ;;
     p <- getitem rep (lit "protocol") ;;
     raise (ValueError invalid_protocol [p; JStr (join (lit ", ") VALID_PROTOCOLS)])
   else ret tt) ;;;
  try_except
    (s <- getitem json (lit "search") ;;
     h <- getitem s (lit "hostname") ;;
     re_compile false h ;;;
     s <- getitem json (lit "search") ;;
     p <- getitem s (lit "path") ;;
     re_compile false p ;;;
     ret tt)
    is_ReError
    (fun e => eprint (invalid_regex e)).

(** The model follows the script on configurations whose values are strings
    where the script formats them into text. *)
Definition as_str (v : json) : M str :=
  match v with JStr s => ret s | _ => raise NotModelled end.

Fixpoint as_strs (kvs : list (str * json)) : M (list (str * str)) :=
  match kvs with
  | [] => ret []
  | (k, v) :: kvs' => s <- as_str v ;; rest <- as_strs kvs' ;; ret ((k, s) :: rest)
  end.

Definition as_subst (v : json) : M (gmap str str) :=
  match v with
  | JObj o => kvs <- as_strs (map_to_list o) ;; ret (list_to_map kvs)
  | _ => raise NotModelled
  end.

(** [a if a else b], for an optional command line string. *)
Definition given (a : option str) : option str :=
  match a with Some (c :: s) => Some (c :: s) | _ => None end.

(** One target file, in the mode the command line asks for. *)
Definition process (regex : pattern) (a : arguments) (json : json) (file : str) : M unit :=
  if list_configs a then printIfMatching regex file
  else if list_projects a then
    rep <- getitem json (lit "replace") ;;
    subst <- getitem rep (lit "substitutions") ;;
    subst <- as_subst subst ;;
    listProjects regex file subst (list_categorised a) (show_new_path a)
  else
    rep <- getitem json (lit "replace") ;;
    subst <- getitem rep (lit "substitutions") ;;
    subst <- as_subst subst ;;
    host <- match given (hostname a) with
            | Some h => ret h
            | None => rep <- getitem json (lit "replace") ;;
                      h <- getitem rep (lit "hostname") ;; as_str h
            end ;;
    proto <- match given (protocol a) with
             | Some p => ret p
             | None => rep <- getitem json (lit "replace") ;;
                       p <- getitem rep (lit "protocol") ;; as_str p
             end ;;
    user <- match given (username a) with
            | Some u => ret (Some u)
            | None => rep <- getitem json (lit "replace") ;;
                      u <- get rep (lit "username") ;;
                      match u with
                      | None | Some JNull => ret None
                      | Some u => u <- as_str u ;; ret (Some u)
                      end
            end ;;
    replace regex file subst host proto user (dry_run a).

(** The body of the script once the command line is parsed and the
    configuration file loaded. *)
Definition main (fs : tree) (a : arguments) (json : json) : M unit :=
  validateJSONConfig json ;;;
  s <- getitem json (lit "search") ;;
  hosts <- getitem s (lit "hostname") ;;
  hosts <- as_str hosts ;;
  s <- getitem json (lit "search") ;;
  paths <- getitem s (lit "path") ;;
  paths <- as_str paths ;;
  regex <- re_compile true (JStr (pattern_text hosts paths)) ;;
  for_each (targets a) (fun target =>
    if isdir fs target then
      for_each (confFiles fs target (modules a) (modules_only a)) (process regex a json)
    else process regex a json target).

End Script.
Export Script.

(** ** The configuration of the documentation, as a running example *)

Module Example.
Import Composite.

Definition hosts_text : str := lit "oldgit\.example\.org".
Definition paths_text : str := lit "/+(?:var|srv)/+git".

(** The two fragments, compiled. *)
Definition hosts : pattern := word "oldgit.example.org".
Definition paths : pattern :=
  seq [Plus true (Chr "/"); alt [word "var"; word "srv"]; Plus true (Chr "/");
       Chr "g"; Chr "i"; Chr "t"].

Definition regex : pattern := composite hosts paths.

Definition fields (kvs : list (string * json)) : gmap str json :=
  list_to_map (map (fun kv => (lit (fst kv), snd kv)) kvs).

Definition search_fields (hostname path : str) : gmap str json :=
  fields [("hostname", JStr hostname); ("path", JStr path)]%string.

Definition substitutions : gmap str str :=
  {[ lit "oldproject1" := lit "new/path/project1" ]}.

Definition replace_fields (protocol : option string) : gmap str json :=
  fields ([("hostname", JStr (lit "newgit.example.com"));
           ("username", JStr (lit "git"));
           ("substitutions",
            JObj (fields [("oldproject1", JStr (lit "new/path/project1"))]))]%string
          ++ match protocol with
             | Some p => [("protocol"%string, JStr (lit p))]
             | None => []
             end).

Definition config_fields (hostname path : str) (protocol : option string)
    : gmap str json :=
  fields [("search", JObj (search_fields hostname path));
          ("replace", JObj (replace_fields protocol))]%string.

Definition config_with (hostname path : str) (protocol : option string) : json :=
  JObj (config_fields hostname path protocol).

Definition conf : json := config_with hosts_text paths_text (Some "ssh-colon"%string).

(** One target, a file, given on the command line; no option. *)
Definition target : str := lit "project/.git/config".

Definition args : arguments :=
  {| list_configs := false; list_projects := false; show_new_path := None;
     list_categorised := false; dry_run := false; protocol := None;
     username := None; modules := false; modules_only := false;
     hostname := None; config := lit "config.json"; targets := [target] |}.

(** The same command line with [--dry-run], and with [--list-projects]. *)
Definition dry_args : arguments :=
  {| list_configs := false; list_projects := false; show_new_path := None;
     list_categorised := false; dry_run := true; protocol := None;
     username := None; modules := false; modules_only := false;
     hostname := None; config := lit "config.json"; targets := [target] |}.

Definition listing_args : arguments :=
  {| list_configs := false; list_projects := true; show_new_path := None;
     list_categorised := false; dry_run := false; protocol := None;
     username := None; modules := false; modules_only := false;
     hostname := None; config := lit "config.json"; targets := [target] |}.

(** The same command line with the three parts of the new URI given. *)
Definition override_args : arguments :=
  {| list_configs := false; list_projects := false; show_new_path := None;
     list_categorised := false; dry_run := false; protocol := Some (lit "https");
     username := Some (lit "alice"); modules := false; modules_only := false;
     hostname := Some (lit "git.example.net"); config := lit "config.json";
     targets := [target] |}.

Definition no_dirs : tree := {| isdir := fun _ => false; iglob := fun _ => [] |}.

(** A world with the target file only. *)
Definition world_of (text : str) : world :=
  {| files := {[ target := text ]}; temps := ∅; next_temp := 0;
     stdout := []; stderr := []; opened := [] |}.

Definition url_line : str :=
  lit "url = ssh://git@oldgit.example.org/var/git/oldproject1.git".

(** The match of the pattern in [url_line]. *)
Definition url_match : Match :=
  {| m_string := url_line; m_start := 0; m_end := 58;
     m_groups := {[ "key"%string := lit "url = "; "project"%string := lit "oldproject1" ]} |}.

Definition start : world := world_of url_line.

(** A world without any file. *)
Definition no_files : world :=
  {| files := ∅; temps := ∅; next_temp := 0; stdout := []; stderr := []; opened := [] |}.

(** A configuration with the protocol [svn], and one without protocol. *)
Definition svn_conf : json := config_with hosts_text paths_text (Some "svn"%string).
Definition bare_conf : json := config_with hosts_text paths_text None.

(** A configuration whose hostname fragment is [(]. *)
Definition broken_conf : json := config_with (lit "(") paths_text (Some "ssh-colon"%string).

(** A file with a project the substitution table does not have. *)
Definition unmapped_text : str :=
  unlines ["[core]"; "url = ../unmapped"; "bare = false"]%string.


(** A matched line followed by a line of white space. *)
Definition blank_text : str :=
  unlines ["url = ssh://git@oldgit.example.org/var/git/oldproject1.git"; "   "; "[core]"]%string.

(** A file that ends with a matched line. *)
Definition last_line_text : str :=
  unlines ["[submodule]"; "url = ssh://git@oldgit.example.org/var/git/oldproject1.git"]%string.

(** A file without any URL whose lines end with a carriage return and a
    newline. *)
Definition crlf_text : str :=
  lit "[core]" ++ [cr; nl] ++ lit "bare = false" ++ [cr; nl].

(** A file with a project of the table and a project without substitution. *)
Definition mixed_text : str :=
  unlines ["url = ssh://git@oldgit.example.org/var/git/oldproject1.git";
           "url = ../unmapped"]%string.

(** The match of the pattern in [last_line_text]. *)
Definition last_match : Match :=
  {| m_string := last_line_text; m_start := 12; m_end := 71;
     m_groups := m_groups url_match |}.

(** A configuration that searches for the host it rewrites to, with an empty
    path fragment, and maps a project to itself. *)
Definition same_hosts_text : str := lit "newgit\.example\.com".
Definition same_regex : pattern := composite (word "newgit.example.com") Eps.
Definition same_subst : gmap str str := {[ lit "project1" := lit "project1" ]}.
Definition same_conf : json :=
  JObj (fields
    [("search", JObj (search_fields same_hosts_text []));
     ("replace",
      JObj (fields [("hostname", JStr (lit "newgit.example.com"));
                    ("protocol", JStr (lit "https"));
                    ("substitutions",
                     JObj (fields [("project1", JStr (lit "project1"))]))]))]%string).

(** A file whose URL is already the one the rewrite produces. *)
Definition same_text : str :=
  unlines ["[submodule]"; "url = https://newgit.example.com/project1"]%string.
Definition same_line : str := lit "url = https://newgit.example.com/project1".

End Example.

(** ** Vocabulary for the properties *)

Module Props.

(** A pattern that takes one character of a given kind and captures
    nothing. *)
Definition single (r : pattern) (ok : ascii -> Prop) : Prop :=
  forall cu cs cu' cs', matches r cu cs cu' cs' ->
    cs' = cs /\ exists c, ok c /\ between cu cu' = [c].

Definition space (c : ascii) : Prop := is_space c = true.

(** The characters a project name is made of. *)
Definition project_char (c : ascii) : Prop := c <> "."%char /\ c <> nl.

(** The lines of a text, without their newlines. *)
Fixpoint lines_from (line : str) (text : str) : list str :=
  match text with
  | [] => [rev line]
  | c :: text' =>
      if bool_decide (c = nl) then rev line :: lines_from [] text'
      else lines_from (c :: line) text'
  end.
Definition lines (text : str) : list str := lines_from [] text.

(** The new path the substitution table has for the project of a match. *)
Definition new_path (subst : gmap str str) (m : Match) : option str :=
  group m "project" ≫= (subst !!.).

Definition mapped (subst : gmap str str) (m : Match) : bool :=
  bool_decide (is_Some (new_path subst m)).

Definition user_part (username : option str) : str :=
  match username with Some u => u ++ lit "@" | None => [] end.

(** What [replace_match] returns for a match. *)
Definition replacement (subst : gmap str str) (host proto : str)
    (username : option str) (m : Match) : str :=
  match new_path subst m with
  | Some path =>
      default [] (group m "key") ++ format_uri proto (user_part username) host path
  | None => m_string m
  end.

(** What [regex.sub] writes for a piece of the scan. *)
Definition new_text (subst : gmap str str) (host proto : str)
    (username : option str) (p : piece) : str :=
  match p with
  | Lit c => [c]
  | Hit m => replacement subst host proto username m
  end.

(** The matches without a substitution, in the order of the text. *)
Definition unmapped (subst : gmap str str) (ms : list Match) : list Match :=
  filter (fun m => mapped subst m = false) ms.

(** The projects of a list of matches. *)
Definition projects (ms : list Match) : list (option str) :=
  map (fun m => group m "project") ms.

(** The lines [listProjects] prints for a match with a substitution. *)
Definition listed (subst : gmap str str) (categorise : bool) (showNew : option str)
    (m : Match) : list str :=
  match new_path subst m with
  | None => []
  | Some newName =>
      (if categorise then [[tab]] else []) ++
      [match showNew with
       | Some delimiter => fmt (group m "project") ++ delimiter ++ newName ++ [nl]
       | None => fmt (group m "project") ++ [nl]
       end]
  end.

(** The matches that have a substitution, each with its new path, in the
    order of the text. *)
Definition with_path (subst : gmap str str) (ms : list Match) : list (Match * str) :=
  omap (fun m => pair m <$> new_path subst m) ms.

(** What [listProjects] prints for a match and its new path. *)
Definition entry (categorise : bool) (showNew : option str) (mp : Match * str) : list str :=
  (if categorise then [[tab]] else []) ++
  [match showNew with
   | Some delimiter => fmt (group (fst mp) "project") ++ delimiter ++ snd mp ++ [nl]
   | None => fmt (group (fst mp) "project") ++ [nl]
   end].

(** The world [w'] is [w] after the warnings [errs] and after [written] has
    been appended to the temporary file [t]. *)
Definition logged (t : nat) (errs : list str) (written : str) (w w' : world) : Prop :=
  files w' = files w /\ next_temp w' = next_temp w /\ stdout w' = stdout w /\
  opened w' = opened w /\ stderr w' = stderr w ++ errs /\
  default [] (temps w' !! t) = default [] (temps w !! t) ++ written.

(** The warnings of a rewrite and of a listing, one for every match without
    a substitution. *)
Definition warnings_replaced (subst : gmap str str) (ms : list Match) : list str :=
  map (fun m => warning_replaced (group m "project") ++ [nl]) (unmapped subst ms).
Definition warnings_listed (subst : gmap str str) (ms : list Match) : list str :=
  map (fun m => warning_listed (group m "project") ++ [nl]) (unmapped subst ms).

(** The text [regex.sub] returns in [replace]. *)
Definition rewrite (re : pattern) (subst : gmap str str) (host proto : str)
    (username : option str) (text : str) : str :=
  concat (map (new_text subst host proto username) (scan re text)).

(** The second statement of [validateJSONConfig], the two trial
    compilations. *)
Definition try_compile (json : json) : M unit :=
  try_except
    (s <- getitem json (lit "search") ;;
     h <- getitem s (lit "hostname") ;;
     re_compile false h ;;;
     s <- getitem json (lit "search") ;;
     p <- getitem s (lit "path") ;;
     re_compile false p ;;;
     ret tt)
    is_ReError
    (fun e => eprint (invalid_regex e)).

Definition is_ValueError (e : exn) : bool :=
  match e with ValueError _ _ => true | _ => false end.

(** A computation that leaves a component of the world as it is, however
    it ends. *)
Definition keeps {A F} (field : world -> F) (m : M A) : Prop :=
  forall w, field (snd (m w)) = field w.

(** Matches in the order of the text that do not overlap, none before
    position [from]. *)
Fixpoint ordered (from : nat) (ms : list Match) : Prop :=
  match ms with
  | [] => True
  | m :: ms' => from <= m_start m /\ m_start m <= m_end m /\ ordered (m_end m) ms'
  end.

(** The string held by a JSON string. *)
Definition text_of (v : json) : str :=
  match v with JStr s => s | _ => [] end.

(** A JSON object whose values are all strings. *)
Definition all_strings (o : gmap str json) : Prop :=
  forall k v, o !! k = Some v -> exists s, v = JStr s.

End Props.
Export Props.

(** ** Facts about the matcher *)

Module ReFacts.

Lemma orelse_Some {R} (a b : option R) (x : R) :
  orelse a b = Some x -> a = Some x \/ (a = None /\ b = Some x).
Proof. destruct a; simpl; intros H; [left | right]; auto. Qed.

Lemma one_sound {R} ok (cu : cursor) cs (k : cursor -> caps -> option R) x :
  one ok cu cs k = Some x ->
  exists c a, rest cu = c :: a /\ ok c = true /\ k (Cursor (c :: seen cu) a) cs = Some x.
Proof.
  unfold one. destruct (rest cu) as [|c a]; [discriminate|].
  destruct (ok c) eqn:E; [|discriminate]. eauto.
Qed.

(** Whatever [star_loop] returns comes from some number of iterations of a
    sound body followed by the continuation. *)
Lemma star_loop_sound {R} (r : pattern) greedy
    (body : cursor -> caps -> (cursor -> caps -> option R) -> option R)
    (k : cursor -> caps -> option R) :
  (forall cu cs k' x, body cu cs k' = Some x ->
     exists cu1 cs1, matches r cu cs cu1 cs1 /\ k' cu1 cs1 = Some x) ->
  forall fuel cu cs x,
    star_loop body greedy k fuel cu cs = Some x ->
    exists cu' cs', matches (Star greedy r) cu cs cu' cs' /\ k cu' cs' = Some x.
Proof.
  intros Hbody fuel. induction fuel as [|fuel IH]; intros cu cs x H; simpl in H.
  - exists cu, cs. split; [constructor | exact H].
  - assert (Hagain : forall y,
      body cu cs (fun cu1 cs1 =>
        if length (rest cu1) <? length (rest cu)
        then star_loop body greedy k fuel cu1 cs1 else None) = Some y ->
      exists cu' cs', matches (Star greedy r) cu cs cu' cs' /\ k cu' cs' = Some y).
    { intros y Hy. apply Hbody in Hy as (cu1 & cs1 & Hm & Hk).
      destruct (length (rest cu1) <? length (rest cu)); [|discriminate].
      apply IH in Hk as (cu' & cs' & Hs & Hk).
      exists cu', cs'. split; [|exact Hk]. eapply M_star_more; eauto. }
    destruct greedy; apply orelse_Some in H as [H | [_ H]]; auto;
      exists cu, cs; (split; [constructor | exact H]).
Qed.

(** Soundness of the matcher: a result is the continuation's answer at the
    end of a match of the pattern. *)
Lemma exec_sound {R} (r : pattern) :
  forall cu cs (k : cursor -> caps -> option R) x,
    exec r cu cs k = Some x ->
    exists cu' cs', matches r cu cs cu' cs' /\ k cu' cs' = Some x.
Proof.
  induction r; intros cu cs k x H; simpl in H.
  - exists cu, cs. split; [constructor | exact H].
  - apply one_sound in H as (d & a & Hr & Hok & Hk).
    apply bool_decide_eq_true in Hok. subst d.
    destruct cu as [b rs]. simpl in *. subst rs.
    eexists _, _. split; [constructor | exact Hk].
  - apply one_sound in H as (d & a & Hr & Hok & Hk).
    destruct cu as [b rs]. simpl in *. subst rs.
    eexists _, _. split; [constructor; exact Hok | exact Hk].
  - apply one_sound in H as (d & a & Hr & Hok & Hk).
    destruct cu as [b rs]. simpl in *. subst rs.
    eexists _, _. split; [constructor; exact Hok | exact Hk].
  - destruct (at_bol cu) eqn:E; [|discriminate].
    exists cu, cs. split; [constructor; exact E | exact H].
  - destruct (at_eol cu) eqn:E; [|discriminate].
    exists cu, cs. split; [constructor; exact E | exact H].
  - apply IHr1 in H as (cu1 & cs1 & H1 & H).
    apply IHr2 in H as (cu2 & cs2 & H2 & H).
    exists cu2, cs2. split; [econstructor; eauto | exact H].
  - apply orelse_Some in H as [H | [_ H]].
    + apply IHr1 in H as (cu1 & cs1 & H1 & H).
      exists cu1, cs1. split; [apply M_alt_l; exact H1 | exact H].
    + apply IHr2 in H as (cu1 & cs1 & H1 & H).
      exists cu1, cs1. split; [apply M_alt_r; exact H1 | exact H].
  - eapply star_loop_sound in H; [exact H|]. intros. eapply IHr; eauto.
  - apply IHr in H as (cu1 & cs1 & H1 & H).
    eexists _, _. split; [constructor; exact H1 | exact H].
Qed.

(** A match moves the cursor forwards over the text it consumes. *)
Lemma matches_advance r cu cs cu' cs' :
  matches r cu cs cu' cs' ->
  exists w, rest cu = w ++ rest cu' /\ seen cu' = rev w ++ seen cu.
Proof.
  induction 1;
    try (exists []; split; reflexivity);
    try (exists [c]; split; reflexivity);
    try assumption.
  - destruct IHmatches1 as (w1 & Hr1 & Hs1), IHmatches2 as (w2 & Hr2 & Hs2).
    exists (w1 ++ w2). rewrite Hr1, Hr2, Hs2, Hs1, rev_app_distr, !app_assoc.
    split; reflexivity.
  - destruct IHmatches1 as (w1 & Hr1 & Hs1), IHmatches2 as (w2 & Hr2 & Hs2).
    exists (w1 ++ w2). rewrite Hr1, Hr2, Hs2, Hs1, rev_app_distr, !app_assoc.
    split; reflexivity.
Qed.

Lemma between_advance cu cu' w :
  rest cu = w ++ rest cu' -> between cu cu' = w.
Proof.
  intros H. unfold between. rewrite H, length_app.
  replace (length w + length (rest cu') - length (rest cu')) with (length w) by lia.
  apply take_app_length.
Qed.

Lemma match_at_found re adv cu m :
  match_at re adv cu = Some m ->
  exists cu', matches re cu ∅ cu' (m_groups m) /\
    m_string m = subject cu /\ m_start m = pos cu /\ m_end m = pos cu' /\
    (adv = true -> pos cu' <> pos cu).
Proof.
  unfold match_at. intros H. apply exec_sound in H as (cu' & cs' & Hm & Hk).
  exists cu'. destruct (adv && (pos cu' =? pos cu)) eqn:E; [discriminate|].
  injection Hk as <-. simpl. repeat split; auto.
  intros ->. simpl in E. apply Nat.eqb_neq in E. exact E.
Qed.

(** The text of a match is what lies between its start and its end. *)
Lemma match_at_span re adv cu m :
  match_at re adv cu = Some m ->
  exists w, rest cu = w ++ drop (length w) (rest cu) /\ group0 m = w /\
    m_len m = length w /\ m_string m = subject cu /\ m_start m = pos cu /\
    (adv = true -> w <> []).
Proof.
  intros H. apply match_at_found in H as (cu' & Hm & Hs & Hb & He & Hadv).
  apply matches_advance in Hm as (w & Hr & Hse).
  assert (Hpos : pos cu' = length w + pos cu).
  { unfold pos. rewrite Hse, length_app, length_rev. reflexivity. }
  exists w. repeat split; auto.
  - rewrite Hr at 1. f_equal. rewrite Hr, drop_app_length. reflexivity.
  - unfold group0. rewrite Hs, Hb, He, Hpos. unfold subject, pos.
    rewrite <- (length_rev (seen cu)), drop_app_length.
    replace (length w + length (rev (seen cu)) - length (rev (seen cu))) with (length w) by lia.
    rewrite Hr. apply take_app_length.
  - unfold m_len. rewrite Hb, He, Hpos. lia.
  - intros Ha Hw. apply Hadv in Ha. subst w. simpl in Hpos. lia.
Qed.

(** The pieces of a scan, put back together, are the text scanned. *)
Lemma scan_from_text re : forall rs sn skip,
  skip <= length rs ->
  concat (map piece_text (scan_from re sn rs skip)) = drop skip rs.
Proof.
  induction rs as [|c rs IH]; intros sn skip Hs; simpl in *.
  - destruct skip; [|lia]. destruct (match_at re false (Cursor sn [])) eqn:E; [|reflexivity].
    apply match_at_span in E as (w & Hr & Hg & _). simpl in *.
    destruct w; [|discriminate]. rewrite Hg. reflexivity.
  - destruct skip as [|n].
    + destruct (match_at re false (Cursor sn (c :: rs))) as [m|] eqn:E.
      * apply match_at_span in E as (w & Hr & Hg & Hl & _). simpl in Hr.
        destruct (m_len m) as [|n] eqn:En.
        -- destruct w; [|discriminate]. 
           destruct (match_at re true (Cursor sn (c :: rs))) as [m'|] eqn:E'.
           ++ apply match_at_span in E' as (w' & Hr' & Hg' & Hl' & _ & _ & Hne).
              simpl in Hr'. destruct w' as [|c' w']; [exfalso; apply Hne; reflexivity|].
              simpl. rewrite Hg, Hg', Hl'. simpl. rewrite Nat.sub_0_r.
              rewrite IH.
              ** simpl in Hr'. injection Hr' as -> Hr'. rewrite <- Hr'. reflexivity.
              ** simpl in Hr'. injection Hr' as _ Hr'.
                 apply (f_equal length) in Hr'. rewrite length_app in Hr'. lia.
           ++ simpl. rewrite Hg, IH by lia. reflexivity.
        -- destruct w as [|c' w]; [discriminate|]. simpl in Hl. injection Hl as Hl. subst n.
           simpl. rewrite Hg. simpl in Hr. injection Hr as -> Hr.
           rewrite IH.
           ++ simpl. rewrite <- Hr. reflexivity.
           ++ apply (f_equal length) in Hr. rewrite length_app in Hr. lia.
      * simpl. rewrite IH by lia. reflexivity.
    + apply IH. lia.
Qed.

Lemma scan_text re text : concat (map piece_text (scan re text)) = text.
Proof. unfold scan. rewrite scan_from_text; [reflexivity | lia]. Qed.

Lemma match_at_is_found re adv cu m :
  match_at re adv cu = Some m -> found re (subject cu) m.
Proof.
  intros H. apply match_at_found in H as (cu' & Hm & Hs & Hb & He & _).
  exists cu, cu'. auto.
Qed.

Lemma scan_from_found re : forall rs sn skip m,
  Hit m ∈ scan_from re sn rs skip -> found re (rev sn ++ rs) m.
Proof.
  induction rs as [|c rs IH]; intros sn skip m H; simpl in H.
  - destruct skip; [|inversion H].
    destruct (match_at re false (Cursor sn [])) eqn:E; [|inversion H].
    apply list_elem_of_singleton in H. injection H as ->.
    apply match_at_is_found in E. exact E.
  - assert (Hrec : forall n, Hit m ∈ scan_from re (c :: sn) rs n -> found re (rev sn ++ c :: rs) m).
    { intros n Hn. apply IH in Hn. simpl in Hn. rewrite <- app_assoc in Hn. exact Hn. }
    destruct skip as [|n]; [|eauto].
    destruct (match_at re false (Cursor sn (c :: rs))) as [m0|] eqn:E.
    + destruct (m_len m0).
      * destruct (match_at re true (Cursor sn (c :: rs))) as [m1|] eqn:E1.
        -- apply elem_of_cons in H as [H|H]; [injection H as ->; eapply match_at_is_found in E; exact E|].
           apply elem_of_cons in H as [H|H]; [injection H as ->; eapply match_at_is_found in E1; exact E1|].
           eauto.
        -- apply elem_of_cons in H as [H|H]; [injection H as ->; eapply match_at_is_found in E; exact E|].
           apply elem_of_cons in H as [H|H]; [discriminate|]. eauto.
      * apply elem_of_cons in H as [H|H]; [injection H as ->; eapply match_at_is_found in E; exact E|].
        eauto.
    + apply elem_of_cons in H as [H|H]; [discriminate|]. eauto.
Qed.

Lemma finditer_hit re text m : m ∈ finditer re text <-> Hit m ∈ scan re text.
Proof.
  unfold finditer. rewrite list_elem_of_omap. split.
  - intros ([c|m'] & Hin & Hh); simpl in Hh; [discriminate|]. injection Hh as ->. exact Hin.
  - intros H. exists (Hit m). auto.
Qed.

Lemma finditer_found re text m : m ∈ finditer re text -> found re text m.
Proof.
  rewrite finditer_hit. unfold scan. intros H. apply scan_from_found in H. exact H.
Qed.

(** Captures are only ever added or overwritten. *)
Lemma matches_keeps r cu cs cu' cs' (n : string) :
  matches r cu cs cu' cs' -> is_Some (cs !! n) -> is_Some (cs' !! n).
Proof.
  induction 1; auto. intros Hs. specialize (IHmatches Hs).
  destruct name as [n'|]; simpl; [|exact IHmatches].
  destruct (decide (n' = n)) as [->|Hne].
  - rewrite lookup_insert_eq. eauto.
  - rewrite lookup_insert_ne by exact Hne. exact IHmatches.
Qed.

(** A pattern leaves alone the groups it does not have. *)
Lemma matches_binds r cu cs cu' cs' (n : string) :
  matches r cu cs cu' cs' -> binds n r = false -> cs' !! n = cs !! n.
Proof.
  induction 1; simpl; intros Hb; auto.
  - apply orb_false_iff in Hb as [H1 H2]. rewrite IHmatches2, IHmatches1; auto.
  - apply orb_false_iff in Hb as [H1 H2]. auto.
  - apply orb_false_iff in Hb as [H1 H2]. auto.
  - rewrite IHmatches2, IHmatches1; auto.
  - destruct name as [n'|]; simpl; [|auto].
    apply orb_false_iff in Hb as [H1 H2]. apply bool_decide_eq_false in H1.
    rewrite lookup_insert_ne by exact H1. auto.
Qed.

(** The text a match consumes. *)
Lemma matches_word r cu cs cu' cs' :
  matches r cu cs cu' cs' ->
  rest cu = between cu cu' ++ rest cu' /\ seen cu' = rev (between cu cu') ++ seen cu.
Proof.
  intros H. apply matches_advance in H as (w & Hr & Hs).
  rewrite (between_advance _ _ _ Hr). auto.
Qed.

Lemma between_trans cu cu1 cu2 w1 w2 :
  rest cu = w1 ++ rest cu1 -> rest cu1 = w2 ++ rest cu2 ->
  between cu cu2 = between cu cu1 ++ between cu1 cu2.
Proof.
  intros H1 H2. rewrite (between_advance cu cu1 w1 H1), (between_advance cu1 cu2 w2 H2).
  apply between_advance. rewrite H1, H2, app_assoc. reflexivity.
Qed.

Lemma single_chr c : single (Chr c) (fun d => d = c).
Proof.
  intros cu cs cu' cs' H. inversion H; subst. split; [reflexivity|].
  exists c. split; [reflexivity|]. apply between_advance. reflexivity.
Qed.

Lemma single_cls n items : single (Cls n items) (fun d => cls_ok n items d = true).
Proof.
  intros cu cs cu' cs' H. inversion H; subst. split; [reflexivity|].
  exists c. split; [assumption|]. apply between_advance. reflexivity.
Qed.

Lemma matches_star_single g r ok cu cs cu' cs' :
  single r ok -> matches (Star g r) cu cs cu' cs' ->
  cs' = cs /\ Forall ok (between cu cu').
Proof.
  intros Hs H. remember (Star g r) as s eqn:Es.
  induction H; try discriminate; injection Es as -> ->.
  - split; [reflexivity|]. unfold between. rewrite Nat.sub_diag. constructor.
  - destruct (IHmatches2 eq_refl) as [-> HF].
    pose proof (matches_advance _ _ _ _ _ H) as (w1 & Hr1 & _).
    pose proof (matches_advance _ _ _ _ _ H0) as (w2 & Hr2 & _).
    apply Hs in H as [-> (c & Hc & Hb)].
    split; [reflexivity|].
    rewrite (between_trans _ _ _ _ _ Hr1 Hr2), Hb. constructor; assumption.
Qed.

Lemma matches_cat_inv r1 r2 cu cs cu2 cs2 :
  matches (Cat r1 r2) cu cs cu2 cs2 ->
  exists cu1 cs1, matches r1 cu cs cu1 cs1 /\ matches r2 cu1 cs1 cu2 cs2.
Proof. inversion 1; subst; eauto. Qed.

Lemma matches_alt_inv r1 r2 cu cs cu1 cs1 :
  matches (Alt r1 r2) cu cs cu1 cs1 ->
  matches r1 cu cs cu1 cs1 \/ matches r2 cu cs cu1 cs1.
Proof. inversion 1; subst; auto. Qed.

Lemma matches_group_inv name r cu cs cu1 cs1 :
  matches (Group name r) cu cs cu1 cs1 ->
  exists cs0, matches r cu cs cu1 cs0 /\ cs1 = bind_group name (between cu cu1) cs0.
Proof. inversion 1; subst; eauto. Qed.

Lemma matches_eps_inv cu cs cu1 cs1 :
  matches Eps cu cs cu1 cs1 -> cu1 = cu /\ cs1 = cs.
Proof. inversion 1; subst; auto. Qed.

Lemma matches_bol_inv cu cs cu1 cs1 :
  matches Bol cu cs cu1 cs1 -> cu1 = cu /\ cs1 = cs /\ at_bol cu = true.
Proof. inversion 1; subst; auto. Qed.

Lemma matches_eol_inv cu cs cu1 cs1 :
  matches Eol cu cs cu1 cs1 -> cu1 = cu /\ cs1 = cs /\ at_eol cu = true.
Proof. inversion 1; subst; auto. Qed.

Lemma between_self cu : between cu cu = [].
Proof. unfold between. rewrite Nat.sub_diag. reflexivity. Qed.

Lemma matches_between r1 r2 cu cs cu1 cs1 cu2 cs2 :
  matches r1 cu cs cu1 cs1 -> matches r2 cu1 cs1 cu2 cs2 ->
  between cu cu2 = between cu cu1 ++ between cu1 cu2.
Proof.
  intros H1 H2.
  apply matches_advance in H1 as (w1 & Hr1 & _).
  apply matches_advance in H2 as (w2 & Hr2 & _).
  eapply between_trans; eauto.
Qed.

Lemma matches_plus_single g r ok cu cs cu' cs' :
  single r ok -> matches (Plus g r) cu cs cu' cs' ->
  cs' = cs /\ Forall ok (between cu cu') /\ between cu cu' <> [].
Proof.
  intros Hs H. apply matches_cat_inv in H as (cu1 & cs1 & H1 & H2).
  rewrite (matches_between _ _ _ _ _ _ _ _ H1 H2).
  apply (matches_star_single _ _ _ _ _ _ _ Hs) in H2 as [-> HF].
  apply Hs in H1 as [-> (c & Hc & Hb)]. rewrite Hb.
  split; [reflexivity|]. split; [constructor; assumption | discriminate].
Qed.

(** A literal word. *)
Lemma matches_chars (s : str) : forall cu cs cu' cs',
  s <> [] -> matches (seq (map Chr s)) cu cs cu' cs' -> cs' = cs /\ between cu cu' = s.
Proof.
  induction s as [|c s IH]; intros cu cs cu' cs' Hne H; [congruence|].
  destruct s as [|d s].
  - simpl in H. apply single_chr in H as [-> (c' & -> & Hb)]. auto.
  - change (seq (map Chr (c :: d :: s))) with (Cat (Chr c) (seq (map Chr (d :: s)))) in H.
    apply matches_cat_inv in H as (cu1 & cs1 & H1 & H2).
    rewrite (matches_between _ _ _ _ _ _ _ _ H1 H2).
    apply IH in H2 as [-> Hb2]; [|discriminate].
    apply single_chr in H1 as [-> (c' & -> & Hb1)].
    rewrite Hb1, Hb2. auto.
Qed.

(** A greedy repetition of a one-character pattern that fails has failed
    after every run of such characters. *)
Lemma star_one_none {R} ok (k : cursor -> caps -> option R) cs :
  forall fuel sn rs,
    star_loop (one ok) true k fuel (Cursor sn rs) cs = None ->
    length rs <= fuel ->
    forall w r', rs = w ++ r' -> Forall (fun c => ok c = true) w ->
      k (Cursor (rev w ++ sn) r') cs = None.
Proof.
  induction fuel as [|fuel IH]; intros sn rs H Hlen w r' Hrs Hw; simpl in H.
  - destruct rs; [|simpl in Hlen; lia]. destruct w; [|discriminate].
    simpl in Hrs. subst r'. exact H.
  - unfold orelse in H.
    destruct (one ok (Cursor sn rs) cs _) eqn:Eagain; [discriminate|].
    destruct w as [|c w].
    + simpl in Hrs. subst r'. exact H.
    + subst rs. inversion Hw as [|? ? Hc Hw']; subst.
      unfold one in Eagain. simpl in Eagain. rewrite Hc in Eagain.
      rewrite length_app in Eagain.
      destruct (length w + length r' <? S (length w + length r')) eqn:El;
        [|apply Nat.ltb_ge in El; lia].
      simpl. rewrite <- app_assoc. simpl.
      eapply IH; eauto. simpl in Hlen. rewrite length_app in *. lia.
Qed.

(** A greedy repetition of a one-character pattern stops where the rest of
    the pattern accepts, and the rest of the pattern has refused every longer
    run. *)
Lemma star_one_greedy {R} ok (k : cursor -> caps -> option R) cs x :
  forall fuel sn rs,
    star_loop (one ok) true k fuel (Cursor sn rs) cs = Some x ->
    length rs <= fuel ->
    exists w r', rs = w ++ r' /\ Forall (fun c => ok c = true) w /\
      k (Cursor (rev w ++ sn) r') cs = Some x /\
      forall w2 r'', r' = w2 ++ r'' -> w2 <> [] -> Forall (fun c => ok c = true) w2 ->
        k (Cursor (rev (w ++ w2) ++ sn) r'') cs = None.
Proof.
  induction fuel as [|fuel IH]; intros sn rs H Hlen; simpl in H.
  - destruct rs; [|simpl in Hlen; lia]. exists [], []. repeat split; auto.
    intros w2 r'' Hr Hne. destruct w2; [congruence | discriminate].
  - apply orelse_Some in H as [H | [Hnone H]].
    + apply one_sound in H as (c & a & Hr & Hc & H). simpl in Hr, H. subst rs.
      destruct (length a <? length (c :: a)) eqn:El; [|discriminate].
      apply IH in H as (w & r' & -> & Hw & Hk & Hmax); [|simpl in Hlen; lia].
      exists (c :: w), r'. simpl. rewrite <- app_assoc. simpl.
      repeat split; auto.
      intros w2 r'' Hr Hne Hw2. specialize (Hmax w2 r'' Hr Hne Hw2).
      rewrite <- app_assoc. simpl. exact Hmax.
    + exists [], rs. simpl. repeat split; auto.
      intros w2 r'' Hr Hne Hw2. destruct w2 as [|c w2]; [congruence|].
      subst rs. inversion Hw2 as [|? ? Hc Hw2']; subst.
      unfold one in Hnone. simpl in Hnone. rewrite Hc in Hnone.
      rewrite length_app in Hnone.
      destruct (length w2 + length r'' <? S (length w2 + length r'')) eqn:El;
        [|apply Nat.ltb_ge in El; lia].
      eapply star_one_none in Hnone; eauto.
      * simpl. rewrite <- app_assoc. simpl. exact Hnone.
      * simpl in Hlen. rewrite length_app in *. lia.
Qed.

Lemma cursor_eta cu : Cursor (seen cu) (rest cu) = cu.
Proof. destruct cu; reflexivity. Qed.

Lemma subject_advance cu cu' w :
  rest cu = w ++ rest cu' -> seen cu' = rev w ++ seen cu -> subject cu' = subject cu.
Proof.
  intros Hr Hs. unfold subject. rewrite Hs, Hr, rev_app_distr, rev_involutive, <- app_assoc.
  reflexivity.
Qed.

Lemma pos_advance cu cu' w :
  seen cu' = rev w ++ seen cu -> pos cu' = pos cu + length w.
Proof. intros Hs. unfold pos. rewrite Hs, length_app, length_rev. lia. Qed.

Lemma exec_cat_sound {R} a b cu cs (k : cursor -> caps -> option R) x :
  exec (Cat a b) cu cs k = Some x ->
  exists cu1 cs1, matches a cu cs cu1 cs1 /\ exec b cu1 cs1 k = Some x.
Proof. intros H. apply (exec_sound a) in H. exact H. Qed.

Lemma scan_from_match_at re : forall rs sn skip m,
  Hit m ∈ scan_from re sn rs skip ->
  exists cu adv, subject cu = rev sn ++ rs /\ match_at re adv cu = Some m.
Proof.
  induction rs as [|c rs IH]; intros sn skip m H; simpl in H.
  - destruct skip; [|inversion H].
    destruct (match_at re false (Cursor sn [])) eqn:E; [|inversion H].
    apply list_elem_of_singleton in H. injection H as ->.
    exists (Cursor sn []), false. auto.
  - assert (Hrec : forall n, Hit m ∈ scan_from re (c :: sn) rs n ->
      exists cu adv, subject cu = rev sn ++ c :: rs /\ match_at re adv cu = Some m).
    { intros n Hn. apply IH in Hn as (cu & adv & Hs & Hm). simpl in Hs.
      rewrite <- app_assoc in Hs. eauto. }
    destruct skip as [|n]; [|eauto].
    destruct (match_at re false (Cursor sn (c :: rs))) as [m0|] eqn:E.
    + destruct (m_len m0).
      * destruct (match_at re true (Cursor sn (c :: rs))) as [m1|] eqn:E1.
        -- apply elem_of_cons in H as [H|H];
             [injection H as ->; exists (Cursor sn (c :: rs)), false; auto|].
           apply elem_of_cons in H as [H|H];
             [injection H as ->; exists (Cursor sn (c :: rs)), true; auto|].
           eauto.
        -- apply elem_of_cons in H as [H|H];
             [injection H as ->; exists (Cursor sn (c :: rs)), false; auto|].
           apply elem_of_cons in H as [H|H]; [discriminate|]. eauto.
      * apply elem_of_cons in H as [H|H];
          [injection H as ->; exists (Cursor sn (c :: rs)), false; auto|].
        eauto.
    + apply elem_of_cons in H as [H|H]; [discriminate|]. eauto.
Qed.

Lemma finditer_match_at re text m :
  m ∈ finditer re text ->
  exists cu adv, subject cu = text /\ match_at re adv cu = Some m.
Proof.
  rewrite finditer_hit. unfold scan. intros H.
  apply scan_from_match_at in H. exact H.
Qed.

(** A match lies in its text, between its start and its end. *)
Lemma found_span re text m :
  found re text m ->
  text = take (m_start m) text ++ group0 m ++ drop (m_end m) text /\
  m_end m = m_start m + length (group0 m) /\ m_end m <= length text /\
  m_string m = text.
Proof.
  intros (cu & cu' & Hsub & Hm & Hstr & Hb & He).
  apply matches_advance in Hm as (w & Hr & Hs).
  assert (Hpos : pos cu' = pos cu + length w) by (eapply pos_advance; eauto).
  assert (Htext : text = rev (seen cu) ++ w ++ rest cu').
  { rewrite <- Hsub. unfold subject. rewrite Hr. reflexivity. }
  assert (Hl : length (rev (seen cu)) = m_start m).
  { rewrite length_rev. symmetry. exact Hb. }
  assert (Hg : group0 m = w).
  { unfold group0. rewrite Hstr, He, Hpos, <- Hb, <- Hl.
    rewrite Htext at 1. rewrite drop_app_length.
    replace (length (rev (seen cu)) + length w - length (rev (seen cu))) with (length w) by lia.
    apply take_app_length. }
  rewrite Hg, He, Hpos, <- Hb. repeat split; auto.
  - rewrite <- Hl. rewrite Htext at 1 2 3.
    rewrite take_app_length.
    replace (length (rev (seen cu)) + length w) with (length (rev (seen cu) ++ w))
      by (rewrite length_app; reflexivity).
    rewrite app_assoc, drop_app_length, <- app_assoc. reflexivity.
  - rewrite Htext, !length_app, <- Hl. lia.
Qed.

Lemma match_at_len re adv cu m :
  match_at re adv cu = Some m ->
  m_start m = pos cu /\ length (group0 m) = m_len m /\ m_len m <= length (rest cu).
Proof.
  intros H. apply match_at_span in H as (w & Hr & Hg & Hl & _ & Hb & _).
  rewrite Hg, Hl. repeat split; auto.
  apply (f_equal length) in Hr. rewrite length_app in Hr. lia.
Qed.

(** A match found by the scan stands after pieces whose text is the text
    before the match. *)
Lemma scan_from_split re : forall rs sn skip m,
  skip <= length rs -> Hit m ∈ scan_from re sn rs skip ->
  exists ps1 ps2,
    scan_from re sn rs skip = ps1 ++ Hit m :: ps2 /\
    m_start m = length sn + skip + length (concat (map piece_text ps1)).
Proof.
  induction rs as [|c rs IH]; intros sn skip m Hs H; simpl in H |- *.
  - destruct skip; [|inversion H].
    destruct (match_at re false (Cursor sn [])) as [m0|] eqn:E; [|inversion H].
    apply list_elem_of_singleton in H. injection H as ->.
    exists [], []. split; [reflexivity|].
    apply match_at_len in E as (Hb & _). rewrite Hb. unfold pos. simpl. lia.
  - assert (Hrec : forall n pre, n <= length rs ->
        Hit m ∈ scan_from re (c :: sn) rs n ->
        length (concat (map piece_text pre)) = S n ->
        exists ps1 ps2,
          pre ++ scan_from re (c :: sn) rs n = ps1 ++ Hit m :: ps2 /\
          m_start m = length sn + 0 + length (concat (map piece_text ps1))).
    { intros n pre Hn Hin Hpre. destruct (IH (c :: sn) n m Hn Hin) as (ps1 & ps2 & -> & Hst).
      exists (pre ++ ps1), ps2. rewrite <- app_assoc. split; [reflexivity|].
      rewrite map_app, concat_app, length_app, Hpre, Hst. simpl. lia. }
    destruct skip as [|n].
    + destruct (match_at re false (Cursor sn (c :: rs))) as [m0|] eqn:E.
      * pose proof (match_at_len _ _ _ _ E) as (Hb0 & Hg0 & Hl0). simpl in Hl0.
        destruct (m_len m0) as [|n] eqn:En.
        -- destruct (match_at re true (Cursor sn (c :: rs))) as [m1|] eqn:E1.
           ++ pose proof (match_at_len _ _ _ _ E1) as (Hb1 & Hg1 & Hl1). simpl in Hl1.
              pose proof (match_at_span _ _ _ _ E1) as (w1 & _ & Hgw & Hlw & _ & _ & Hne).
              assert (Hpos : m_len m1 <> 0).
              { rewrite Hlw. destruct w1; [exfalso; apply Hne; reflexivity | discriminate]. }
              apply elem_of_cons in H as [H|H].
              { injection H as ->. exists [], (Hit m1 :: scan_from re (c :: sn) rs (m_len m1 - 1)).
                split; [reflexivity|]. rewrite Hb0. unfold pos. simpl. lia. }
              apply elem_of_cons in H as [H|H].
              { injection H as ->. exists [Hit m0], (scan_from re (c :: sn) rs (m_len m1 - 1)).
                split; [reflexivity|]. rewrite Hb1. unfold pos. simpl.
                rewrite app_nil_r, Hg0. lia. }
              apply (Hrec (m_len m1 - 1) [Hit m0; Hit m1]); [lia | exact H |].
              simpl. rewrite app_nil_r, length_app, Hg0, Hg1. lia.
           ++ apply elem_of_cons in H as [H|H].
              { injection H as ->. exists [], (Lit c :: scan_from re (c :: sn) rs 0).
                split; [reflexivity|]. rewrite Hb0. unfold pos. simpl. lia. }
              apply elem_of_cons in H as [H|H]; [discriminate|].
              apply (Hrec 0 [Hit m0; Lit c]); [lia | exact H |].
              simpl. rewrite length_app, Hg0. reflexivity.
        -- apply elem_of_cons in H as [H|H].
           { injection H as ->. exists [], (scan_from re (c :: sn) rs n).
             split; [reflexivity|]. rewrite Hb0. unfold pos. simpl. lia. }
           apply (Hrec n [Hit m0]); [lia | exact H |].
           simpl. rewrite app_nil_r, Hg0. reflexivity.
      * apply elem_of_cons in H as [H|H]; [discriminate|].
        apply (Hrec 0 [Lit c]); [lia | exact H | reflexivity].
    + simpl in Hs. destruct (IH (c :: sn) n m ltac:(lia) H) as (ps1 & ps2 & -> & Hst).
      exists ps1, ps2. split; [reflexivity|]. rewrite Hst. simpl. lia.
Qed.

Lemma scan_split re text m :
  m ∈ finditer re text ->
  exists ps1 ps2,
    scan re text = ps1 ++ Hit m :: ps2 /\
    concat (map piece_text ps1) = take (m_start m) text /\
    concat (map piece_text ps2) = drop (m_end m) text.
Proof.
  intros Hm. pose proof (finditer_found _ _ _ Hm) as Hf.
  apply found_span in Hf as (Htext & Hend & Hle & _).
  apply finditer_hit in Hm. unfold scan in *.
  apply scan_from_split in Hm as (ps1 & ps2 & Hsplit & Hst); [|lia].
  exists ps1, ps2. split; [exact Hsplit|].
  pose proof (scan_from_text re text [] 0 ltac:(lia)) as Hcat.
  rewrite Hsplit, map_app, concat_app in Hcat. simpl in Hcat, Hst.
  rewrite Hend, Hst. clear Hst Hend Hle Htext.
  set (t1 := concat (map piece_text ps1)) in *.
  set (t2 := concat (map piece_text ps2)) in *.
  clearbody t1 t2. rewrite drop_0 in Hcat. clear Hsplit. subst text. split.
  - rewrite take_app_length. reflexivity.
  - replace (length t1 + length (group0 m)) with (length (t1 ++ group0 m))
      by (rewrite length_app; reflexivity).
    rewrite app_assoc, drop_app_length. reflexivity.
Qed.

End ReFacts.

(** ** Facts about the composite pattern *)

Module CompositeFacts.
Import ReFacts Composite.

Lemma ws_single : single ws space.
Proof.
  intros cu cs cu' cs' H. apply single_cls in H as [-> (c & Hc & Hb)].
  split; [reflexivity|]. exists c. split; [|exact Hb].
  unfold cls_ok in Hc. simpl in Hc. unfold space.
  destruct (is_space c); [reflexivity | discriminate].
Qed.

Lemma key_re_matches cu cs cu' cs' :
  matches key_re cu cs cu' cs' ->
  cs' = cs /\ exists s1 s2 s3,
    between cu cu' = s1 ++ lit "url" ++ s2 ++ lit "=" ++ s3 /\
    Forall space s1 /\ Forall space s2 /\ Forall space s3.
Proof.
  unfold key_re. simpl seq. intros H.
  apply matches_cat_inv in H as (c1 & k1 & H1 & H).
  rewrite (matches_between _ _ _ _ _ _ _ _ H1 H).
  apply (matches_star_single _ _ _ _ _ _ _ ws_single) in H1 as [-> F1].
  apply matches_cat_inv in H as (c2 & k2 & H2 & H).
  rewrite (matches_between _ _ _ _ _ _ _ _ H2 H).
  apply single_chr in H2 as [-> (? & -> & ->)].
  apply matches_cat_inv in H as (c3 & k3 & H3 & H).
  rewrite (matches_between _ _ _ _ _ _ _ _ H3 H).
  apply single_chr in H3 as [-> (? & -> & ->)].
  apply matches_cat_inv in H as (c4 & k4 & H4 & H).
  rewrite (matches_between _ _ _ _ _ _ _ _ H4 H).
  apply single_chr in H4 as [-> (? & -> & ->)].
  apply matches_cat_inv in H as (c5 & k5 & H5 & H).
  rewrite (matches_between _ _ _ _ _ _ _ _ H5 H).
  apply (matches_star_single _ _ _ _ _ _ _ ws_single) in H5 as [-> F2].
  apply matches_cat_inv in H as (c6 & k6 & H6 & H).
  rewrite (matches_between _ _ _ _ _ _ _ _ H6 H).
  apply single_chr in H6 as [-> (? & -> & ->)].
  apply (matches_star_single _ _ _ _ _ _ _ ws_single) in H as [-> F3].
  split; [reflexivity|]. eexists _, _, _. split; [reflexivity|]. auto.
Qed.

Lemma suffix_re_matches cu cs cu' cs' :
  matches suffix_re cu cs cu' cs' ->
  cs' = cs /\ (between cu cu' = [] \/ between cu cu' = lit ".git").
Proof.
  unfold suffix_re, Opt. intros H. apply matches_alt_inv in H as [H|H].
  - apply matches_eps_inv in H as [-> ->]. rewrite between_self. auto.
  - change (seq [Chr "."; Chr "g"; Chr "i"; Chr "t"]) with (seq (map Chr (lit ".git"))) in H.
    apply matches_chars in H as [-> Hb]; [auto | discriminate].
Qed.

Lemma project_re_matches cu cs cu' cs' :
  matches project_re cu cs cu' cs' ->
  cs' = cs /\ Forall project_char (between cu cu') /\ between cu cu' <> [].
Proof.
  intros H. unfold project_re in H.
  eapply matches_plus_single in H as (-> & HF & Hne); [|apply single_cls].
  split; [reflexivity|]. split; [|exact Hne].
  eapply Forall_impl; [exact HF|]. intros c Hc. unfold cls_ok in Hc. simpl in Hc.
  rewrite orb_false_r in Hc. apply negb_true_iff, orb_false_iff in Hc as [H1 H2].
  apply bool_decide_eq_false in H1, H2. split; assumption.
Qed.

(** What any match of the composite pattern looks like. *)
Lemma composite_matches hosts paths cu cu' cs' :
  matches (composite hosts paths) cu ∅ cu' cs' ->
  exists key uri slashes proj sfx sp,
    between cu cu' = key ++ uri ++ slashes ++ proj ++ sfx ++ sp /\
    at_bol cu = true /\ at_eol cu' = true /\
    slashes <> [] /\ Forall (fun c => c = "/"%char) slashes /\
    (exists s1 s2 s3, key = s1 ++ lit "url" ++ s2 ++ lit "=" ++ s3 /\
       Forall space s1 /\ Forall space s2 /\ Forall space s3) /\
    cs' !! "project"%string = Some proj /\
    is_Some (cs' !! "key"%string) /\
    (binds "key" hosts = false -> binds "key" paths = false ->
     cs' !! "key"%string = Some key) /\
    proj <> [] /\ Forall project_char proj /\
    (sfx = [] \/ sfx = lit ".git") /\ Forall space sp.
Proof.
  unfold composite. simpl seq. intros H.
  apply matches_cat_inv in H as (c0 & k0 & H0 & H).
  apply matches_bol_inv in H0 as (-> & -> & Hbol).
  apply matches_cat_inv in H as (c1 & k1 & H1 & H).
  rewrite (matches_between _ _ _ _ _ _ _ _ H1 H).
  apply matches_group_inv in H1 as (k1' & H1 & ->).
  apply key_re_matches in H1 as [-> Hkey]. simpl bind_group in H.
  assert (Hk1 : is_Some (<["key"%string := between cu c1]> (∅ : caps) !! "key"%string)).
  { rewrite lookup_insert_eq. eauto. }
  pose proof (matches_keeps _ _ _ _ _ "key"%string H Hk1) as HkS.
  assert (HkE : binds "key" hosts = false -> binds "key" paths = false ->
                cs' !! "key"%string = Some (between cu c1)).
  { intros Hh Hp. rewrite (matches_binds _ _ _ _ _ "key"%string H).
    - apply lookup_insert_eq.
    - simpl. rewrite Hh, Hp. reflexivity. }
  apply matches_cat_inv in H as (c2 & k2 & H2 & H).
  rewrite (matches_between _ _ _ _ _ _ _ _ H2 H).
  apply matches_cat_inv in H as (c3 & k3 & H3 & H).
  rewrite (matches_between _ _ _ _ _ _ _ _ H3 H).
  pose proof (matches_plus_single _ _ _ _ _ _ _ (single_chr "/") H3) as (_ & Hsl & Hslne).
  apply matches_cat_inv in H as (c4 & k4 & H4 & H).
  rewrite (matches_between _ _ _ _ _ _ _ _ H4 H).
  apply matches_group_inv in H4 as (k4' & H4 & ->).
  apply project_re_matches in H4 as (-> & HPF & HPne). simpl bind_group in H.
  assert (Hproj : cs' !! "project"%string = Some (between c3 c4)).
  { rewrite (matches_binds _ _ _ _ _ "project"%string H); [|reflexivity].
    apply lookup_insert_eq. }
  apply matches_cat_inv in H as (c5 & k5 & H5 & H).
  rewrite (matches_between _ _ _ _ _ _ _ _ H5 H).
  apply suffix_re_matches in H5 as [-> Hsfx].
  apply matches_cat_inv in H as (c6 & k6 & H6 & H).
  rewrite (matches_between _ _ _ _ _ _ _ _ H6 H).
  apply (matches_star_single _ _ _ _ _ _ _ ws_single) in H6 as [-> Hsp].
  apply matches_eol_inv in H as (-> & -> & Heol).
  rewrite between_self, app_nil_r.
  exists (between cu c1), (between c1 c2), (between c2 c3), (between c3 c4),
    (between c4 c5), (between c5 c6).
  repeat split; auto.
Qed.

(** Everything before the trailing white space of the composite pattern: the
    search reaches [\s*$] somewhere after the start of the match. *)
Lemma composite_tail {R} hosts paths cu (k : cursor -> caps -> option R) x :
  exec (composite hosts paths) cu ∅ k = Some x ->
  exists cu6 cs6 w,
    w <> [] /\ rest cu = w ++ rest cu6 /\ seen cu6 = rev w ++ seen cu /\
    exec (Cat (Star true ws) Eol) cu6 cs6 k = Some x.
Proof.
  unfold composite. simpl seq. intros H.
  apply exec_cat_sound in H as (c0 & k0 & H0 & H).
  apply matches_bol_inv in H0 as (-> & -> & _).
  apply exec_cat_sound in H as (c1 & k1 & H1 & H).
  apply exec_cat_sound in H as (c2 & k2 & H2 & H).
  apply exec_cat_sound in H as (c3 & k3 & H3 & H).
  apply exec_cat_sound in H as (c4 & k4 & H4 & H).
  apply exec_cat_sound in H as (c5 & k5 & H5 & H).
  assert (Hall : matches (seq [Group (Some "key"%string) key_re; uri_re hosts paths;
                   Plus true (Chr "/"); Group (Some "project"%string) project_re; suffix_re])
                   cu ∅ c5 k5).
  { simpl seq. repeat (econstructor; eauto). }
  pose proof (matches_advance _ _ _ _ _ H1) as (w1 & Hr1 & _).
  pose proof (matches_advance _ _ _ _ _ Hall) as (w & Hr & Hs).
  exists c5, k5, w. repeat split; auto.
  intros ->. simpl in Hr.
  apply matches_group_inv in H1 as (k1' & H1 & _).
  pose proof (matches_word _ _ _ _ _ H1) as [Hw1 _].
  apply key_re_matches in H1 as (_ & s1 & s2 & s3 & Hb & _).
  pose proof (matches_advance _ _ _ _ _
    (M_cat _ _ _ _ _ _ _ _ H2 (M_cat _ _ _ _ _ _ _ _ H3 (M_cat _ _ _ _ _ _ _ _ H4 H5))))
    as (w' & Hr' & _).
  rewrite Hw1, Hb, Hr' in Hr. apply (f_equal length) in Hr.
  rewrite !length_app in Hr. simpl in Hr. lia.
Qed.

(** The trailing white space is taken greedily: a match of the composite
    pattern followed by white space only runs to the end of the text. *)
Lemma composite_end hosts paths adv cu m :
  match_at (composite hosts paths) adv cu = Some m ->
  Forall space (drop (m_end m) (subject cu)) ->
  m_end m = length (subject cu).
Proof.
  unfold match_at. intros H Hsp.
  apply composite_tail in H as (c6 & k6 & w & Hne & Hr & Hs & H).
  simpl exec in H. rewrite <- (cursor_eta c6) in H at 2.
  apply star_one_greedy in H as (sp & r' & Hr6 & Hspw & Hk & Hmax); [|reflexivity].
  set (cu' := Cursor (rev sp ++ seen c6) r') in *.
  destruct (at_eol cu') eqn:Heol; [|discriminate].
  destruct (adv && (pos cu' =? pos cu)); [discriminate|].
  injection Hk as <-. simpl in *.
  assert (Hsub : subject cu' = subject cu).
  { transitivity (subject c6).
    - eapply subject_advance; [exact Hr6 | reflexivity].
    - eapply subject_advance; eauto. }
  assert (Hdrop : drop (pos cu') (subject cu) = r').
  { rewrite <- Hsub. unfold subject, pos. rewrite <- (length_rev (seen cu')).
    rewrite drop_app_length. reflexivity. }
  rewrite Hdrop in Hsp.
  assert (Hlen : length (subject cu) = pos cu' + length r').
  { rewrite <- Hsub. unfold subject, pos. rewrite length_app, length_rev. reflexivity. }
  destruct r' as [|c r']; [simpl in Hlen; lia|]. exfalso.
  assert (Hok : Forall (fun d => cls_ok false [CSpace] d = true) (c :: r')).
  { eapply Forall_impl; [exact Hsp|]. intros d Hd. unfold cls_ok. simpl.
    rewrite Hd. reflexivity. }
  specialize (Hmax (c :: r') [] (eq_sym (app_nil_r _)) ltac:(discriminate) Hok).
  cbn [at_eol rest] in Hmax.
  destruct adv; [|discriminate]. simpl andb in Hmax.
  destruct (Nat.eqb_spec (pos (Cursor (rev (sp ++ c :: r') ++ seen c6) [])) (pos cu)) as [He|He];
    [|discriminate].
  unfold pos in He. simpl in He. rewrite Hs in He.
  rewrite !length_app, !length_rev, length_app in He. simpl in He. lia.
Qed.

(** The shape of every match of the composite pattern in a text. *)
Lemma composite_found hosts paths text m :
  found (composite hosts paths) text m ->
  exists key uri slashes proj sfx sp,
    group0 m = key ++ uri ++ slashes ++ proj ++ sfx ++ sp /\
    slashes <> [] /\ Forall (fun c => c = "/"%char) slashes /\
    (exists s1 s2 s3, key = s1 ++ lit "url" ++ s2 ++ lit "=" ++ s3 /\
       Forall space s1 /\ Forall space s2 /\ Forall space s3) /\
    group m "project" = Some proj /\
    is_Some (group m "key") /\
    (binds "key" hosts = false -> binds "key" paths = false ->
     group m "key" = Some key) /\
    proj <> [] /\ Forall project_char proj /\
    (sfx = [] \/ sfx = lit ".git") /\ Forall space sp /\
    (m_start m = 0 \/ text !! (m_start m - 1) = Some nl) /\
    (m_end m = length text \/ text !! m_end m = Some nl).
Proof.
  intros Hf. pose proof (found_span _ _ _ Hf) as (Htext & Hend & Hle & Hstr).
  destruct Hf as (cu & cu' & Hsub & Hm & _ & Hb & He).
  pose proof (matches_advance _ _ _ _ _ Hm) as (w & Hr & Hs).
  assert (Hg : group0 m = between cu cu').
  { rewrite (between_advance _ _ _ Hr).
    unfold group0. rewrite Hstr, He, (pos_advance _ _ _ Hs), Hb, <- Hsub.
    unfold subject, pos. rewrite <- (length_rev (seen cu)), drop_app_length.
    replace (length (rev (seen cu)) + length w - length (rev (seen cu))) with (length w) by lia.
    rewrite Hr. apply take_app_length. }
  pose proof (subject_advance _ _ _ Hr Hs) as Hsub'.
  apply composite_matches in Hm
    as (key & uri & sl & proj & sfx & sp & Hbt & Hbol & Heol & Hsl1 & Hsl2 & Hkey & Hp & HkS & HkE &
        H1 & H2 & H3 & H4).
  exists key, uri, sl, proj, sfx, sp. rewrite Hg. unfold group.
  repeat split; auto.
  - unfold at_bol in Hbol. destruct (seen cu) as [|c sn] eqn:Esn.
    + left. rewrite Hb. unfold pos. rewrite Esn. reflexivity.
    + right. apply bool_decide_eq_true in Hbol. subst c.
      rewrite Hb, <- Hsub. unfold subject, pos. rewrite Esn. simpl.
      rewrite Nat.sub_0_r, <- app_assoc. 
      rewrite lookup_app_r by (rewrite length_rev; lia).
      rewrite length_rev, Nat.sub_diag. reflexivity.
  - unfold at_eol in Heol. destruct (rest cu') as [|c rs] eqn:Ers.
    + left. rewrite He, <- Hsub, <- Hsub'.
      unfold subject, pos. rewrite Ers, app_nil_r, length_rev. reflexivity.
    + right. apply bool_decide_eq_true in Heol. subst c.
      rewrite He, <- Hsub, <- Hsub'.
      unfold subject, pos. rewrite Ers.
      rewrite lookup_app_r by (rewrite length_rev; lia).
      rewrite length_rev, Nat.sub_diag. reflexivity.
Qed.

(** A match of the composite pattern is never empty. *)
Lemma composite_nonempty hosts paths text m :
  found (composite hosts paths) text m -> group0 m <> [].
Proof.
  intros H. apply composite_found in H
    as (key & uri & sl & proj & sfx & sp & Hg & _ & _ & (s1 & s2 & s3 & -> & _) & _).
  rewrite Hg. intros E. apply (f_equal length) in E. rewrite !length_app in E.
  simpl in E. lia.
Qed.

(** A match of the composite pattern that ends with the text is the last
    piece of the scan. *)
Lemma composite_last hosts paths text m :
  m ∈ finditer (composite hosts paths) text -> m_end m = length text ->
  exists ps, scan (composite hosts paths) text = ps ++ [Hit m] /\
    concat (map piece_text ps) = take (m_start m) text.
Proof.
  intros Hm He. destruct (scan_split _ _ _ Hm) as (ps1 & ps2 & Hsplit & H1 & H2).
  exists ps1. split; [|exact H1]. rewrite Hsplit. f_equal. f_equal.
  rewrite He, drop_all in H2. destruct ps2 as [|p ps2]; [reflexivity|]. exfalso.
  assert (Hin : p ∈ scan (composite hosts paths) text).
  { rewrite Hsplit. apply elem_of_app. right. right. left. }
  simpl in H2. apply app_eq_nil in H2 as [Hp _].
  destruct p as [c|m']; [discriminate|].
  apply finditer_hit, finditer_found, composite_nonempty in Hin. auto.
Qed.

(** Every match of the composite pattern has its key and its project. *)
Lemma composite_groups hosts paths text m :
  m ∈ finditer (composite hosts paths) text ->
  is_Some (group m "key") /\ is_Some (group m "project").
Proof.
  intros H. apply finditer_found, composite_found in H
    as (key & uri & sl & proj & sfx & sp & _ & _ & _ & _ & Hp & Hk & _).
  split; [exact Hk | rewrite Hp; eauto].
Qed.

(** A text begins with a run of white space that ends with the text or
    before a character that is no white space. *)
Lemma space_run (l : str) :
  exists sp r, l = sp ++ r /\ Forall space sp /\
    (r = [] \/ exists c t, r = c :: t /\ ~ space c).
Proof.
  induction l as [|c l (sp & r & -> & Hsp & Hr)].
  - exists [], []. auto.
  - destruct (is_space c) eqn:E.
    + exists (c :: sp), r. auto.
    + exists [], (c :: sp ++ r). split; [reflexivity|]. split; [constructor|].
      right. exists c, (sp ++ r). split; [reflexivity|]. unfold space. rewrite E. discriminate.
Qed.

(** Where a match of the composite pattern ends: at the end of the text, or
    before a newline that is followed, after blanks that are no newlines, by
    a character that is no white space.  The white space after the URL,
    line ends and blank lines included, is inside the match up to the last
    line end before that character. *)
Lemma composite_extent hosts paths adv cu m :
  match_at (composite hosts paths) adv cu = Some m ->
  drop (m_end m) (subject cu) = [] \/
  exists blanks c tail,
    drop (m_end m) (subject cu) = nl :: blanks ++ c :: tail /\
    Forall (fun b => space b /\ b <> nl) blanks /\ ~ space c.
Proof.
  unfold match_at. intros H.
  apply composite_tail in H as (c6 & k6 & w & Hne & Hr & Hs & H).
  simpl exec in H. rewrite <- (cursor_eta c6) in H at 2.
  apply star_one_greedy in H as (sp & r' & Hr6 & Hspw & Hk & Hmax); [|reflexivity].
  set (cu' := Cursor (rev sp ++ seen c6) r') in *.
  destruct (at_eol cu') eqn:Heol; [|discriminate].
  destruct (adv && (pos cu' =? pos cu)); [discriminate|].
  injection Hk as <-. simpl in *.
  assert (Hsub : subject cu' = subject cu).
  { transitivity (subject c6).
    - eapply subject_advance; [exact Hr6 | reflexivity].
    - eapply subject_advance; eauto. }
  assert (Hdrop : drop (pos cu') (subject cu) = r').
  { rewrite <- Hsub. unfold subject, pos. rewrite <- (length_rev (seen cu')).
    rewrite drop_app_length. reflexivity. }
  rewrite Hdrop.
  assert (Hnot : forall w2 r2, r' = w2 ++ r2 -> w2 <> [] -> Forall space w2 ->
            at_eol (Cursor (rev (sp ++ w2) ++ seen c6) r2) = false).
  { intros w2 r2 Hw Hn Hsp.
    assert (Hok : Forall (fun d => cls_ok false [CSpace] d = true) w2).
    { eapply Forall_impl; [exact Hsp|]. intros d Hd. unfold cls_ok. simpl.
      rewrite Hd. reflexivity. }
    specialize (Hmax w2 r2 Hw Hn Hok).
    destruct (at_eol (Cursor (rev (sp ++ w2) ++ seen c6) r2)) eqn:E; [|reflexivity].
    exfalso. destruct adv; [|discriminate]. simpl andb in Hmax.
    destruct (Nat.eqb_spec (pos (Cursor (rev (sp ++ w2) ++ seen c6) r2)) (pos cu)) as [He|He];
      [|discriminate].
    unfold pos in He. simpl in He. rewrite Hs in He.
    rewrite !length_app, !length_rev, length_app in He.
    destruct w; [congruence|]. simpl in He. lia. }
  clear Hmax. unfold at_eol in Heol. simpl in Heol.
  destruct r' as [|c r']; [left; reflexivity|]. right.
  apply bool_decide_eq_true in Heol. subst c.
  destruct (space_run r') as (bl & r & -> & Hbl & Hrest).
  assert (Hnl : space nl) by reflexivity.
  assert (Hr0 : at_eol (Cursor (rev (sp ++ nl :: bl) ++ seen c6) r) = false).
  { apply Hnot; [reflexivity | discriminate | constructor; assumption]. }
  unfold at_eol in Hr0. simpl in Hr0.
  destruct Hrest as [-> | (c & t & -> & Hc)]; [discriminate|].
  exists bl, c, t. split; [reflexivity|]. split; [|exact Hc].
  apply Forall_forall. intros b Hb. split.
  - rewrite Forall_forall in Hbl. apply Hbl, Hb.
  - intros ->. apply list_elem_of_split in Hb as (p & q & ->).
    assert (Hp : Forall space p).
    { rewrite Forall_app in Hbl. apply Hbl. }
    specialize (Hnot (nl :: p) (nl :: q ++ c :: t)).
    rewrite <- !app_assoc in Hnot. simpl in Hnot.
    specialize (Hnot eq_refl ltac:(discriminate) ltac:(constructor; assumption)).
    unfold at_eol in Hnot. simpl in Hnot. discriminate.
Qed.

(** The same, for the matches of a scan. *)
Lemma composite_after hosts paths text m :
  m ∈ finditer (composite hosts paths) text ->
  drop (m_end m) text = [] \/
  exists blanks c tail,
    drop (m_end m) text = nl :: blanks ++ c :: tail /\
    Forall (fun b => space b /\ b <> nl) blanks /\ ~ space c.
Proof.
  intros Hm. destruct (finditer_match_at _ _ _ Hm) as (cu & adv & <- & Hat).
  eapply composite_extent, Hat.
Qed.

End CompositeFacts.

(** ** Facts about the script *)

Module ScriptFacts.
Import ReFacts Composite.

Lemma logged_refl t w : logged t [] [] w w.
Proof. unfold logged. rewrite !app_nil_r. auto 10. Qed.

Lemma logged_trans t e1 e2 x1 x2 w1 w2 w3 :
  logged t e1 x1 w1 w2 -> logged t e2 x2 w2 w3 -> logged t (e1 ++ e2) (x1 ++ x2) w1 w3.
Proof.
  unfold logged. intros (F1 & N1 & O1 & P1 & E1 & T1) (F2 & N2 & O2 & P2 & E2 & T2).
  rewrite F2, N2, O2, P2, E2, T2, E1, T1, !app_assoc. auto 10.
Qed.

Lemma unmapped_cons subst m ms :
  unmapped subst (m :: ms) =
  if mapped subst m then unmapped subst ms else m :: unmapped subst ms.
Proof.
  unfold unmapped. rewrite filter_cons. destruct (mapped subst m); simpl.
  - destruct (decide (true = false)); [discriminate | reflexivity].
  - destruct (decide (false = false)); [reflexivity | congruence].
Qed.

Lemma mapped_Some subst m p : new_path subst m = Some p -> mapped subst m = true.
Proof. intros H. unfold mapped. rewrite H. apply bool_decide_eq_true. eauto. Qed.

Lemma mapped_None subst m : new_path subst m = None -> mapped subst m = false.
Proof.
  intros H. unfold mapped. rewrite H. apply bool_decide_eq_false. intros [? ?]. discriminate.
Qed.

(** The callback on a match without a substitution: one warning, the whole
    subject written to the temporary file and returned. *)
Lemma replace_match_unmapped subst host proto username dryRun t m w :
  new_path subst m = None ->
  exists w', replace_match subst host proto username dryRun t m w = (Ok (m_string m), w') /\
    logged t [warning_replaced (group m "project") ++ [nl]]
      (if dryRun then [] else m_string m) w w'.
Proof.
  intros H. unfold replace_match. unfold new_path in H. rewrite H.
  destruct dryRun; simpl; eexists; (split; [reflexivity|]); unfold logged; simpl.
  - rewrite app_nil_r. auto 10.
  - rewrite lookup_insert_eq. simpl. auto 10.
Qed.

(** The callback on a match with a substitution: no effect. *)
Lemma replace_match_mapped subst host proto username dryRun t m w path key :
  new_path subst m = Some path -> group m "key" = Some key ->
  replace_match subst host proto username dryRun t m w =
  (Ok (key ++ format_uri proto (user_part username) host path), w).
Proof.
  intros H Hk. unfold replace_match. unfold new_path in H. rewrite H, Hk. reflexivity.
Qed.

Lemma sub_pieces_replace subst host proto username dryRun t : forall ps w,
  (forall m, Hit m ∈ ps -> is_Some (group m "key")) ->
  exists w',
    sub_pieces (replace_match subst host proto username dryRun t) ps w =
      (Ok (concat (map (new_text subst host proto username) ps)), w') /\
    logged t (warnings_replaced subst (omap hit ps))
      (if dryRun then [] else concat (map m_string (unmapped subst (omap hit ps)))) w w'.
Proof.
  induction ps as [|p ps IH]; intros w Hkey.
  - exists w. split; [reflexivity|]. destruct dryRun; apply logged_refl.
  - assert (Hkey' : forall m, Hit m ∈ ps -> is_Some (group m "key")).
    { intros m Hm. apply Hkey. right. exact Hm. }
    destruct p as [c|m].
    + destruct (IH w Hkey') as (w' & Hrun & Hlog).
      exists w'. simpl. unfold bind. rewrite Hrun. split; [reflexivity | exact Hlog].
    + destruct (Hkey m ltac:(left)) as [key Hk].
      unfold warnings_replaced. simpl omap. rewrite unmapped_cons.
      destruct (new_path subst m) as [path|] eqn:Hp.
      * rewrite (mapped_Some _ _ _ Hp).
        destruct (IH w Hkey') as (w' & Hrun & Hlog).
        exists w'. simpl. unfold bind.
        rewrite (replace_match_mapped _ _ _ _ _ _ _ _ _ _ Hp Hk), Hrun.
        unfold replacement. rewrite Hp, Hk. simpl. split; [reflexivity | exact Hlog].
      * rewrite (mapped_None _ _ Hp).
        destruct (replace_match_unmapped subst host proto username dryRun t m w Hp)
          as (w1 & Hrun1 & Hlog1).
        destruct (IH w1 Hkey') as (w' & Hrun & Hlog).
        exists w'. simpl. unfold bind. rewrite Hrun1, Hrun.
        unfold replacement. rewrite Hp. split; [reflexivity|].
        pose proof (logged_trans _ _ _ _ _ _ _ _ Hlog1 Hlog) as HL.
        destruct dryRun; exact HL.
Qed.

Lemma bind_ok {A B} (m : M A) (f : A -> M B) w a w' :
  m w = (Ok a, w') -> bind m f w = f a w'.
Proof. intros H. unfold bind. rewrite H. reflexivity. Qed.

Lemma bind_raise {A B} (m : M A) (f : A -> M B) w e w' :
  m w = (Raise e, w') -> bind m f w = (Raise e, w').
Proof. intros H. unfold bind. rewrite H. reflexivity. Qed.

Lemma read_file_ok path raw w :
  files w !! path = Some raw ->
  read_file path w =
  (Ok (universal_newlines raw), World (files w) (temps w) (next_temp w) (stdout w) (stderr w) (opened w ++ [path])).
Proof. intros H. unfold read_file. rewrite H. reflexivity. Qed.

Lemma read_file_missing path w :
  files w !! path = None ->
  read_file path w = (Raise (IOError path "No such file or directory"), w).
Proof. intros H. unfold read_file. rewrite H. reflexivity. Qed.

Lemma try_except_ok {A} (m : M A) handled handler w a w' :
  m w = (Ok a, w') -> try_except m handled handler w = (Ok a, w').
Proof. intros H. unfold try_except. rewrite H. reflexivity. Qed.

Lemma try_except_caught {A} (m : M A) handled handler w e w' :
  m w = (Raise e, w') -> handled e = true ->
  try_except m handled handler w = handler e w'.
Proof. intros H He. unfold try_except. rewrite H, He. reflexivity. Qed.

Lemma try_except_passed {A} (m : M A) handled handler w e w' :
  m w = (Raise e, w') -> handled e = false ->
  try_except m handled handler w = (Raise e, w').
Proof. intros H He. unfold try_except. rewrite H, He. reflexivity. Qed.

(** [replace] on a file that exists, when every match has its key. *)
Lemma replace_run regex file subst host proto username dryRun raw w :
  files w !! file = Some raw ->
  (forall m, m ∈ finditer regex (universal_newlines raw) -> is_Some (group m "key")) ->
  exists w',
    replace regex file subst host proto username dryRun w = (Ok tt, w') /\
    stderr w' = stderr w ++ warnings_replaced subst (finditer regex (universal_newlines raw)) /\
    opened w' = opened w ++ [file] /\
    (if dryRun then
       files w' = files w /\
       stdout w' = stdout w ++
         [lit "In " ++ file ++ lit " the following would be the new contents:" ++ [nl];
          rewrite regex subst host proto username (universal_newlines raw) ++ [nl]]
     else
       files w' = <[file := concat (map m_string (unmapped subst (finditer regex (universal_newlines raw)))) ++
                            rewrite regex subst host proto username (universal_newlines raw)]> (files w) /\
       stdout w' = stdout w).
Proof.
  intros Hfile Hkey.
  assert (Hkey' : forall m, Hit m ∈ scan regex (universal_newlines raw) -> is_Some (group m "key")).
  { intros m Hm. apply Hkey, finditer_hit, Hm. }
  destruct dryRun;
    unfold replace, re_sub, bind, try_except, mkstemp, read_file, print, write_out, ret,
      temp_write, temp_move;
    cbn [files temps next_temp stdout stderr opened]; rewrite Hfile;
    match goal with |- context [sub_pieces (replace_match _ _ _ _ ?d ?t) ?ps ?w0] =>
      destruct (sub_pieces_replace subst host proto username d t ps w0 Hkey')
        as (w1 & Hrun & (F & N & O & P & E & T))
    end;
    rewrite Hrun; cbn in F, N, O, P, E, T; cbn;
    eexists; (split; [reflexivity|]); cbn; rewrite ?F, ?O, ?P, ?E; unfold rewrite.
  - rewrite <- !app_assoc. auto.
  - rewrite lookup_insert_eq in T. simpl in T.
    rewrite lookup_insert_eq. simpl. rewrite T. auto.
Qed.

(** [replace] on a file that cannot be opened: a report, and nothing else. *)
Lemma replace_missing regex file subst host proto username dryRun w :
  files w !! file = None ->
  exists w',
    replace regex file subst host proto username dryRun w = (Ok tt, w') /\
    files w' = files w /\ opened w' = opened w /\
    stderr w' = stderr w ++ [io_failure (IOError file "No such file or directory") ++ [nl]].
Proof.
  intros Hfile.
  destruct dryRun;
    unfold replace, bind, try_except, mkstemp, read_file, print, write_out, ret, eprint,
      temp_remove;
    cbn [files temps next_temp stdout stderr opened]; rewrite Hfile; cbn;
    eexists; (split; [reflexivity|]); cbn; auto.
Qed.

(** A loop whose body only writes to the two streams. *)
Lemma for_each_run {A} (body : A -> M unit) (out err : A -> list str) :
  (forall x w, exists w', body x w = (Ok tt, w') /\
     files w' = files w /\ opened w' = opened w /\
     stdout w' = stdout w ++ out x /\ stderr w' = stderr w ++ err x) ->
  forall xs w, exists w', for_each xs body w = (Ok tt, w') /\
     files w' = files w /\ opened w' = opened w /\
     stdout w' = stdout w ++ concat (map out xs) /\
     stderr w' = stderr w ++ concat (map err xs).
Proof.
  intros Hbody. induction xs as [|x xs IH]; intros w.
  - exists w. simpl. rewrite !app_nil_r. auto.
  - destruct (Hbody x w) as (w1 & Hrun1 & F1 & P1 & O1 & E1).
    destruct (IH w1) as (w' & Hrun & F & P & O & E).
    exists w'. simpl. unfold bind. rewrite Hrun1, Hrun.
    rewrite F, P, O, E, F1, P1, O1, E1, <- !app_assoc. auto.
Qed.

Lemma warnings_listed_concat (subst : gmap str str) (ms : list Match) :
  concat (map (fun m => if mapped subst m then []
                        else [warning_listed (group m "project") ++ [nl]]) ms)
  = warnings_listed subst ms.
Proof.
  unfold warnings_listed. induction ms as [|m ms IH]; [reflexivity|].
  rewrite unmapped_cons, map_cons, concat_cons, IH. destruct (mapped subst m); reflexivity.
Qed.

(** [listProjects] on a file that exists. *)
Lemma listProjects_run regex file subst categorise showNew raw w :
  files w !! file = Some raw ->
  exists w',
    listProjects regex file subst categorise showNew w = (Ok tt, w') /\
    files w' = files w /\ opened w' = opened w ++ [file] /\
    stdout w' = stdout w ++ (if categorise then [file ++ lit ":" ++ [nl]] else []) ++
                concat (map (listed subst categorise showNew) (finditer regex (universal_newlines raw))) /\
    stderr w' = stderr w ++ warnings_listed subst (finditer regex (universal_newlines raw)).
Proof.
  intros Hfile. unfold listProjects.
  match goal with |- context [for_each _ ?body] =>
    pose proof (for_each_run body (listed subst categorise showNew)
      (fun m => if mapped subst m then [] else [warning_listed (group m "project") ++ [nl]]))
      as Hloop
  end.
  cbv zeta in Hloop.
  assert (Hbody : forall m w0, exists w',
    match group m "project" ≫= (subst !!.) with
    | Some newName =>
        (if categorise then write_out [tab] else ret ());;;
        match showNew with
        | Some delimiter => print (fmt (group m "project") ++ delimiter ++ newName)
        | None => print (fmt (group m "project"))
        end
    | None => eprint (warning_listed (group m "project"))
    end w0 = (Ok tt, w') /\
    files w' = files w0 /\ opened w' = opened w0 /\
    stdout w' = stdout w0 ++ listed subst categorise showNew m /\
    stderr w' = stderr w0 ++
      (if mapped subst m then [] else [warning_listed (group m "project") ++ [nl]])).
  { intros m w0. unfold listed, mapped, new_path.
    destruct (group m "project" ≫= (subst !!.)) as [path|] eqn:Hp.
    - rewrite bool_decide_eq_true_2 by eauto.
      destruct categorise, showNew as [d|]; cbn; eexists; (split; [reflexivity|]);
        cbn; rewrite ?app_nil_r, <- ?app_assoc; auto.
    - rewrite bool_decide_eq_false_2 by (intros [? ?]; discriminate).
      cbn. eexists. split; [reflexivity|]. cbn. rewrite app_nil_r. auto. }
  specialize (Hloop Hbody). clear Hbody.
  destruct categorise.
  - erewrite bind_ok by reflexivity.
    erewrite bind_ok by (apply read_file_ok; exact Hfile).
    match goal with |- context [for_each ?l ?f ?w0] =>
      destruct (Hloop l w0) as (w' & Hrun & F & P & O & E) end.
    exists w'. split; [exact Hrun|]. cbn in F, P, O, E. rewrite F, P, O, E.
    rewrite warnings_listed_concat, <- ?app_assoc. auto.
  - erewrite bind_ok by reflexivity.
    erewrite bind_ok by (apply read_file_ok; exact Hfile).
    match goal with |- context [for_each ?l ?f ?w0] =>
      destruct (Hloop l w0) as (w' & Hrun & F & P & O & E) end.
    exists w'. split; [exact Hrun|]. cbn in F, P, O, E. rewrite F, P, O, E.
    rewrite warnings_listed_concat, <- ?app_assoc. auto.
Qed.

Lemma is_jstr_true key v : is_jstr key v = true -> v = JStr key.
Proof.
  destruct v; simpl; try discriminate. intros H. apply bool_decide_eq_true in H.
  subst. reflexivity.
Qed.

Lemma invalid_protocol_check (p : json) :
  (forall v, v ∈ VALID_PROTOCOLS -> p <> JStr v) ->
  negb (existsb (fun v => is_jstr v p) VALID_PROTOCOLS) = true.
Proof.
  intros H. apply negb_true_iff. destruct (existsb _ _) eqn:E; [|reflexivity].
  apply existsb_exists in E as (v & Hin & Hv). apply is_jstr_true in Hv.
  exfalso. apply (H v); [|exact Hv]. apply list_elem_of_In. exact Hin.
Qed.

Lemma validate_invalid_protocol (json : json) o r p w :
  json = JObj o -> o !! lit "replace" = Some (JObj r) ->
  r !! lit "protocol" = Some p ->
  (forall v, v ∈ VALID_PROTOCOLS -> p <> JStr v) ->
  validateJSONConfig json w =
  (Raise (ValueError invalid_protocol [p; JStr (join (lit ", ") VALID_PROTOCOLS)]), w).
Proof.
  intros -> Ho Hr Hp. unfold validateJSONConfig.
  unfold bind, getitem, contains, ret, raise. rewrite Ho, Hr.
  rewrite bool_decide_eq_true_2 by eauto.
  rewrite (invalid_protocol_check p Hp). reflexivity.
Qed.

Lemma validate_no_protocol (json : json) o r w :
  json = JObj o -> o !! lit "replace" = Some (JObj r) ->
  r !! lit "protocol" = None ->
  validateJSONConfig json w = try_compile json w.
Proof.
  intros -> Ho Hr. unfold validateJSONConfig, try_compile.
  unfold bind at 1. unfold getitem at 1. rewrite Ho. unfold ret at 1.
  unfold bind at 1. unfold contains. rewrite Hr.
  rewrite bool_decide_eq_false_2 by (intros [? ?]; discriminate).
  reflexivity.
Qed.

Lemma validate_valid_protocol (json : json) o r v w :
  json = JObj o -> o !! lit "replace" = Some (JObj r) ->
  r !! lit "protocol" = Some (JStr v) -> v ∈ VALID_PROTOCOLS ->
  validateJSONConfig json w = try_compile json w.
Proof.
  intros -> Ho Hr Hv. unfold validateJSONConfig, try_compile.
  unfold bind at 1. unfold getitem at 1. rewrite Ho. unfold ret at 1.
  unfold bind at 1. unfold contains. rewrite Hr.
  rewrite bool_decide_eq_true_2 by eauto. unfold ret at 1.
  unfold bind at 1. unfold bind at 1. unfold getitem at 1. rewrite Ho. unfold ret at 1.
  unfold bind at 1. unfold getitem at 1. rewrite Hr. unfold ret at 1. unfold ret at 1.
  assert (E : existsb (fun v0 => is_jstr v0 (JStr v)) VALID_PROTOCOLS = true).
  { apply existsb_exists. exists v. split; [apply list_elem_of_In; exact Hv|].
    simpl. apply bool_decide_eq_true. reflexivity. }
  rewrite E. reflexivity.
Qed.

(** The trial compilations never raise on string fragments the model
    covers: an invalid fragment is reported, and only the first one. *)
Lemma try_compile_run (json : json) o s h p w :
  json = JObj o -> o !! lit "search" = Some (JObj s) ->
  s !! lit "hostname" = Some (JStr h) -> s !! lit "path" = Some (JStr p) ->
  try_compile json w =
  match compile false h with
  | Invalid msg => eprint (invalid_regex (ReError h msg)) w
  | Unsupported => (Raise NotModelled, w)
  | Done _ =>
      match compile false p with
      | Invalid msg => eprint (invalid_regex (ReError p msg)) w
      | Unsupported => (Raise NotModelled, w)
      | Done _ => (Ok tt, w)
      end
  end.
Proof.
  intros -> Ho Hh Hp. unfold try_compile, try_except, bind, getitem, re_compile, ret, raise.
  rewrite Ho, Hh, Hp.
  destruct (compile false h); [|reflexivity|reflexivity].
  destruct (compile false p); reflexivity.
Qed.

Lemma getitem_raises v key w e w' :
  getitem v key w = (Raise e, w') -> is_ValueError e = false.
Proof.
  unfold getitem, ret, raise. destruct v; try (intros [= <- _]; reflexivity).
  destruct (o !! key); intros [= <- _]; reflexivity.
Qed.

Lemma re_compile_raises verbose v w e w' :
  re_compile verbose v w = (Raise e, w') -> is_ValueError e = false.
Proof.
  unfold re_compile, ret, raise. destruct v; try (intros [= <- _]; reflexivity).
  destruct (compile verbose s); intros [= <- _]; reflexivity.
Qed.

Lemma bind_raises {A B} (m : M A) (f : A -> M B) w e w' :
  bind m f w = (Raise e, w') ->
  m w = (Raise e, w') \/ exists a w1, m w = (Ok a, w1) /\ f a w1 = (Raise e, w').
Proof.
  unfold bind. destruct (m w) as [[a|e0] w1]; intros H; [right; eauto | left].
  injection H as <- <-. reflexivity.
Qed.

(** The trial compilations raise no [ValueError]. *)
Lemma try_compile_raises (json : json) w e w' :
  try_compile json w = (Raise e, w') -> is_ValueError e = false.
Proof.
  unfold try_compile, try_except.
  match goal with |- context [match ?m w with _ => _ end] => destruct (m w) as [[a|e0] w1] eqn:E end.
  - discriminate.
  - destruct (is_ReError e0) eqn:Ere.
    + unfold eprint. discriminate.
    + intros [= <- <-].
      repeat (apply bind_raises in E as [E | (? & ? & _ & E)];
              [first [apply getitem_raises in E | apply re_compile_raises in E]; exact E |]).
      discriminate.
Qed.

(** The run once validation has passed: the composite pattern is compiled,
    and the targets are processed only if it compiles. *)
Lemma main_after_validation fs a (json : json) o s h p w w1 :
  json = JObj o -> o !! lit "search" = Some (JObj s) ->
  s !! lit "hostname" = Some (JStr h) -> s !! lit "path" = Some (JStr p) ->
  validateJSONConfig json w = (Ok tt, w1) ->
  main fs a json w =
  match compile true (pattern_text h p) with
  | Done regex =>
      for_each (targets a) (fun target =>
        if isdir fs target then
          for_each (confFiles fs target (modules a) (modules_only a)) (process regex a json)
        else process regex a json target) w1
  | Invalid msg => (Raise (ReError (pattern_text h p) msg), w1)
  | Unsupported => (Raise NotModelled, w1)
  end.
Proof.
  intros -> Ho Hh Hp Hv. unfold main.
  erewrite bind_ok by exact Hv.
  unfold bind, getitem, as_str, re_compile, ret, raise. rewrite Ho, Hh, Hp.
  destruct (compile true (pattern_text h p)); reflexivity.
Qed.

Lemma main_validation_raises fs a (json : json) e w w1 :
  validateJSONConfig json w = (Raise e, w1) -> main fs a json w = (Raise e, w1).
Proof. intros H. unfold main. erewrite bind_raise by exact H. reflexivity. Qed.

Lemma unmapped_nil (subst : gmap str str) (ms : list Match) :
  (forall m, m ∈ ms -> is_Some (new_path subst m)) -> unmapped subst ms = [].
Proof.
  induction ms as [|m ms IH]; intros H; [reflexivity|].
  rewrite unmapped_cons. destruct (H m ltac:(left)) as [p Hp].
  rewrite (mapped_Some _ _ _ Hp). apply IH. intros m' Hm'. apply H. right. exact Hm'.
Qed.

Lemma warnings_concat (warning : option str -> str) (subst : gmap str str) (ms : list Match) :
  concat (map (fun m => match new_path subst m with
                        | Some _ => []
                        | None => [warning (group m "project") ++ [nl]]
                        end) ms)
  = map (fun p => warning p ++ [nl]) (projects (unmapped subst ms)).
Proof.
  induction ms as [|m ms IH]; [reflexivity|].
  rewrite unmapped_cons, map_cons, concat_cons, IH.
  destruct (new_path subst m) as [p|] eqn:Hp.
  - rewrite (mapped_Some _ _ _ Hp). reflexivity.
  - rewrite (mapped_None _ _ Hp). reflexivity.
Qed.

(** Reading in text mode leaves no carriage return. *)
Lemma universal_newlines_no_cr (s : str) : cr ∉ universal_newlines s.
Proof.
  assert (H : forall n s, length s <= n -> cr ∉ universal_newlines s);
    [|exact (H (length s) s (le_n _))].
  clear s. induction n as [|n IH]; intros [|c s] Hn; simpl in *;
    try (intros H; inversion H; fail); try lia.
  destruct (bool_decide (c = cr)) eqn:Ec.
  - intros H. apply elem_of_cons in H as [H|H]; [discriminate|]. revert H.
    destruct s as [|d s]; [intros H; inversion H|].
    destruct (bool_decide (d = nl)); apply IH; simpl in *; lia.
  - apply bool_decide_eq_false in Ec. intros H.
    apply elem_of_cons in H as [H|H]; [congruence|]. revert H. apply IH. lia.
Qed.

(** A text without carriage return is read as it is. *)
Lemma universal_newlines_id (s : str) : cr ∉ s -> universal_newlines s = s.
Proof.
  induction s as [|c s IH]; [reflexivity|]. intros H. simpl.
  rewrite bool_decide_eq_false_2 by (intros ->; apply H; left).
  rewrite IH; [reflexivity|]. intros Hin. apply H. right. exact Hin.
Qed.

Lemma universal_newlines_fixed (s : str) : universal_newlines s = s <-> cr ∉ s.
Proof.
  split; [|apply universal_newlines_id].
  intros <-. apply universal_newlines_no_cr.
Qed.

Section Shrink.
Context {A : Type} (f g : A -> str).

(** Pieces each replaced by a beginning of itself. *)
Lemma shrink_length (l : list A) :
  (forall a, a ∈ l -> exists r, g a = f a ++ r) ->
  length (concat (map f l)) <= length (concat (map g l)).
Proof.
  induction l as [|a l IH]; intros H; simpl; [lia|].
  destruct (H a ltac:(left)) as [r Hr]. rewrite !length_app, Hr, length_app.
  specialize (IH (fun b Hb => H b ltac:(right; exact Hb))). lia.
Qed.

Lemma shrink_elem (l : list A) (c : ascii) :
  (forall a, a ∈ l -> exists r, g a = f a ++ r) ->
  c ∈ concat (map f l) -> c ∈ concat (map g l).
Proof.
  induction l as [|a l IH]; intros H; simpl; [auto|].
  destruct (H a ltac:(left)) as [r Hr]. rewrite Hr, !elem_of_app.
  specialize (IH (fun b Hb => H b ltac:(right; exact Hb))). tauto.
Qed.

(** The whole is unchanged only if every piece is. *)
Lemma shrink_same (l : list A) :
  (forall a, a ∈ l -> exists r, g a = f a ++ r) ->
  concat (map f l) = concat (map g l) -> forall a, a ∈ l -> f a = g a.
Proof.
  induction l as [|a l IH]; intros H E b Hb; [inversion Hb|].
  simpl in E. destruct (H a ltac:(left)) as [r Hr].
  pose proof (shrink_length l (fun b Hb => H b ltac:(right; exact Hb))) as Hlen.
  rewrite Hr, <- app_assoc in E. apply app_inv_head in E.
  assert (r = []) as ->.
  { apply (f_equal length) in E. rewrite length_app in E.
    destruct r; [reflexivity | simpl in E; lia]. }
  simpl in E. rewrite app_nil_r in Hr.
  apply elem_of_cons in Hb as [-> | Hb]; [congruence|].
  apply IH; auto. intros c Hc. apply H. right. exact Hc.
Qed.

End Shrink.

Lemma with_path_cons subst m ms :
  with_path subst (m :: ms) =
  match new_path subst m with
  | Some path => (m, path) :: with_path subst ms
  | None => with_path subst ms
  end.
Proof. unfold with_path. simpl. destruct (new_path subst m); reflexivity. Qed.

Lemma listed_entries subst categorise showNew ms :
  concat (map (listed subst categorise showNew) ms) =
  concat (map (entry categorise showNew) (with_path subst ms)).
Proof.
  induction ms as [|m ms IH]; [reflexivity|].
  rewrite with_path_cons. simpl. unfold listed at 1.
  destruct (new_path subst m) as [path|]; simpl; rewrite IH; reflexivity.
Qed.

(** Every match is either listed with its new path or warned of. *)
Lemma with_path_or_unmapped subst ms :
  length (with_path subst ms) + length (unmapped subst ms) = length ms.
Proof.
  induction ms as [|m ms IH]; [reflexivity|].
  rewrite with_path_cons, unmapped_cons.
  destruct (new_path subst m) as [p|] eqn:Hp.
  - rewrite (mapped_Some _ _ _ Hp). simpl. lia.
  - rewrite (mapped_None _ _ Hp). simpl. lia.
Qed.

Lemma with_path_matches subst ms :
  map fst (with_path subst ms) = filter (fun m => mapped subst m = true) ms /\
  Forall (fun mp => new_path subst (fst mp) = Some (snd mp)) (with_path subst ms).
Proof.
  induction ms as [|m ms [IH1 IH2]]; [split; [reflexivity | constructor]|].
  rewrite with_path_cons. destruct (new_path subst m) as [p|] eqn:Hp.
  - rewrite filter_cons_True by (apply (mapped_Some _ _ _ Hp)).
    simpl. rewrite IH1. split; [reflexivity|]. constructor; [exact Hp | exact IH2].
  - rewrite filter_cons_False by (rewrite (mapped_None _ _ Hp); discriminate).
    split; assumption.
Qed.

End ScriptFacts.

(** ** The properties of the specification *)

Import ReFacts Composite CompositeFacts ScriptFacts.

(** C1, on a file with an unmapped project: one warning names the project,
    but the matched span is not left as it was.  The callback returns
    [match.string], the whole text, where the matched text was meant, and
    writes it to the temporary file as well: the new file is the old text
    followed by the old text with its [url] line replaced by the old text. *)
Theorem C1_unmapped_span_not_preserved :
  fst (replace Example.regex Example.target Example.substitutions (lit "newgit.example.com")
         (lit "ssh-colon") (Some (lit "git")) false (Example.world_of Example.unmapped_text)) = Ok tt /\
  stderr (snd (replace Example.regex Example.target Example.substitutions
                 (lit "newgit.example.com") (lit "ssh-colon") (Some (lit "git")) false
                 (Example.world_of Example.unmapped_text))) =
    [warning_replaced (Some (lit "unmapped")) ++ [nl]] /\
  files (snd (replace Example.regex Example.target Example.substitutions
                (lit "newgit.example.com") (lit "ssh-colon") (Some (lit "git")) false
                (Example.world_of Example.unmapped_text))) !! Example.target =
    Some (Example.unmapped_text ++
          unlines ["[core]"]%string ++ Example.unmapped_text ++ [nl] ++ unlines ["bare = false"]%string) /\
  stdout (snd (replace Example.regex Example.target Example.substitutions
                 (lit "newgit.example.com") (lit "ssh-colon") (Some (lit "git")) true
                 (Example.world_of Example.unmapped_text))) =
    [lit "In project/.git/config the following would be the new contents:" ++ [nl];
     (unlines ["[core]"]%string ++ Example.unmapped_text ++ [nl] ++ unlines ["bare = false"]%string)
     ++ [nl]].
Proof. vm_compute. repeat split; reflexivity. Qed.

(** C2: for every match of the composite pattern whose project has the
    substitution [newPath], the callback of [regex.sub] returns, without any
    other effect, the captured key text followed by the new URI:
    [user host : newPath] for [ssh-colon], [host / newPath] for [relative]
    and [proto :// user host / newPath] for any other protocol, where
    [user] is the user name followed by [@], or nothing without a user name.
    On the line of the documentation the whole run turns the file into
    [url = git@newgit.example.com:new/path/project1]. *)
Theorem C2_replacement_is_key_and_uri :
  (forall hosts paths text (subst : gmap str str) host proto username dryRun temp
          m project newPath w,
     m ∈ finditer (composite hosts paths) text ->
     group m "project" = Some project -> subst !! project = Some newPath ->
     exists key out,
       group m "key" = Some key /\
       replace_match subst host proto username dryRun temp m w = (Ok out, w) /\
       let user := match username with Some u => u ++ lit "@" | None => [] end in
       (proto = lit "ssh-colon" -> out = key ++ user ++ host ++ lit ":" ++ newPath) /\
       (proto = lit "relative" -> out = key ++ host ++ lit "/" ++ newPath) /\
       (proto <> lit "ssh-colon" -> proto <> lit "relative" ->
        out = key ++ proto ++ lit "://" ++ user ++ host ++ lit "/" ++ newPath)) /\
  compile true (pattern_text Example.hosts_text Example.paths_text) = Done Example.regex /\
  fst (main Example.no_dirs Example.args Example.conf (Example.world_of Example.url_line)) = Ok tt /\
  files (snd (main Example.no_dirs Example.args Example.conf (Example.world_of Example.url_line)))
    !! Example.target = Some (lit "url = git@newgit.example.com:new/path/project1").
Proof.
  split; [|vm_compute; repeat split; reflexivity].
  intros hosts paths text subst host proto username dryRun temp m project newPath w Hm Hp Hs.
  destruct (composite_groups _ _ _ _ Hm) as [[key Hk] _].
  assert (Hn : new_path subst m = Some newPath).
  { unfold new_path. rewrite Hp. exact Hs. }
  exists key, (key ++ format_uri proto (user_part username) host newPath).
  split; [exact Hk|]. split; [apply replace_match_mapped; assumption|].
  unfold format_uri, user_part. cbv zeta. repeat split.
  - intros ->. reflexivity.
  - intros ->. reflexivity.
  - intros H1 H2. rewrite !bool_decide_eq_false_2 by assumption. reflexivity.
Qed.

Lemma C2_witness :
  exists key out,
    group Example.url_match "key" = Some key /\
    replace_match Example.substitutions (lit "newgit.example.com") (lit "ssh-colon")
      (Some (lit "git")) false 0 Example.url_match Example.start = (Ok out, Example.start) /\
    (lit "ssh-colon" = lit "ssh-colon" ->
     out = key ++ (lit "git" ++ lit "@") ++ lit "newgit.example.com" ++ lit ":" ++
           lit "new/path/project1") /\
    (lit "ssh-colon" = lit "relative" ->
     out = key ++ lit "newgit.example.com" ++ lit "/" ++ lit "new/path/project1") /\
    (lit "ssh-colon" <> lit "ssh-colon" -> lit "ssh-colon" <> lit "relative" ->
     out = key ++ lit "ssh-colon" ++ lit "://" ++ (lit "git" ++ lit "@") ++
           lit "newgit.example.com" ++ lit "/" ++ lit "new/path/project1").
Proof.
  apply (proj1 C2_replacement_is_key_and_uri Example.hosts Example.paths Example.url_line
           Example.substitutions (lit "newgit.example.com") (lit "ssh-colon")
           (Some (lit "git")) false 0 Example.url_match (lit "oldproject1")
           (lit "new/path/project1") Example.start).
  - replace (finditer (composite Example.hosts Example.paths) Example.url_line)
      with [Example.url_match] by (vm_compute; reflexivity).
    left.
  - vm_compute. reflexivity.
  - vm_compute. reflexivity.
Defined.

(** C3, as stated, fails: the white space after a matched line belongs to the
    match, line ends included, so a line of white space that follows a
    matched line is not in the output, though it does not match the pattern
    itself.  Nor are the line ends kept: a file whose lines end with a
    carriage return and a newline is written back without the carriage
    returns, even when nothing in it matches. *)
Lemma C3_counterexample :
  (finditer Example.regex (universal_newlines Example.crlf_text) = [] /\
   files (snd (replace Example.regex Example.target Example.substitutions
                 (lit "newgit.example.com") (lit "ssh-colon") (Some (lit "git")) false
                 (Example.world_of Example.crlf_text))) !! Example.target =
     Some (unlines ["[core]"; "bare = false"]%string) /\
   unlines ["[core]"; "bare = false"]%string <> Example.crlf_text) /\
  lit "   " ∈ lines Example.blank_text /\
  search Example.regex (lit "   ") = None /\
  fst (replace Example.regex Example.target Example.substitutions (lit "newgit.example.com")
         (lit "ssh-colon") (Some (lit "git")) false (Example.world_of Example.blank_text)) = Ok tt /\
  files (snd (replace Example.regex Example.target Example.substitutions
                (lit "newgit.example.com") (lit "ssh-colon") (Some (lit "git")) false
                (Example.world_of Example.blank_text))) !! Example.target =
    Some (unlines ["url = git@newgit.example.com:new/path/project1"; "[core]"]%string) /\
  lit "   " ∉ lines (unlines ["url = git@newgit.example.com:new/path/project1"; "[core]"]%string).
Proof.
  split; [vm_compute; repeat split; try reflexivity; discriminate|].
  split; [vm_compute; right; left|].
  split; [vm_compute; reflexivity|].
  split; [vm_compute; reflexivity|].
  split; [vm_compute; reflexivity|].
  vm_compute. intros H.
  repeat (apply elem_of_cons in H as [H|H]; [discriminate|]).
  inversion H.
Qed.

(** C3, amended.  The text rewritten is the file as read in text mode,
    [universal_newlines raw]: every [\r\n] and [\r] of the file has become
    [\n], and a file without carriage return is read as it is.  When every
    matched project has a substitution, that text is the concatenation of
    the pieces of the scan, the characters outside the matches and the
    matched spans, and the output is the concatenation of the same pieces
    with every character outside the matches copied as it is and every
    matched span replaced by its key text and new URI; no warning is
    written, and a text without matches comes out as it was read.  A matched
    span is not confined to its line: it ends with white space, and it ends
    at the end of the text or before a newline after which, behind blanks
    that are no newlines, stands a character that is no white space; so the
    white space after the URL, line ends and blank lines included, is inside
    the span up to the last line end before the next text that is not
    blank. *)
Theorem C3_text_outside_matches_copied (hosts paths : pattern) (file : str)
    (subst : gmap str str) (host proto : str) (username : option str) (dryRun : bool)
    (raw : str) (w : world) :
  files w !! file = Some raw ->
  (forall m, m ∈ finditer (composite hosts paths) (universal_newlines raw) ->
     is_Some (new_path subst m)) ->
  exists w' out news,
    replace (composite hosts paths) file subst host proto username dryRun w = (Ok tt, w') /\
    (if dryRun then
       files w' = files w /\
       stdout w' = stdout w ++
         [lit "In " ++ file ++ lit " the following would be the new contents:" ++ [nl];
          out ++ [nl]]
     else files w' = <[file := out]> (files w)) /\
    stderr w' = stderr w /\
    (cr ∉ raw -> universal_newlines raw = raw) /\
    universal_newlines raw =
      concat (map piece_text (scan (composite hosts paths) (universal_newlines raw))) /\
    out = concat news /\
    Forall2 (fun p new =>
      match p with
      | Lit c => new = [c]
      | Hit m => exists key path,
          group m "key" = Some key /\ new_path subst m = Some path /\
          new = key ++ format_uri proto (user_part username) host path
      end) (scan (composite hosts paths) (universal_newlines raw)) news /\
    (finditer (composite hosts paths) (universal_newlines raw) = [] ->
     out = universal_newlines raw) /\
    Forall (fun m =>
      (exists body sp, group0 m = body ++ sp /\ body <> [] /\ Forall space sp) /\
      universal_newlines raw =
        take (m_start m) (universal_newlines raw) ++ group0 m ++
        drop (m_end m) (universal_newlines raw) /\
      (drop (m_end m) (universal_newlines raw) = [] \/
       exists blanks c tail,
         drop (m_end m) (universal_newlines raw) = nl :: blanks ++ c :: tail /\
         Forall (fun b => space b /\ b <> nl) blanks /\ ~ space c))
      (finditer (composite hosts paths) (universal_newlines raw)).
Proof.
  intros Hfile Hmapped.
  set (text := universal_newlines raw) in *.
  assert (Hkey : forall m, m ∈ finditer (composite hosts paths) text -> is_Some (group m "key")).
  { intros m Hm. apply (composite_groups _ _ _ _ Hm). }
  destruct (replace_run (composite hosts paths) file subst host proto username dryRun raw w
              Hfile Hkey) as (w' & Hrun & He & _ & Hout).
  fold text in He, Hout.
  unfold warnings_replaced in He. rewrite (unmapped_nil _ _ Hmapped) in He, Hout.
  simpl in He, Hout. rewrite app_nil_r in He.
  exists w', (rewrite (composite hosts paths) subst host proto username text),
    (map (new_text subst host proto username) (scan (composite hosts paths) text)).
  split; [exact Hrun|]. split; [destruct dryRun; [exact Hout | exact (proj1 Hout)]|].
  split; [exact He|].
  split; [apply universal_newlines_id|].
  split; [symmetry; apply scan_text|]. split; [reflexivity|].
  split; [|split].
  - apply Forall2_fmap_r, Forall_Forall2_diag, Forall_forall. intros [c|m] Hin.
    + reflexivity.
    + apply finditer_hit in Hin. destruct (Hkey m Hin) as [key Hk].
      destruct (Hmapped m Hin) as [path Hp].
      exists key, path. simpl. unfold replacement. rewrite Hp, Hk. auto.
  - intros Hnone. unfold rewrite. rewrite <- (scan_text (composite hosts paths) text) at 2.
    f_equal. apply map_ext_in. intros [c|m] Hin; [reflexivity|].
    apply list_elem_of_In, finditer_hit in Hin. rewrite Hnone in Hin. inversion Hin.
  - apply Forall_forall. intros m Hm. split; [|split].
    + pose proof (finditer_found _ _ _ Hm) as Hf. apply composite_found in Hf
        as (key & uri & sl & proj & sfx & sp & Hg & _ & _ & _ & _ & _ & _ & Hne & _ & _ & Hsp & _).
      exists (key ++ uri ++ sl ++ proj ++ sfx), sp.
      split; [rewrite Hg, <- !app_assoc; reflexivity|]. split; [|exact Hsp].
      intros E. apply (f_equal length) in E. rewrite !length_app in E.
      destruct proj; [congruence|]. simpl in E. lia.
    + apply finditer_found, found_span in Hm as (Ht & _). exact Ht.
    + apply (composite_after _ _ _ _ Hm).
Qed.

Lemma C3_witness :
  exists w' out news,
    replace (composite Example.hosts Example.paths) Example.target Example.substitutions
      (lit "newgit.example.com") (lit "ssh-colon") (Some (lit "git")) false
      (Example.world_of Example.blank_text) = (Ok tt, w') /\
    files w' = <[Example.target := out]> (files (Example.world_of Example.blank_text)) /\
    stderr w' = stderr (Example.world_of Example.blank_text) /\
    (cr ∉ Example.blank_text -> universal_newlines Example.blank_text = Example.blank_text) /\
    universal_newlines Example.blank_text =
      concat (map piece_text (scan (composite Example.hosts Example.paths)
                                (universal_newlines Example.blank_text))) /\
    out = concat news /\
    Forall2 (fun p new =>
      match p with
      | Lit c => new = [c]
      | Hit m => exists key path,
          group m "key" = Some key /\ new_path Example.substitutions m = Some path /\
          new = key ++ format_uri (lit "ssh-colon") (user_part (Some (lit "git")))
                         (lit "newgit.example.com") path
      end) (scan (composite Example.hosts Example.paths) (universal_newlines Example.blank_text))
      news /\
    (finditer (composite Example.hosts Example.paths) (universal_newlines Example.blank_text)
       = [] -> out = universal_newlines Example.blank_text) /\
    Forall (fun m =>
      (exists body sp, group0 m = body ++ sp /\ body <> [] /\ Forall space sp) /\
      universal_newlines Example.blank_text =
        take (m_start m) (universal_newlines Example.blank_text) ++ group0 m ++
        drop (m_end m) (universal_newlines Example.blank_text) /\
      (drop (m_end m) (universal_newlines Example.blank_text) = [] \/
       exists blanks c tail,
         drop (m_end m) (universal_newlines Example.blank_text) = nl :: blanks ++ c :: tail /\
         Forall (fun b => space b /\ b <> nl) blanks /\ ~ space c))
      (finditer (composite Example.hosts Example.paths) (universal_newlines Example.blank_text)).
Proof.
  apply (C3_text_outside_matches_copied Example.hosts Example.paths Example.target
           Example.substitutions (lit "newgit.example.com") (lit "ssh-colon")
           (Some (lit "git")) false Example.blank_text (Example.world_of Example.blank_text)).
  - vm_compute. reflexivity.
  - intros m Hm. vm_compute in Hm.
    apply elem_of_cons in Hm as [-> | Hm]; [vm_compute; eauto | inversion Hm].
Defined.

(** C4, as stated, fails: with the hostname fragment [(] the validation
    reports the fragment and returns, but the run is then aborted by the
    [re.error] of the composite pattern, which nothing catches. *)
Lemma C4_counterexample :
  let json := Example.config_with (lit "(") Example.paths_text (Some "ssh-colon"%string) in
  let w := Example.world_of Example.url_line in
  compile false (lit "(") = Invalid "missing ), unterminated subpattern" /\
  fst (validateJSONConfig json w) = Ok tt /\
  fst (main Example.no_dirs Example.args json w) =
    Raise (ReError (pattern_text (lit "(") Example.paths_text)
             "missing ), unterminated subpattern") /\
  opened (snd (main Example.no_dirs Example.args json w)) = [] /\
  files (snd (main Example.no_dirs Example.args json w)) = files w.
Proof. vm_compute. repeat split; reflexivity. Qed.

(** C4, amended: when the hostname fragment, or else the path fragment, is
    not a valid pattern, the validation reports the first such fragment on
    the diagnostics stream, once, and returns without raising.  The run then
    compiles the composite pattern: when that fails the run is aborted by the
    uncaught [re.error] before any target is processed, and only when it
    succeeds does the run go on to the targets. *)
Theorem C4_invalid_fragment_reported fs a (json : json) o r s h p src msg w :
  json = JObj o -> o !! lit "replace" = Some (JObj r) ->
  (r !! lit "protocol" = None \/
   exists v, r !! lit "protocol" = Some (JStr v) /\ v ∈ VALID_PROTOCOLS) ->
  o !! lit "search" = Some (JObj s) ->
  s !! lit "hostname" = Some (JStr h) -> s !! lit "path" = Some (JStr p) ->
  ((compile false h = Invalid msg /\ src = h) \/
   (exists re, compile false h = Done re /\ compile false p = Invalid msg /\ src = p)) ->
  let report :=
    lit "Config contains invalid regex " ++ [dq] ++ src ++ [dq] ++ lit ": " ++ lit msg ++ [nl] in
  let w1 := World (files w) (temps w) (next_temp w) (stdout w) (stderr w ++ [report]) (opened w) in
  validateJSONConfig json w = (Ok tt, w1) /\
  (forall msg', compile true (pattern_text h p) = Invalid msg' ->
     main fs a json w = (Raise (ReError (pattern_text h p) msg'), w1)) /\
  (forall regex, compile true (pattern_text h p) = Done regex ->
     main fs a json w =
     for_each (targets a) (fun target =>
       if isdir fs target then
         for_each (confFiles fs target (modules a) (modules_only a)) (process regex a json)
       else process regex a json target) w1).
Proof.
  intros Hj Ho Hproto Hs Hh Hp Hbad report w1.
  assert (Hv : validateJSONConfig json w = (Ok tt, w1)).
  { assert (Ht : validateJSONConfig json w = try_compile json w).
    { destruct Hproto as [Hn | (v & Hv & Hin)].
      - eapply validate_no_protocol; eauto.
      - eapply validate_valid_protocol; eauto. }
    rewrite Ht, (try_compile_run json o s h p w Hj Hs Hh Hp).
    destruct Hbad as [[Eh ->] | (re & Eh & Ep & ->)].
    - rewrite Eh. unfold eprint, invalid_regex, w1, report.
      rewrite <- !app_assoc. reflexivity.
    - rewrite Eh, Ep. unfold eprint, invalid_regex, w1, report.
      rewrite <- !app_assoc. reflexivity. }
  split; [exact Hv|]. split.
  - intros msg' Hc. rewrite (main_after_validation fs a json o s h p w w1 Hj Hs Hh Hp Hv), Hc.
    reflexivity.
  - intros regex Hc.
    rewrite (main_after_validation fs a json o s h p w w1 Hj Hs Hh Hp Hv), Hc.
    reflexivity.
Qed.

Lemma C4_witness :
  let json := Example.config_with (lit "(") Example.paths_text (Some "ssh-colon"%string) in
  let w := Example.world_of Example.url_line in
  let report :=
    lit "Config contains invalid regex " ++ [dq] ++ lit "(" ++ [dq] ++ lit ": " ++
    lit "missing ), unterminated subpattern" ++ [nl] in
  let w1 := World (files w) (temps w) (next_temp w) (stdout w) (stderr w ++ [report]) (opened w) in
  validateJSONConfig json w = (Ok tt, w1) /\
  main Example.no_dirs Example.args json w =
    (Raise (ReError (pattern_text (lit "(") Example.paths_text)
              "missing ), unterminated subpattern"), w1).
Proof.
  intros json w report w1.
  destruct (C4_invalid_fragment_reported Example.no_dirs Example.args json
              (Example.config_fields (lit "(") Example.paths_text (Some "ssh-colon"%string))
              (Example.replace_fields (Some "ssh-colon"%string))
              (Example.search_fields (lit "(") Example.paths_text)
              (lit "(") Example.paths_text (lit "(")
              "missing ), unterminated subpattern" w) as (Hv & Habort & _).
  - reflexivity.
  - vm_compute. reflexivity.
  - right. exists (lit "ssh-colon"). split; [vm_compute; reflexivity|].
    vm_compute. do 4 right. left.
  - vm_compute. reflexivity.
  - vm_compute. reflexivity.
  - vm_compute. reflexivity.
  - left. split; [vm_compute; reflexivity | reflexivity].
  - split; [exact Hv|]. apply Habort. vm_compute. reflexivity.
Defined.

(** C5: a configuration whose [replace.protocol] is present and is not one
    of the seven recognised values is rejected by the validation with a
    [ValueError], and the run stops there: the world is the one it started
    from, so no target file has been opened and none has been modified. *)
Theorem C5_invalid_protocol_aborts fs a (json : json) o r p w :
  json = JObj o -> o !! lit "replace" = Some (JObj r) ->
  r !! lit "protocol" = Some p ->
  (forall v, v ∈ VALID_PROTOCOLS -> p <> JStr v) ->
  exists e,
    validateJSONConfig json w = (Raise e, w) /\
    main fs a json w = (Raise e, w) /\
    e = ValueError invalid_protocol [p; JStr (join (lit ", ") VALID_PROTOCOLS)].
Proof.
  intros Hj Ho Hr Hp. eexists. split; [|split; [|reflexivity]].
  - eapply validate_invalid_protocol; eauto.
  - apply main_validation_raises. eapply validate_invalid_protocol; eauto.
Qed.

Lemma C5_witness :
  exists e,
    validateJSONConfig
      (Example.config_with Example.hosts_text Example.paths_text (Some "svn"%string))
      (Example.world_of Example.url_line) = (Raise e, Example.world_of Example.url_line) /\
    main Example.no_dirs Example.args
      (Example.config_with Example.hosts_text Example.paths_text (Some "svn"%string))
      (Example.world_of Example.url_line) = (Raise e, Example.world_of Example.url_line) /\
    e = ValueError invalid_protocol
          [JStr (lit "svn"); JStr (join (lit ", ") VALID_PROTOCOLS)].
Proof.
  apply (C5_invalid_protocol_aborts Example.no_dirs Example.args
           (Example.config_with Example.hosts_text Example.paths_text (Some "svn"%string))
           (Example.config_fields Example.hosts_text Example.paths_text (Some "svn"%string))
           (Example.replace_fields (Some "svn"%string))
           (JStr (lit "svn")) (Example.world_of Example.url_line)).
  - reflexivity.
  - vm_compute. reflexivity.
  - vm_compute. reflexivity.
  - intros v Hv. vm_compute in Hv.
    repeat (apply elem_of_cons in Hv as [-> | Hv]; [discriminate|]).
    inversion Hv.
Defined.

(** C6, as stated, fails: a file whose URL is already the target URL, with a
    project that maps to itself, loses the newline after the URL. *)
Lemma C6_counterexample :
  Example.same_text =
    unlines ["[submodule]"]%string ++ lit "url = " ++
    format_uri (lit "https") [] (lit "newgit.example.com") (lit "project1") ++ [nl] /\
  compile true (pattern_text Example.same_hosts_text []) = Done Example.same_regex /\
  projects (finditer Example.same_regex Example.same_text) = [Some (lit "project1")] /\
  Example.same_subst !! lit "project1" = Some (lit "project1") /\
  fst (main Example.no_dirs Example.args Example.same_conf (Example.world_of Example.same_text)) = Ok tt /\
  files (snd (main Example.no_dirs Example.args Example.same_conf (Example.world_of Example.same_text)))
    !! Example.target =
    Some (unlines ["[submodule]"]%string ++ lit "url = https://newgit.example.com/project1") /\
  unlines ["[submodule]"]%string ++ lit "url = https://newgit.example.com/project1"
    <> Example.same_text.
Proof. vm_compute. repeat split; try reflexivity. discriminate. Qed.

(** C6, amended.  Take a file in which every matched URL is already the
    target URL of its project, a project that maps to itself: every matched
    span begins with its key text followed by the URI formatted from the
    target protocol, user name and host name and the project.  The rewrite
    warns of nothing and writes the text as read in text mode with every
    matched span cut down to that beginning: what the span holds after the
    URI (a [.git] suffix, white space, line ends) is dropped.  The file is
    written back as it was if and only if it holds no carriage return and
    every matched span ends with its URI. *)
Theorem C6_identity_iff_spans_end_at_uri (hosts paths : pattern) (file : str)
    (subst : gmap str str) (host proto : str) (username : option str)
    (raw : str) (w : world) :
  files w !! file = Some raw ->
  (forall m, m ∈ finditer (composite hosts paths) (universal_newlines raw) ->
     exists key project rest,
       group m "key" = Some key /\ group m "project" = Some project /\
       subst !! project = Some project /\
       group0 m = key ++ format_uri proto (user_part username) host project ++ rest) ->
  exists w' news,
    replace (composite hosts paths) file subst host proto username false w = (Ok tt, w') /\
    files w' = <[file := concat news]> (files w) /\ stderr w' = stderr w /\
    Forall2 (fun p new =>
      match p with
      | Lit c => new = [c]
      | Hit m => exists key project rest,
          group m "key" = Some key /\ group m "project" = Some project /\
          new = key ++ format_uri proto (user_part username) host project /\
          group0 m = new ++ rest
      end) (scan (composite hosts paths) (universal_newlines raw)) news /\
    (files w' = files w <->
     (cr ∉ raw) /\
     forall m, m ∈ finditer (composite hosts paths) (universal_newlines raw) ->
       exists key project,
         group m "key" = Some key /\ group m "project" = Some project /\
         group0 m = key ++ format_uri proto (user_part username) host project).
Proof.
  intros Hfile Huri.
  set (text := universal_newlines raw) in *.
  set (re := composite hosts paths) in *.
  assert (Hkey : forall m, m ∈ finditer re text -> is_Some (group m "key")).
  { intros m Hm. destruct (Huri m Hm) as (key & ? & ? & -> & _). eauto. }
  assert (Hmapped : forall m, m ∈ finditer re text -> is_Some (new_path subst m)).
  { intros m Hm. destruct (Huri m Hm) as (key & project & rest & _ & Hp & Hs & _).
    unfold new_path. rewrite Hp. simpl. rewrite Hs. eauto. }
  destruct (replace_run re file subst host proto username false raw w Hfile Hkey)
    as (w' & Hrun & He & _ & Hout & _).
  fold text in He, Hout.
  unfold warnings_replaced in He. rewrite (unmapped_nil _ _ Hmapped) in He, Hout.
  simpl in He, Hout. rewrite app_nil_r in He. unfold rewrite in Hout.
  assert (Hnew : forall m, m ∈ finditer re text ->
            exists key project rest,
              group m "key" = Some key /\ group m "project" = Some project /\
              new_text subst host proto username (Hit m) =
                key ++ format_uri proto (user_part username) host project /\
              group0 m = new_text subst host proto username (Hit m) ++ rest).
  { intros m Hm. destruct (Huri m Hm) as (key & project & rest & Hk & Hp & Hs & Hg).
    exists key, project, rest. simpl. unfold replacement, new_path.
    rewrite Hp. simpl. rewrite Hs, Hk. simpl. rewrite <- app_assoc. auto. }
  assert (Hpre : forall p, p ∈ scan re text ->
            exists r, piece_text p = new_text subst host proto username p ++ r).
  { intros [c|m] Hp; [exists []; reflexivity|].
    apply finditer_hit in Hp. destruct (Hnew m Hp) as (? & ? & rest & _ & _ & _ & Hg).
    exists rest. exact Hg. }
  exists w', (map (new_text subst host proto username) (scan re text)).
  split; [exact Hrun|]. split; [exact Hout|]. split; [exact He|]. split.
  { apply Forall2_fmap_r, Forall_Forall2_diag, Forall_forall. intros [c|m] Hin; [reflexivity|].
    apply finditer_hit in Hin. destruct (Hnew m Hin) as (key & project & rest & Hk & Hp & Hn & Hg).
    exists key, project, rest. auto. }
  rewrite Hout. split.
  - intros Hsame.
    assert (Hraw : concat (map (new_text subst host proto username) (scan re text)) = raw).
    { apply (f_equal (fun fs => fs !! file)) in Hsame.
      rewrite lookup_insert_eq, Hfile in Hsame. congruence. }
    assert (Hcr : cr ∉ raw).
    { rewrite <- Hraw. intros Hin.
      apply (shrink_elem _ piece_text _ _ Hpre) in Hin.
      rewrite scan_text in Hin. exact (universal_newlines_no_cr raw Hin). }
    split; [exact Hcr|]. intros m Hm.
    assert (Htext : text = raw) by (apply universal_newlines_id, Hcr).
    rewrite <- Htext in Hraw. rewrite <- (scan_text re text) in Hraw at 2.
    pose proof (shrink_same _ piece_text _ Hpre Hraw (Hit m) (proj1 (finditer_hit _ _ _) Hm))
      as Heq.
    destruct (Hnew m Hm) as (key & project & rest & Hk & Hp & Hn & _).
    exists key, project. split; [exact Hk|]. split; [exact Hp|].
    rewrite <- Hn. symmetry. exact Heq.
  - intros [Hcr Hexact]. apply insert_id. rewrite Hfile. f_equal.
    symmetry. transitivity text; [|apply universal_newlines_id, Hcr].
    transitivity (concat (map piece_text (scan re text))); [|apply scan_text].
    f_equal. apply map_ext_in. intros [c|m] Hin; [reflexivity|].
    apply list_elem_of_In, finditer_hit in Hin.
    destruct (Hexact m Hin) as (key & project & Hk & Hp & Hg).
    destruct (Hnew m Hin) as (key' & project' & rest & Hk' & Hp' & Hn & _).
    rewrite Hn. simpl. rewrite Hg. congruence.
Qed.

Lemma C6_witness :
  exists w' news,
    replace (composite (word "newgit.example.com") Eps) Example.target Example.same_subst
      (lit "newgit.example.com") (lit "https") None false (Example.world_of Example.same_text)
      = (Ok tt, w') /\
    files w' = <[Example.target := concat news]> (files (Example.world_of Example.same_text)) /\
    stderr w' = stderr (Example.world_of Example.same_text) /\
    Forall2 (fun p new =>
      match p with
      | Lit c => new = [c]
      | Hit m => exists key project rest,
          group m "key" = Some key /\ group m "project" = Some project /\
          new = key ++ format_uri (lit "https") (user_part None) (lit "newgit.example.com")
                         project /\
          group0 m = new ++ rest
      end) (scan (composite (word "newgit.example.com") Eps)
              (universal_newlines Example.same_text)) news /\
    (files w' = files (Example.world_of Example.same_text) <->
     (cr ∉ Example.same_text) /\
     forall m, m ∈ finditer (composite (word "newgit.example.com") Eps)
                     (universal_newlines Example.same_text) ->
       exists key project,
         group m "key" = Some key /\ group m "project" = Some project /\
         group0 m = key ++ format_uri (lit "https") (user_part None)
                             (lit "newgit.example.com") project).
Proof.
  apply (C6_identity_iff_spans_end_at_uri (word "newgit.example.com") Eps Example.target
           Example.same_subst (lit "newgit.example.com") (lit "https") None Example.same_text
           (Example.world_of Example.same_text)).
  - vm_compute. reflexivity.
  - intros m Hm. vm_compute in Hm.
    apply elem_of_cons in Hm as [-> | Hm]; [|inversion Hm].
    exists (lit "url = "), (lit "project1"), [nl]. vm_compute. repeat split; reflexivity.
Defined.

(** C7, as stated, fails: [listProjects] does not list a matched project
    that has no substitution.  On a file with two matched lines, one of a
    project without substitution, it prints one entry, not two: the
    [continue] after the warning skips the [print]. *)
Lemma C7_counterexample :
  projects (finditer Example.regex (universal_newlines Example.mixed_text)) =
    [Some (lit "oldproject1"); Some (lit "unmapped")] /\
  fst (listProjects Example.regex Example.target Example.substitutions false None
         (Example.world_of Example.mixed_text)) = Ok tt /\
  stdout (snd (listProjects Example.regex Example.target Example.substitutions false None
                 (Example.world_of Example.mixed_text))) = [lit "oldproject1" ++ [nl]] /\
  stderr (snd (listProjects Example.regex Example.target Example.substitutions false None
                 (Example.world_of Example.mixed_text))) =
    [warning_listed (Some (lit "unmapped")) ++ [nl]].
Proof. vm_compute. repeat split; reflexivity. Qed.

(** C7, amended.  Over the text of one file, as read in text mode,
    [listProjects] prints one entry for every match of the composite pattern
    whose project has a substitution, in the order of the file, and no entry
    for a match whose project has none: for such a match it writes one
    warning on the diagnostics stream instead, in the order of the file, so
    that the entries and the warnings together are as many as the matches.
    The projects it warns of are those of the matches without substitution,
    and a rewrite pass over the same file warns of exactly the same
    projects, in the same order.  (How the lines of the two streams
    interleave is not part of the statement.) *)
Theorem C7_listing_skips_unmapped (hosts paths : pattern) (file : str)
    (subst : gmap str str) (categorise : bool) (showNew : option str)
    (host proto : str) (username : option str) (dryRun : bool)
    (raw : str) (w : world) :
  files w !! file = Some raw ->
  exists wl wr,
    listProjects (composite hosts paths) file subst categorise showNew w = (Ok tt, wl) /\
    replace (composite hosts paths) file subst host proto username dryRun w = (Ok tt, wr) /\
    stdout wl = stdout w ++
      (if categorise then [file ++ lit ":" ++ [nl]] else []) ++
      concat (map (fun mp : Match * str =>
        (if categorise then [[tab]] else []) ++
        [match showNew with
         | Some delimiter => fmt (group (fst mp) "project") ++ delimiter ++ snd mp ++ [nl]
         | None => fmt (group (fst mp) "project") ++ [nl]
         end])
        (with_path subst (finditer (composite hosts paths) (universal_newlines raw)))) /\
    map fst (with_path subst (finditer (composite hosts paths) (universal_newlines raw))) =
      filter (fun m => mapped subst m = true)
        (finditer (composite hosts paths) (universal_newlines raw)) /\
    Forall (fun mp : Match * str =>
              exists project, group (fst mp) "project" = Some project /\
                              subst !! project = Some (snd mp))
      (with_path subst (finditer (composite hosts paths) (universal_newlines raw))) /\
    stderr wl = stderr w ++
      map (fun p => warning_listed p ++ [nl])
          (projects (unmapped subst (finditer (composite hosts paths) (universal_newlines raw)))) /\
    stderr wr = stderr w ++
      map (fun p => warning_replaced p ++ [nl])
          (projects (unmapped subst (finditer (composite hosts paths) (universal_newlines raw)))) /\
    Forall (fun p => exists project, p = Some project /\ subst !! project = None)
      (projects (unmapped subst (finditer (composite hosts paths) (universal_newlines raw)))) /\
    length (with_path subst (finditer (composite hosts paths) (universal_newlines raw))) +
    length (unmapped subst (finditer (composite hosts paths) (universal_newlines raw))) =
      length (finditer (composite hosts paths) (universal_newlines raw)).
Proof.
  intros Hfile.
  set (ms := finditer (composite hosts paths) (universal_newlines raw)).
  assert (Hkey : forall m, m ∈ ms -> is_Some (group m "key")).
  { intros m Hm. apply (composite_groups _ _ _ _ Hm). }
  destruct (listProjects_run (composite hosts paths) file subst categorise showNew raw w Hfile)
    as (wl & Hl & _ & _ & Ho & He).
  destruct (replace_run (composite hosts paths) file subst host proto username dryRun raw w
              Hfile Hkey) as (wr & Hr & Her & _).
  fold ms in Ho, He, Her.
  exists wl, wr. split; [exact Hl|]. split; [exact Hr|].
  split; [rewrite Ho, listed_entries; reflexivity|].
  split; [apply with_path_matches|].
  split.
  { pose proof (proj2 (with_path_matches subst ms)) as HF.
    eapply Forall_impl; [exact HF|]. intros [m path] Hp. simpl in *.
    unfold new_path in Hp. destruct (group m "project") as [project|]; [|discriminate].
    exists project. split; [reflexivity | exact Hp]. }
  split; [rewrite He; unfold warnings_listed, projects; rewrite map_map; reflexivity|].
  split; [rewrite Her; unfold warnings_replaced, projects; rewrite map_map; reflexivity|].
  split; [|apply with_path_or_unmapped].
  unfold projects. apply Forall_map, Forall_forall. intros m Hm.
  unfold unmapped in Hm.
  apply list_elem_of_filter in Hm as [Hu Hm].
  destruct (composite_groups _ _ _ _ Hm) as [_ [project Hp]].
  exists project. split; [exact Hp|].
  unfold mapped in Hu. apply bool_decide_eq_false in Hu.
  unfold new_path in Hu. rewrite Hp in Hu. simpl in Hu.
  destruct (subst !! project); [exfalso; apply Hu; eauto | reflexivity].
Qed.

Lemma C7_witness :
  exists wl wr,
    listProjects (composite Example.hosts Example.paths) Example.target Example.substitutions
      false None (Example.world_of Example.mixed_text) = (Ok tt, wl) /\
    replace (composite Example.hosts Example.paths) Example.target Example.substitutions
      (lit "newgit.example.com") (lit "ssh-colon") (Some (lit "git")) true
      (Example.world_of Example.mixed_text) = (Ok tt, wr) /\
    stdout wl = [lit "oldproject1" ++ [nl]] /\
    stderr wl = [warning_listed (Some (lit "unmapped")) ++ [nl]] /\
    stderr wr = [warning_replaced (Some (lit "unmapped")) ++ [nl]].
Proof.
  destruct (C7_listing_skips_unmapped Example.hosts Example.paths Example.target
              Example.substitutions false None (lit "newgit.example.com") (lit "ssh-colon")
              (Some (lit "git")) true Example.mixed_text (Example.world_of Example.mixed_text))
    as (wl & wr & Hl & Hr & Ho & _ & _ & He & Her & _).
  - vm_compute. reflexivity.
  - exists wl, wr. split; [exact Hl|]. split; [exact Hr|].
    split; [rewrite Ho; vm_compute; reflexivity|].
    split; [rewrite He; vm_compute; reflexivity|].
    rewrite Her. vm_compute. reflexivity.
Defined.

(** C8: in every match of the composite pattern the captured project name is
    not empty and has neither a dot nor a newline; it stands after a slash
    and is followed, up to the end of the match, by an optional [.git] and
    white space only, and the match ends at the end of a line.  So the part
    of a matched line from the project name on has no dot but that of a final
    [.git]: lines of the documented configuration with a dot elsewhere in the
    project path are not matched at all. *)
Theorem C8_project_name_without_dot :
  (forall hosts paths text m,
     m ∈ finditer (composite hosts paths) text ->
     exists lead project sfx sp,
       group m "project" = Some project /\
       group0 m = lead ++ lit "/" ++ project ++ sfx ++ sp /\
       project <> [] /\ Forall project_char project /\
       (sfx = [] \/ sfx = lit ".git") /\ Forall space sp /\
       (m_end m = length text \/ text !! m_end m = Some nl)) /\
  search Example.regex (lit "url = ssh://git@oldgit.example.org/var/git/old.project1.git") = None /\
  search Example.regex (lit "url = ssh://git@oldgit.example.org/var/git/group.d/project1") = None /\
  search Example.regex (lit "url = ../project1.v2.git") = None /\
  projects (finditer Example.regex (lit "url = ../group/project1.git")) =
    [Some (lit "group/project1")].
Proof.
  split; [|vm_compute; repeat split; reflexivity].
  intros hosts paths text m Hm.
  apply finditer_found, composite_found in Hm
    as (key & uri & sl & proj & sfx & sp & Hg & Hne & Hsl & _ & Hp & _ & _ & Hpne & Hpc &
        Hsfx & Hsp & _ & Hend).
  destruct (exists_last Hne) as (sl' & c & ->).
  apply Forall_app in Hsl as [_ Hc]. inversion Hc as [|? ? -> _]; subst.
  exists (key ++ uri ++ sl'), proj, sfx, sp.
  rewrite Hg, <- !app_assoc. repeat split; auto.
Qed.

Lemma C8_witness :
  exists lead project sfx sp,
    group Example.url_match "project" = Some project /\
    group0 Example.url_match = lead ++ lit "/" ++ project ++ sfx ++ sp /\
    project <> [] /\ Forall project_char project /\
    (sfx = [] \/ sfx = lit ".git") /\ Forall space sp /\
    (m_end Example.url_match = length Example.url_line \/
     Example.url_line !! m_end Example.url_match = Some nl).
Proof.
  apply (proj1 C8_project_name_without_dot Example.hosts Example.paths Example.url_line
           Example.url_match).
  replace (finditer (composite Example.hosts Example.paths) Example.url_line)
    with [Example.url_match] by (vm_compute; reflexivity).
  left.
Defined.

(** C9: the white space that ends a match is part of the matched span and
    is not part of the replacement.  For every match whose project has a
    substitution, whatever the other matches of the file are, the span ends
    with white space that runs to the end of the text or to the last line
    end before the next text that is not blank, and the new file holds, in
    the place of the span, the key text and the new URI, followed at once by
    what the rewrite makes of the text after the span: the white space of
    the span is gone.  When only white space follows the match, that is when
    the match is on the last line of the text, the span runs to the very
    end of the text, final newline included, and the new file ends with the
    new URI.  The file of the documentation's line, ended by a newline, comes
    out without that newline. *)
Theorem C9_trailing_white_space_deleted :
  (forall (hosts paths : pattern) (file : str) (subst : gmap str str) (host proto : str)
          (username : option str) (raw : str) (w : world) (m : Match) (path : str),
     files w !! file = Some raw ->
     m ∈ finditer (composite hosts paths) (universal_newlines raw) ->
     new_path subst m = Some path ->
     exists w' key body sp ps1 ps2,
       group m "key" = Some key /\
       group0 m = body ++ sp /\ body <> [] /\ Forall space sp /\
       (drop (m_end m) (universal_newlines raw) = [] \/
        exists blanks c tail,
          drop (m_end m) (universal_newlines raw) = nl :: blanks ++ c :: tail /\
          Forall (fun b => space b /\ b <> nl) blanks /\ ~ space c) /\
       scan (composite hosts paths) (universal_newlines raw) = ps1 ++ Hit m :: ps2 /\
       concat (map piece_text ps1) = take (m_start m) (universal_newlines raw) /\
       concat (map piece_text ps2) = drop (m_end m) (universal_newlines raw) /\
       replace (composite hosts paths) file subst host proto username false w = (Ok tt, w') /\
       files w' !! file =
         Some (concat (map m_string
                 (unmapped subst (finditer (composite hosts paths) (universal_newlines raw)))) ++
               concat (map (new_text subst host proto username) ps1) ++
               (key ++ format_uri proto (user_part username) host path) ++
               concat (map (new_text subst host proto username) ps2)) /\
       (Forall space (drop (m_end m) (universal_newlines raw)) ->
        m_end m = length (universal_newlines raw) /\ ps2 = [])) /\
  fst (main Example.no_dirs Example.args Example.conf
         (Example.world_of Example.last_line_text)) = Ok tt /\
  files (snd (main Example.no_dirs Example.args Example.conf
                (Example.world_of Example.last_line_text))) !! Example.target =
    Some (unlines ["[submodule]"]%string ++
          lit "url = git@newgit.example.com:new/path/project1").
Proof.
  split; [|vm_compute; split; reflexivity].
  intros hosts paths file subst host proto username raw w m path Hfile Hm Hp.
  set (text := universal_newlines raw) in *.
  set (re := composite hosts paths) in *.
  assert (Hkey : forall m, m ∈ finditer re text -> is_Some (group m "key")).
  { intros m0 Hm0. apply (composite_groups _ _ _ _ Hm0). }
  destruct (replace_run re file subst host proto username false raw w Hfile Hkey)
    as (w' & Hrun & _ & _ & Hout & _).
  fold text in Hout.
  destruct (Hkey m Hm) as [key Hk].
  destruct (scan_split _ _ _ Hm) as (ps1 & ps2 & Hscan & H1 & H2).
  pose proof (finditer_found _ _ _ Hm) as Hf.
  pose proof (composite_found _ _ _ _ Hf)
    as (key' & uri & sl & proj & sfx & sp & Hg & _ & _ & _ & _ & _ & _ & Hne & _ & _ & Hspace & _).
  exists w', key, (key' ++ uri ++ sl ++ proj ++ sfx), sp, ps1, ps2.
  split; [exact Hk|]. split; [rewrite Hg, <- !app_assoc; reflexivity|].
  split.
  { intros E. apply (f_equal length) in E. rewrite !length_app in E.
    destruct proj; [congruence|]. simpl in E. lia. }
  split; [exact Hspace|].
  split; [apply (composite_after _ _ _ _ Hm)|].
  split; [exact Hscan|]. split; [exact H1|]. split; [exact H2|]. split; [exact Hrun|].
  split.
  - rewrite Hout, lookup_insert_eq. f_equal. f_equal. unfold rewrite.
    fold re. rewrite Hscan, map_app, concat_app. simpl. unfold replacement.
    rewrite Hp, Hk. simpl. rewrite <- !app_assoc. reflexivity.
  - intros Hsp.
    assert (Hend : m_end m = length text).
    { destruct (finditer_match_at _ _ _ Hm) as (cu & adv & Hsub & Hat).
      rewrite <- Hsub in Hsp |- *. eapply composite_end; eauto. }
    split; [exact Hend|].
    rewrite Hend, drop_all in H2. destruct ps2 as [|p ps2]; [reflexivity|]. exfalso.
    assert (Hin : p ∈ scan re text).
    { rewrite Hscan. apply elem_of_app. right. right. left. }
    simpl in H2. apply app_eq_nil in H2 as [Hp0 _].
    destruct p as [c|m']; [discriminate|].
    apply finditer_hit, finditer_found, composite_nonempty in Hin. auto.
Qed.

Lemma C9_witness :
  exists w' key body sp ps1 ps2,
    group Example.last_match "key" = Some key /\
    group0 Example.last_match = body ++ sp /\ body <> [] /\ Forall space sp /\
    (drop (m_end Example.last_match) (universal_newlines Example.last_line_text) = [] \/
     exists blanks c tail,
       drop (m_end Example.last_match) (universal_newlines Example.last_line_text) =
         nl :: blanks ++ c :: tail /\
       Forall (fun b => space b /\ b <> nl) blanks /\ ~ space c) /\
    scan (composite Example.hosts Example.paths) (universal_newlines Example.last_line_text) =
      ps1 ++ Hit Example.last_match :: ps2 /\
    concat (map piece_text ps1) =
      take (m_start Example.last_match) (universal_newlines Example.last_line_text) /\
    concat (map piece_text ps2) =
      drop (m_end Example.last_match) (universal_newlines Example.last_line_text) /\
    replace (composite Example.hosts Example.paths) Example.target Example.substitutions
      (lit "newgit.example.com") (lit "ssh-colon") (Some (lit "git")) false
      (Example.world_of Example.last_line_text) = (Ok tt, w') /\
    files w' !! Example.target =
      Some (concat (map m_string
              (unmapped Example.substitutions
                 (finditer (composite Example.hosts Example.paths)
                    (universal_newlines Example.last_line_text)))) ++
            concat (map (new_text Example.substitutions (lit "newgit.example.com")
                           (lit "ssh-colon") (Some (lit "git"))) ps1) ++
            (key ++ format_uri (lit "ssh-colon") (user_part (Some (lit "git")))
                      (lit "newgit.example.com") (lit "new/path/project1")) ++
            concat (map (new_text Example.substitutions (lit "newgit.example.com")
                           (lit "ssh-colon") (Some (lit "git"))) ps2)) /\
    (Forall space (drop (m_end Example.last_match) (universal_newlines Example.last_line_text)) ->
     m_end Example.last_match = length (universal_newlines Example.last_line_text) /\ ps2 = []).
Proof.
  apply (proj1 C9_trailing_white_space_deleted Example.hosts Example.paths Example.target
           Example.substitutions (lit "newgit.example.com") (lit "ssh-colon")
           (Some (lit "git")) Example.last_line_text (Example.world_of Example.last_line_text)
           Example.last_match (lit "new/path/project1")).
  - vm_compute. reflexivity.
  - replace (finditer (composite Example.hosts Example.paths)
               (universal_newlines Example.last_line_text))
      with [Example.last_match] by (vm_compute; reflexivity).
    left.
  - vm_compute. reflexivity.
Defined.

(** C10: the validation does not require [replace.protocol]: when the
    [replace] object has no such key the protocol check is skipped, so no
    [ValueError] is raised, and a configuration with string fragments passes
    validation (whether or not the fragments compile). *)
Theorem C10_protocol_key_not_required (json : json) o r w :
  json = JObj o -> o !! lit "replace" = Some (JObj r) ->
  r !! lit "protocol" = None ->
  (forall e w', validateJSONConfig json w = (Raise e, w') -> is_ValueError e = false) /\
  (forall s h p,
     o !! lit "search" = Some (JObj s) ->
     s !! lit "hostname" = Some (JStr h) -> s !! lit "path" = Some (JStr p) ->
     compile false h <> Unsupported -> compile false p <> Unsupported ->
     fst (validateJSONConfig json w) = Ok tt).
Proof.
  intros Hj Ho Hr. rewrite (validate_no_protocol json o r w Hj Ho Hr). split.
  - intros e w'. apply try_compile_raises.
  - intros s h p Hs Hh Hp Uh Up.
    rewrite (try_compile_run json o s h p w Hj Hs Hh Hp).
    destruct (compile false h); [|reflexivity|congruence].
    destruct (compile false p); [reflexivity|reflexivity|congruence].
Qed.

Lemma C10_witness :
  fst (validateJSONConfig
         (Example.config_with Example.hosts_text Example.paths_text None)
         (Example.world_of Example.url_line)) = Ok tt.
Proof.
  assert (Ho : Example.config_fields Example.hosts_text Example.paths_text None
               !! lit "replace" = Some (JObj (Example.replace_fields None)))
    by (vm_compute; reflexivity).
  assert (Hr : Example.replace_fields None !! lit "protocol" = None)
    by (vm_compute; reflexivity).
  apply (proj2 (C10_protocol_key_not_required
           (Example.config_with Example.hosts_text Example.paths_text None)
           _ _ (Example.world_of Example.url_line) eq_refl Ho Hr)
           (Example.search_fields Example.hosts_text Example.paths_text)
           Example.hosts_text Example.paths_text).
  - vm_compute. reflexivity.
  - vm_compute. reflexivity.
  - vm_compute. reflexivity.
  - vm_compute. discriminate.
  - vm_compute. discriminate.
Defined.

(** * Further properties of the script

    Properties of the functions read off the source beyond the claims
    above: what a run leaves untouched, how the functions fail, and what
    the matches handed to the script look like. *)

(** Effects of the script: what the monadic code preserves. *)
Module EffectFacts.

Lemma keeps_ret {A F} (field : world -> F) (a : A) : keeps field (ret a).
Proof. intros w. reflexivity. Qed.

Lemma keeps_raise {A F} (field : world -> F) e : keeps field (@raise A e).
Proof. intros w. reflexivity. Qed.

Lemma keeps_bind {A B F} (field : world -> F) (m : M A) (f : A -> M B) :
  keeps field m -> (forall a, keeps field (f a)) -> keeps field (bind m f).
Proof.
  intros Hm Hf w. unfold bind. specialize (Hm w).
  destruct (m w) as [[a|e] w1]; simpl in *.
  - rewrite Hf. exact Hm.
  - exact Hm.
Qed.

Lemma keeps_try_except {A F} (field : world -> F) (m : M A) handled handler :
  keeps field m -> (forall e, keeps field (handler e)) ->
  keeps field (try_except m handled handler).
Proof.
  intros Hm Hh w. unfold try_except. specialize (Hm w).
  destruct (m w) as [[a|e] w1]; simpl in *; [exact Hm|].
  destruct (handled e); simpl; [rewrite Hh|]; exact Hm.
Qed.

Lemma keeps_for_each {A F} (field : world -> F) (xs : list A) (body : A -> M unit) :
  (forall x, keeps field (body x)) -> keeps field (for_each xs body).
Proof.
  intros Hb. induction xs as [|x xs IH]; simpl.
  - apply keeps_ret.
  - apply keeps_bind; [apply Hb | intros _; exact IH].
Qed.

Lemma keeps_if {A F} (field : world -> F) (b : bool) (m1 m2 : M A) :
  keeps field m1 -> keeps field m2 -> keeps field (if b then m1 else m2).
Proof. destruct b; auto. Qed.

Lemma keeps_write_out s : keeps files (write_out s).
Proof. intros w. reflexivity. Qed.

Lemma keeps_print s : keeps files (print s).
Proof. intros w. reflexivity. Qed.

Lemma keeps_eprint s : keeps files (eprint s).
Proof. intros w. reflexivity. Qed.

Lemma keeps_temps_eprint s : keeps temps (eprint s).
Proof. intros w. reflexivity. Qed.

Lemma keeps_read_file path : keeps files (read_file path).
Proof. intros w. unfold read_file. destruct (files w !! path); reflexivity. Qed.

Lemma keeps_mkstemp : keeps files mkstemp.
Proof. intros w. reflexivity. Qed.

Lemma keeps_temp_write t s : keeps files (temp_write t s).
Proof. intros w. reflexivity. Qed.

Lemma keeps_temp_remove t : keeps files (temp_remove t).
Proof. intros w. reflexivity. Qed.

Lemma keeps_getitem v key : keeps files (getitem v key).
Proof. intros w. unfold getitem. destruct v; try reflexivity. destruct (o !! key); reflexivity. Qed.

Lemma keeps_contains key v : keeps files (contains key v).
Proof. intros w. destruct v; reflexivity. Qed.

Lemma keeps_get v key : keeps files (get v key).
Proof. intros w. destruct v; reflexivity. Qed.

Lemma keeps_re_compile verbose v : keeps files (re_compile verbose v).
Proof.
  intros w. unfold re_compile. destruct v; try reflexivity.
  destruct (compile verbose s); reflexivity.
Qed.

Lemma keeps_as_str v : keeps files (as_str v).
Proof. intros w. destruct v; reflexivity. Qed.

Lemma keeps_as_strs kvs : keeps files (as_strs kvs).
Proof.
  induction kvs as [|[k v] kvs IH]; simpl; [apply keeps_ret|].
  apply keeps_bind; [apply keeps_as_str|]. intros s.
  apply keeps_bind; [exact IH|]. intros r. apply keeps_ret.
Qed.

Lemma keeps_as_subst v : keeps files (as_subst v).
Proof.
  destruct v; try apply keeps_raise. simpl.
  apply keeps_bind; [apply keeps_as_strs | intros; apply keeps_ret].
Qed.

Create HintDb keeps.

#[export] Hint Resolve keeps_ret keeps_raise keeps_write_out keeps_print keeps_eprint
  keeps_read_file keeps_mkstemp keeps_temp_write keeps_temp_remove keeps_getitem
  keeps_contains keeps_get keeps_re_compile keeps_as_str keeps_as_strs keeps_as_subst
  keeps_temps_eprint : keeps.

Ltac keeps :=
  repeat first
    [ progress auto with keeps
    | apply keeps_bind; [|intros ?]
    | apply keeps_try_except; [|intros ?]
    | apply keeps_for_each; intros ?
    | apply keeps_if
    | match goal with
      | |- keeps _ (match ?x with _ => _ end) => destruct x
      end ].

Lemma keeps_replace_match (subst : gmap str str) (host proto : str) (username : option str)
    (dryRun : bool) (temp : nat) (m : Match) :
  keeps files (replace_match subst host proto username dryRun temp m).
Proof. unfold replace_match. keeps. Qed.

(** In a dry run the callback never touches the temporary files. *)
Lemma keeps_temps_replace_match (subst : gmap str str) (host proto : str)
    (username : option str) (temp : nat) (m : Match) :
  keeps temps (replace_match subst host proto username true temp m).
Proof.
  unfold replace_match. destruct (group m "project" ≫= _); [keeps|].
  cbn [negb]. keeps.
Qed.

Lemma keeps_sub_pieces {F} (field : world -> F) (repl : Match -> M str) ps :
  (forall m, keeps field (repl m)) -> keeps field (sub_pieces repl ps).
Proof.
  intros Hr. induction ps as [|[c|m] ps IH]; simpl; keeps.
Qed.

Lemma keeps_printIfMatching regex file : keeps files (printIfMatching regex file).
Proof. unfold printIfMatching. keeps. Qed.

Lemma keeps_listProjects (regex : pattern) (file : str) (subst : gmap str str)
    (categorise : bool) (showNew : option str) :
  keeps files (listProjects regex file subst categorise showNew).
Proof. unfold listProjects. keeps. Qed.

Lemma keeps_replace_dry (regex : pattern) (file : str) (subst : gmap str str)
    (host proto : str) (username : option str) :
  keeps files (replace regex file subst host proto username true).
Proof.
  unfold replace, re_sub.
  apply keeps_bind; [keeps | intros _].
  apply keeps_bind; [keeps | intros t].
  apply keeps_bind; [|intros done; simpl; rewrite andb_false_r; keeps].
  apply keeps_try_except; [|intros e; keeps].
  apply keeps_bind; [keeps | intros text].
  apply keeps_bind; [|intros r; keeps].
  apply keeps_sub_pieces. intros m. apply keeps_replace_match.
Qed.

Lemma keeps_validate json : keeps files (validateJSONConfig json).
Proof. unfold validateJSONConfig. keeps. Qed.

#[export] Hint Resolve keeps_replace_match keeps_printIfMatching keeps_listProjects
  keeps_replace_dry keeps_validate : keeps.

Lemma keeps_process regex a json file :
  list_configs a || list_projects a || dry_run a = true ->
  keeps files (process regex a json file).
Proof.
  intros H. unfold process.
  destruct (list_configs a); [apply keeps_printIfMatching|].
  destruct (list_projects a).
  - keeps.
  - simpl in H. rewrite H. keeps.
Qed.

#[export] Hint Resolve keeps_process : keeps.

Lemma keeps_main fs a json :
  list_configs a || list_projects a || dry_run a = true ->
  keeps files (main fs a json).
Proof.
  intros H. unfold main. keeps.
Qed.

Lemma keeps_lookup {A} (p : str) (m : M A) :
  keeps files m -> keeps (fun w => files w !! p) m.
Proof. intros H w. simpl. rewrite H. reflexivity. Qed.

Lemma keeps_temp_move (p path : str) (t : nat) :
  p <> path -> keeps (fun w => files w !! p) (temp_move t path).
Proof. intros H w. simpl. apply lookup_insert_ne. congruence. Qed.

(** [replace] changes no file but its own. *)
Lemma keeps_replace_other (regex : pattern) (file : str) (subst : gmap str str)
    (host proto : str) (username : option str) (dryRun : bool) (p : str) :
  p <> file -> keeps (fun w => files w !! p) (replace regex file subst host proto username dryRun).
Proof.
  intros Hp. unfold replace, re_sub.
  apply keeps_bind; [apply keeps_lookup; keeps | intros _].
  apply keeps_bind; [apply keeps_lookup; keeps | intros t].
  apply keeps_bind.
  - apply keeps_lookup. apply keeps_try_except; [|intros e; keeps].
    apply keeps_bind; [keeps | intros text].
    apply keeps_bind; [|intros r; keeps].
    apply keeps_sub_pieces. intros m. apply keeps_replace_match.
  - intros done. destruct (done && negb dryRun).
    + apply keeps_temp_move. exact Hp.
    + apply keeps_ret.
Qed.

Lemma keeps_process_other regex a json (file p : str) :
  p <> file -> keeps (fun w => files w !! p) (process regex a json file).
Proof.
  intros Hp. unfold process.
  destruct (list_configs a); [apply keeps_lookup; keeps|].
  destruct (list_projects a); [apply keeps_lookup; keeps|].
  do 6 (apply keeps_bind; [apply keeps_lookup; keeps | intros ?]).
  apply keeps_replace_other. exact Hp.
Qed.

Lemma unmapped_strings (re : pattern) (subst : gmap str str) (text : str) :
  concat (map m_string (unmapped subst (finditer re text))) =
  concat (replicate (length (unmapped subst (finditer re text))) text).
Proof.
  assert (H : Forall (fun m => m_string m = text) (unmapped subst (finditer re text))).
  { apply Forall_forall. intros m Hm. unfold unmapped in Hm.
    apply list_elem_of_filter in Hm as [_ Hm].
    apply finditer_found, found_span in Hm as (_ & _ & _ & Hs). exact Hs. }
  induction H as [|m ms Hm _ IH]; [reflexivity|]. simpl. rewrite Hm, IH. reflexivity.
Qed.

Lemma as_strs_ok (kvs : list (str * json)) w :
  Forall (fun kv => exists s, kv.2 = JStr s) kvs ->
  as_strs kvs w = (Ok (prod_map id text_of <$> kvs), w).
Proof.
  induction 1 as [|[k v] kvs [s Hs] _ IH]; [reflexivity|].
  simpl in Hs. subst v. simpl. unfold bind. simpl. rewrite IH. reflexivity.
Qed.

(** The substitution table read from a JSON object of strings. *)
Lemma as_subst_ok (o : gmap str json) w :
  all_strings o -> as_subst (JObj o) w = (Ok (text_of <$> o), w).
Proof.
  intros Hall. unfold as_subst, bind. rewrite as_strs_ok.
  - unfold ret. f_equal. f_equal. rewrite list_to_map_fmap, list_to_map_to_list. reflexivity.
  - apply Forall_forall. intros [k v] Hin. apply elem_of_map_to_list in Hin.
    exact (Hall k v Hin).
Qed.

Lemma example_all_strings :
  all_strings (Example.fields [("oldproject1"%string, JStr (lit "new/path/project1"))]).
Proof.
  intros k v H. apply elem_of_map_to_list in H. vm_compute in H.
  apply elem_of_cons in H as [H|H]; [|inversion H].
  injection H as _ ->. eauto.
Qed.

Lemma listed_or_warned (subst : gmap str str) (showNew : option str) (ms : list Match) :
  length (concat (map (listed subst false showNew) ms)) + length (warnings_listed subst ms)
  = length ms.
Proof.
  unfold warnings_listed. induction ms as [|m ms IH]; [reflexivity|].
  rewrite unmapped_cons, map_cons, concat_cons, length_app.
  unfold listed at 1. destruct (new_path subst m) as [p|] eqn:Hp.
  - rewrite (mapped_Some _ _ _ Hp). simpl in *. lia.
  - rewrite (mapped_None _ _ Hp). simpl in *. lia.
Qed.

End EffectFacts.

(** Facts on the scan and on the end of the composite pattern. *)
Module MatchFacts.

Lemma ordered_weaken from from' ms : from' <= from -> ordered from ms -> ordered from' ms.
Proof. destruct ms as [|m ms]; simpl; [auto|]. intros H (H1 & H2 & H3). repeat split; auto; lia. Qed.

Lemma match_at_bounds re adv cu m :
  match_at re adv cu = Some m ->
  m_start m = pos cu /\ m_end m = pos cu + m_len m /\ m_len m <= length (rest cu).
Proof.
  intros H. pose proof (match_at_len _ _ _ _ H) as (Hb & Hg & Hl).
  apply match_at_is_found, found_span in H as (_ & He & _).
  rewrite He, Hg, Hb. auto.
Qed.

(** The matches of a scan come in the order of the text and do not overlap. *)
Lemma scan_from_ordered re : forall rs sn skip,
  skip <= length rs ->
  ordered (length sn + skip) (omap hit (scan_from re sn rs skip)).
Proof.
  induction rs as [|c rs IH]; intros sn skip Hs; simpl in *.
  - destruct skip; [|lia].
    destruct (match_at re false (Cursor sn [])) as [m|] eqn:E; simpl; [|exact I].
    apply match_at_bounds in E as (Hb & He & _). unfold pos in *. simpl in *. lia.
  - destruct skip as [|n].
    + destruct (match_at re false (Cursor sn (c :: rs))) as [m0|] eqn:E.
      * pose proof (match_at_bounds _ _ _ _ E) as (Hb0 & He0 & Hl0).
        unfold pos in Hb0, He0. simpl in Hb0, He0, Hl0.
        destruct (m_len m0) as [|n] eqn:En.
        -- destruct (match_at re true (Cursor sn (c :: rs))) as [m1|] eqn:E1.
           ++ pose proof (match_at_bounds _ _ _ _ E1) as (Hb1 & He1 & Hl1).
              pose proof (match_at_span _ _ _ _ E1) as (w1 & _ & _ & Hlw & _ & _ & Hne).
              assert (Hpos : m_len m1 <> 0).
              { rewrite Hlw. destruct w1; [exfalso; apply Hne; reflexivity | discriminate]. }
              unfold pos in Hb1, He1. simpl in Hb1, He1, Hl1.
              simpl. repeat split; try lia.
              eapply ordered_weaken; [|apply (IH (c :: sn) (m_len m1 - 1)); lia].
              simpl. lia.
           ++ simpl. repeat split; try lia.
              eapply ordered_weaken; [|apply (IH (c :: sn) 0); lia]. simpl. lia.
        -- simpl. repeat split; try lia.
           eapply ordered_weaken; [|apply (IH (c :: sn) n); lia]. simpl. lia.
      * simpl. eapply ordered_weaken; [|apply (IH (c :: sn) 0); lia]. simpl. lia.
    + eapply ordered_weaken; [|apply (IH (c :: sn) n); lia]. simpl. lia.
Qed.

(** The end of the composite pattern, [(?:\.git)??\s*$], succeeds at the end
    of a line whenever what follows the pattern does. *)
Lemma tail_succeeds {R} cu cs (k : cursor -> caps -> option R) :
  at_eol cu = true -> k cu cs <> None ->
  exec (Cat suffix_re (Cat (Star true ws) Eol)) cu cs k <> None.
Proof.
  intros Heol Hk H. simpl in H. unfold orelse in H.
  match type of H with
  | match ?x with _ => _ end = None => destruct x eqn:E; [discriminate|]
  end.
  clear H. destruct cu as [sn rs].
  pose proof (star_one_none _ _ _ _ sn rs E (le_n _) [] rs eq_refl (List.Forall_nil _)) as E'.
  simpl in E'. rewrite Heol in E'. auto.
Qed.

(** ... and fails where a project character and then a dot lie ahead. *)
Lemma tail_fails_before_dot {R} cu cs (k : cursor -> caps -> option R) w2 r4 :
  rest cu = w2 ++ "."%char :: r4 -> w2 <> [] -> Forall project_char w2 ->
  exec (Cat suffix_re (Cat (Star true ws) Eol)) cu cs k = None.
Proof.
  intros Hr Hne Hw. destruct (exec _ cu cs k) as [x|] eqn:E; [exfalso | reflexivity].
  apply exec_cat_sound in E as (c1 & k1 & H1 & E).
  apply exec_cat_sound in E as (c2 & k2 & H2 & E).
  simpl in E. destruct (at_eol c2) eqn:Heol; [|discriminate]. clear E.
  pose proof (matches_word _ _ _ _ _ H1) as [Hw1 _].
  pose proof (matches_word _ _ _ _ _ H2) as [Hw2 _].
  apply suffix_re_matches in H1 as [_ Hsfx].
  apply (matches_star_single _ _ _ _ _ _ _ ws_single) in H2 as [_ Hsp].
  destruct w2 as [|d w2]; [congruence|]. inversion Hw as [|? ? [Hd1 Hd2] Hw']; subst.
  destruct Hsfx as [Hs|Hs]; rewrite Hs in Hw1; simpl in Hw1.
  2:{ rewrite Hr in Hw1. simpl in Hw1. injection Hw1 as -> _. congruence. }
  rewrite Hw1, Hw2 in Hr. clear Hw1 Hw2 Hs.
  set (sp := between c1 c2) in *. clearbody sp.
  assert (Hgen : forall sp w, Forall space sp -> Forall project_char w -> w <> [] ->
            sp ++ rest c2 = w ++ "."%char :: r4 -> False).
  { clear -Heol. induction sp as [|s sp IH]; intros w Hsp Hw Hne Heq.
    - simpl in Heq. destruct w as [|d w]; [congruence|].
      inversion Hw as [|? ? [_ Hd] _]; subst.
      unfold at_eol in Heol. rewrite Heq in Heol. simpl in Heol.
      apply bool_decide_eq_true in Heol. congruence.
    - destruct w as [|d w]; [congruence|]. simpl in Heq. injection Heq as -> Heq.
      inversion Hsp as [|? ? Hs Hsp']; subst. inversion Hw as [|? ? _ Hw']; subst.
      destruct w as [|d' w].
      + simpl in Heq. destruct sp as [|s' sp].
        * simpl in Heq. unfold at_eol in Heol. rewrite Heq in Heol. simpl in Heol.
          discriminate.
        * simpl in Heq. injection Heq as -> _. inversion Hsp' as [|? ? Hs' _]; subst.
          vm_compute in Hs'. discriminate.
      + eapply IH; eauto; discriminate. }
  eapply (Hgen sp (d :: w2)); eauto; discriminate.
Qed.

Lemma project_run (l : str) :
  exists w r, l = w ++ r /\ Forall (fun c => cls_ok true [CChar "."; CChar nl] c = true) w /\
    (r = [] \/ exists c r', r = c :: r' /\ (c = "."%char \/ c = nl)).
Proof.
  induction l as [|c l (w & r & -> & Hw & Hr)].
  - exists [], []. auto.
  - destruct (cls_ok true [CChar "."; CChar nl] c) eqn:E.
    + exists (c :: w), r. auto.
    + exists [], (c :: w ++ r). split; [reflexivity|]. split; [constructor|].
      right. exists c, (w ++ r). split; [reflexivity|].
      unfold cls_ok in E. simpl in E. rewrite orb_false_r in E.
      apply negb_false_iff, orb_true_iff in E as [E|E]; apply bool_decide_eq_true in E; auto.
Qed.

Lemma project_ok_char (w : str) :
  Forall (fun c => cls_ok true [CChar "."; CChar nl] c = true) w -> Forall project_char w.
Proof.
  intros H. eapply Forall_impl; [exact H|]. intros c Hc. unfold cls_ok in Hc. simpl in Hc.
  rewrite orb_false_r in Hc. apply negb_true_iff, orb_false_iff in Hc as [H1 H2].
  apply bool_decide_eq_false in H1, H2. split; assumption.
Qed.

(** The project group takes the longest run of project characters that the
    rest of the pattern accepts. *)
Lemma project_group_exec {R} (T : pattern) cu cs (K : cursor -> caps -> option R) x :
  exec (Cat (Group (Some "project"%string) project_re) T) cu cs K = Some x ->
  exists c w r',
    rest cu = c :: w ++ r' /\
    Forall (fun c => cls_ok true [CChar "."; CChar nl] c = true) (c :: w) /\
    exec T (Cursor (rev w ++ c :: seen cu) r') (<["project"%string := c :: w]> cs) K = Some x /\
    forall w2 r'', r' = w2 ++ r'' -> w2 <> [] ->
      Forall (fun c => cls_ok true [CChar "."; CChar nl] c = true) w2 ->
      exec T (Cursor (rev (w ++ w2) ++ c :: seen cu) r'')
        (<["project"%string := c :: w ++ w2]> cs) K = None.
Proof.
  intros H. simpl exec in H.
  apply one_sound in H as (c & a & Hr & Hc & H). simpl rest in H.
  apply star_one_greedy in H as (w & r' & -> & Hw & Hk & Hmax); [|reflexivity].
  exists c, w, r'. split; [exact Hr|]. split; [constructor; assumption|].
  assert (Hb : forall v r2, w ++ r' = v ++ r2 ->
    between cu (Cursor (rev v ++ c :: seen cu) r2) = c :: v).
  { intros v r2 Hv. apply between_advance. rewrite Hr. simpl. rewrite Hv. reflexivity. }
  split.
  - simpl in Hk. rewrite (Hb w r' eq_refl) in Hk. exact Hk.
  - intros w2 r'' -> Hne Hw2. specialize (Hmax w2 r'' eq_refl Hne Hw2). simpl in Hmax.
    rewrite (Hb (w ++ w2) r'') in Hmax; [exact Hmax |]. rewrite <- app_assoc. reflexivity.
Qed.

End MatchFacts.

Import EffectFacts MatchFacts.

(** X1: the preview modes modify no file.  With [--list-configs],
    [--list-projects] or [--dry-run] the files are, when the run ends, exactly
    what they were, whatever the configuration, the targets and the way the
    run ends. *)
Theorem X1_preview_modes_modify_no_file (fs : tree) (a : arguments) (json : json) (w : world) :
  list_configs a || list_projects a || dry_run a = true ->
  files (snd (main fs a json w)) = files w.
Proof. intros H. apply (keeps_main fs a json H). Qed.

Lemma X1_witness :
  files (snd (main Example.no_dirs Example.dry_args Example.conf Example.start))
  = files Example.start.
Proof.
  apply (X1_preview_modes_modify_no_file Example.no_dirs Example.dry_args Example.conf
           Example.start).
  reflexivity.
Defined.

(** X2: when the file cannot be opened, [replace] does not raise: it
    reports the failure on the diagnostics stream, removes the temporary file
    it had created and leaves every file as it was. *)
Theorem X2_replace_reports_missing_file (regex : pattern) (file : str)
    (subst : gmap str str) (host proto : str) (username : option str)
    (dryRun : bool) (w : world) :
  files w !! file = None ->
  exists w',
    replace regex file subst host proto username dryRun w = (Ok tt, w') /\
    files w' = files w /\ opened w' = opened w /\
    temps w' !! next_temp w = None /\
    stderr w' = stderr w ++
      [lit "Failed to replace config / creating temporary file " ++ file ++
       lit ": No such file or directory" ++ [nl]] /\
    stdout w' = stdout w ++
      (if dryRun
       then [lit "In " ++ file ++ lit " the following would be the new contents:" ++ [nl]]
       else []).
Proof.
  intros Hfile.
  destruct dryRun;
    unfold replace, bind, try_except, mkstemp, read_file, print, write_out, ret, eprint,
      temp_remove;
    cbn [files temps next_temp stdout stderr opened]; rewrite Hfile; cbn;
    eexists; (split; [reflexivity|]); cbn; rewrite lookup_delete_eq, ?app_nil_r,
      <- ?app_assoc; auto 10.
Qed.

Lemma X2_witness :
  exists w',
    replace Example.regex (lit "absent") Example.substitutions (lit "newgit.example.com")
      (lit "ssh-colon") None false Example.start = (Ok tt, w') /\
    files w' = files Example.start /\ opened w' = opened Example.start /\
    temps w' !! next_temp Example.start = None /\
    stderr w' = stderr Example.start ++
      [lit "Failed to replace config / creating temporary file " ++ lit "absent" ++
       lit ": No such file or directory" ++ [nl]] /\
    stdout w' = stdout Example.start ++ [].
Proof.
  apply (X2_replace_reports_missing_file Example.regex (lit "absent") Example.substitutions
           (lit "newgit.example.com") (lit "ssh-colon") None false Example.start).
  vm_compute. reflexivity.
Defined.

(** X3: the temporary file of [replace] on a file that can be read.  In a
    real run it is moved onto the file and no temporary file is left; in a
    dry run it is neither moved nor removed: it is left behind, empty. *)
Theorem X3_temporary_file_left_by_dry_run (hosts paths : pattern) (file : str)
    (subst : gmap str str) (host proto : str) (username : option str)
    (dryRun : bool) (text : str) (w : world) :
  files w !! file = Some text ->
  exists w',
    replace (composite hosts paths) file subst host proto username dryRun w = (Ok tt, w') /\
    next_temp w' = S (next_temp w) /\
    temps w' !! next_temp w = (if dryRun then Some [] else None).
Proof.
  intros Hfile.
  assert (Hkey : forall m, Hit m ∈ scan (composite hosts paths) (universal_newlines text) ->
                          is_Some (group m "key")).
  { intros m Hm. apply finditer_hit in Hm. apply (composite_groups _ _ _ _ Hm). }
  destruct dryRun;
    unfold replace, re_sub, bind, try_except, mkstemp, read_file, print, write_out, ret,
      temp_write, temp_move;
    cbn [files temps next_temp stdout stderr opened]; rewrite Hfile;
    match goal with |- context [sub_pieces (replace_match _ _ _ _ ?d ?t) ?ps ?w0] =>
      pose proof (keeps_sub_pieces temps (replace_match subst host proto username true t) ps
                    (keeps_temps_replace_match subst host proto username t) w0) as Htemps;
      destruct (sub_pieces_replace subst host proto username d t ps w0 Hkey)
        as (w1 & Hrun & (F & N & O & P & E & T))
    end;
    rewrite Hrun in *; cbn in N, Htemps; cbn;
    eexists; (split; [reflexivity|]); cbn; rewrite N; (split; [reflexivity|]).
  - rewrite Htemps. apply lookup_insert_eq.
  - apply lookup_delete_eq.
Qed.

Lemma X3_witness :
  exists w',
    replace (composite Example.hosts Example.paths) Example.target Example.substitutions
      (lit "newgit.example.com") (lit "ssh-colon") None true Example.start = (Ok tt, w') /\
    next_temp w' = S (next_temp Example.start) /\
    temps w' !! next_temp Example.start = Some [].
Proof.
  apply (X3_temporary_file_left_by_dry_run Example.hosts Example.paths Example.target
           Example.substitutions (lit "newgit.example.com") (lit "ssh-colon") None true
           Example.url_line Example.start).
  vm_compute. reflexivity.
Defined.

(** X4: the listing functions do not catch the failure to open a file: on
    a file that cannot be opened [printIfMatching] and [listProjects] raise
    the [IOError], the latter after the heading it prints when the list is
    categorised, and the file is not recorded as opened. *)
Theorem X4_listing_raises_on_missing_file (regex : pattern) (file : str)
    (subst : gmap str str) (categorise : bool) (showNew : option str) (w : world) :
  files w !! file = None ->
  printIfMatching regex file w = (Raise (IOError file "No such file or directory"), w) /\
  exists w',
    listProjects regex file subst categorise showNew w =
      (Raise (IOError file "No such file or directory"), w') /\
    files w' = files w /\ opened w' = opened w /\ stderr w' = stderr w /\
    stdout w' = stdout w ++ (if categorise then [file ++ lit ":" ++ [nl]] else []).
Proof.
  intros Hfile. split.
  - unfold printIfMatching. erewrite bind_raise by (apply read_file_missing; exact Hfile).
    reflexivity.
  - unfold listProjects. destruct categorise.
    + erewrite bind_ok by reflexivity.
      erewrite bind_raise by (apply read_file_missing; exact Hfile).
      eexists. split; [reflexivity|]. cbn. rewrite <- app_assoc. auto.
    + erewrite bind_ok by reflexivity.
      erewrite bind_raise by (apply read_file_missing; exact Hfile).
      eexists. split; [reflexivity|]. cbn. rewrite app_nil_r. auto.
Qed.

Lemma X4_witness :
  printIfMatching Example.regex (lit "absent") Example.start =
    (Raise (IOError (lit "absent") "No such file or directory"), Example.start) /\
  exists w',
    listProjects Example.regex (lit "absent") Example.substitutions false None Example.start =
      (Raise (IOError (lit "absent") "No such file or directory"), w') /\
    files w' = files Example.start /\ opened w' = opened Example.start /\
    stderr w' = stderr Example.start /\
    stdout w' = stdout Example.start ++ [].
Proof.
  apply (X4_listing_raises_on_missing_file Example.regex (lit "absent")
           Example.substitutions false None Example.start).
  vm_compute. reflexivity.
Defined.

(** X5: on a file that can be read, [printIfMatching] prints the name of the
    file exactly when the pattern matches somewhere in its text, as read in
    text mode, and the plain
    listing of [listProjects] then writes as many lines and warnings, taken
    together, as there are matches: a file is named by [--list-configs] if
    and only if [--list-projects] has something to say about it. *)
Theorem X5_listed_file_has_reports (regex : pattern) (file : str) (subst : gmap str str)
    (showNew : option str) (text : str) (w : world) :
  files w !! file = Some text ->
  exists wp wl,
    printIfMatching regex file w = (Ok tt, wp) /\
    listProjects regex file subst false showNew w = (Ok tt, wl) /\
    stdout wp = stdout w ++
      match finditer regex (universal_newlines text) with [] => [] | _ :: _ => [file ++ [nl]] end /\
    stderr wp = stderr w /\
    length (stdout wl) + length (stderr wl) =
      length (stdout w) + length (stderr w) + length (finditer regex (universal_newlines text)).
Proof.
  intros Hfile.
  destruct (listProjects_run regex file subst false showNew text w Hfile)
    as (wl & Hl & _ & _ & Ho & He).
  assert (Hlen : length (stdout wl) + length (stderr wl) =
                 length (stdout w) + length (stderr w) + length (finditer regex (universal_newlines text))).
  { rewrite Ho, He, !length_app. simpl.
    pose proof (listed_or_warned subst showNew (finditer regex (universal_newlines text))). lia. }
  unfold printIfMatching, search.
  erewrite bind_ok by (apply read_file_ok; exact Hfile).
  destruct (finditer regex (universal_newlines text)) as [|m ms]; simpl head; cbv iota;
    eexists _, wl; (split; [reflexivity|]); (split; [exact Hl|]); cbn;
    rewrite ?app_nil_r; auto.
Qed.

Lemma X5_witness :
  exists wp wl,
    printIfMatching Example.regex Example.target (Example.world_of Example.mixed_text)
      = (Ok tt, wp) /\
    listProjects Example.regex Example.target Example.substitutions false None
      (Example.world_of Example.mixed_text) = (Ok tt, wl) /\
    stdout wp = stdout (Example.world_of Example.mixed_text) ++
      match finditer Example.regex (universal_newlines Example.mixed_text) with
      | [] => [] | _ :: _ => [Example.target ++ [nl]] end /\
    stderr wp = stderr (Example.world_of Example.mixed_text) /\
    length (stdout wl) + length (stderr wl) =
      length (stdout (Example.world_of Example.mixed_text)) +
      length (stderr (Example.world_of Example.mixed_text)) +
      length (finditer Example.regex (universal_newlines Example.mixed_text)).
Proof.
  apply (X5_listed_file_has_reports Example.regex Example.target Example.substitutions None
           Example.mixed_text (Example.world_of Example.mixed_text)).
  vm_compute. reflexivity.
Defined.

(** X6: a rewrite needs the protocol.  With a configuration that has no
    [replace.protocol] (which the validation lets through) and without
    [--protocol], a target is met with a [KeyError] for the missing key,
    before the file is opened and with nothing written or changed. *)
Theorem X6_missing_protocol_stops_rewrite (regex : pattern) (a : arguments)
    (o r so : gmap str json) (json : json) (h : str) (file : str) (w : world) :
  json = JObj o -> o !! lit "replace" = Some (JObj r) ->
  r !! lit "protocol" = None ->
  r !! lit "substitutions" = Some (JObj so) -> all_strings so ->
  r !! lit "hostname" = Some (JStr h) ->
  list_configs a = false -> list_projects a = false -> given (protocol a) = None ->
  process regex a json file w = (Raise (KeyError (lit "protocol")), w).
Proof.
  intros -> Ho Hp Hs Hall Hh Hc Hl Hg.
  - unfold process. rewrite Hc, Hl.
    erewrite bind_ok by (unfold getitem; rewrite Ho; reflexivity).
    erewrite bind_ok by (unfold getitem; rewrite Hs; reflexivity).
    erewrite bind_ok by (apply as_subst_ok; exact Hall).
    assert (Hhost : exists host,
      match given (hostname a) with
      | Some h0 => ret h0
      | None => rep <- getitem (JObj o) (lit "replace") ;;
                h0 <- getitem rep (lit "hostname") ;; as_str h0
      end w = (Ok host, w)).
    { destruct (given (hostname a)) as [h0|]; [exists h0; reflexivity|].
      exists h.
      erewrite bind_ok by (unfold getitem; rewrite Ho; reflexivity).
      erewrite bind_ok by (unfold getitem; rewrite Hh; reflexivity).
      reflexivity. }
    destruct Hhost as [host Hhost].
    erewrite bind_ok by exact Hhost.
    rewrite Hg.
    erewrite bind_raise; [reflexivity|].
    erewrite bind_ok by (unfold getitem; rewrite Ho; reflexivity).
    erewrite bind_raise; [reflexivity|].
    unfold getitem. rewrite Hp. reflexivity.
Qed.

Lemma X6_witness :
  process Example.regex Example.args Example.bare_conf Example.target Example.start
  = (Raise (KeyError (lit "protocol")), Example.start).
Proof.
  apply (X6_missing_protocol_stops_rewrite Example.regex Example.args
           (Example.config_fields Example.hosts_text Example.paths_text None)
           (Example.replace_fields None)
           (Example.fields [("oldproject1"%string, JStr (lit "new/path/project1"))])
           Example.bare_conf (lit "newgit.example.com") Example.target Example.start).
  - reflexivity.
  - vm_compute. reflexivity.
  - vm_compute. reflexivity.
  - vm_compute. reflexivity.
  - exact example_all_strings.
  - vm_compute. reflexivity.
  - reflexivity.
  - reflexivity.
  - reflexivity.
Defined.

(** X7: the validation catches [re.error] only.  A configuration without
    the [replace] section, or without the [search] section, or whose
    [search] section lacks the hostname, makes it raise the [KeyError] of the
    missing key, with nothing written. *)
Theorem X7_missing_section_is_a_KeyError (o r s : gmap str json) (w : world) :
  (o !! lit "replace" = None ->
   validateJSONConfig (JObj o) w = (Raise (KeyError (lit "replace")), w)) /\
  (o !! lit "replace" = Some (JObj r) -> r !! lit "protocol" = None ->
   o !! lit "search" = None ->
   validateJSONConfig (JObj o) w = (Raise (KeyError (lit "search")), w)) /\
  (o !! lit "replace" = Some (JObj r) -> r !! lit "protocol" = None ->
   o !! lit "search" = Some (JObj s) -> s !! lit "hostname" = None ->
   validateJSONConfig (JObj o) w = (Raise (KeyError (lit "hostname")), w)).
Proof.
  split; [|split].
  - intros Ho. unfold validateJSONConfig.
    erewrite bind_raise; [reflexivity|]. unfold getitem. rewrite Ho. reflexivity.
  - intros Ho Hp Hs. rewrite (validate_no_protocol (JObj o) o r w eq_refl Ho Hp).
    unfold try_compile. eapply try_except_passed; [|reflexivity].
    eapply bind_raise. unfold getitem. rewrite Hs. reflexivity.
  - intros Ho Hp Hs Hh. rewrite (validate_no_protocol (JObj o) o r w eq_refl Ho Hp).
    unfold try_compile. eapply try_except_passed; [|reflexivity].
    erewrite bind_ok by (unfold getitem; rewrite Hs; reflexivity).
    eapply bind_raise. unfold getitem. rewrite Hh. reflexivity.
Qed.

Lemma X7_witness :
  validateJSONConfig (JObj (Example.fields [("replace"%string, JObj (Example.replace_fields None))]))
    Example.start = (Raise (KeyError (lit "search")), Example.start).
Proof.
  apply (proj1 (proj2 (X7_missing_section_is_a_KeyError
           (Example.fields [("replace"%string, JObj (Example.replace_fields None))])
           (Example.replace_fields None) ∅ Example.start))).
  - vm_compute. reflexivity.
  - vm_compute. reflexivity.
  - vm_compute. reflexivity.
Defined.

(** X8: the command line overrides the configuration.  When the host name,
    the protocol and the user name are all given on the command line (and
    are not empty), a rewrite uses them and does not read
    [replace.hostname], [replace.protocol] or [replace.username]: the
    configuration only has to hold the substitution table. *)
Theorem X8_command_line_overrides (regex : pattern) (a : arguments)
    (o r so : gmap str json) (json : json) (h p u : str) (file : str) (w : world) :
  json = JObj o -> o !! lit "replace" = Some (JObj r) ->
  r !! lit "substitutions" = Some (JObj so) -> all_strings so ->
  list_configs a = false -> list_projects a = false ->
  given (hostname a) = Some h -> given (protocol a) = Some p ->
  given (username a) = Some u ->
  process regex a json file w =
  replace regex file (text_of <$> so) h p (Some u) (dry_run a) w.
Proof.
  intros -> Ho Hs Hall Hc Hl Hh Hp Hu. unfold process. rewrite Hc, Hl, Hh, Hp, Hu.
  erewrite bind_ok by (unfold getitem; rewrite Ho; reflexivity).
  erewrite bind_ok by (unfold getitem; rewrite Hs; reflexivity).
  erewrite bind_ok by (apply as_subst_ok; exact Hall).
  reflexivity.
Qed.

Lemma X8_witness :
  process Example.regex Example.override_args Example.bare_conf Example.target Example.start =
  replace Example.regex Example.target
    (text_of <$> Example.fields [("oldproject1"%string, JStr (lit "new/path/project1"))])
    (lit "git.example.net") (lit "https") (Some (lit "alice")) false Example.start.
Proof.
  apply (X8_command_line_overrides Example.regex Example.override_args
           (Example.config_fields Example.hosts_text Example.paths_text None)
           (Example.replace_fields None)
           (Example.fields [("oldproject1"%string, JStr (lit "new/path/project1"))])
           Example.bare_conf (lit "git.example.net") (lit "https") (lit "alice")
           Example.target Example.start).
  - reflexivity.
  - vm_compute. reflexivity.
  - vm_compute. reflexivity.
  - exact example_all_strings.
  - reflexivity.
  - reflexivity.
  - reflexivity.
  - reflexivity.
  - reflexivity.
Defined.

(** X9: without options the three parts of the new URI come from the
    configuration, and a user name that is absent, or [null], or given on
    the command line as the empty string, means no user name. *)
Theorem X9_configuration_is_the_default (regex : pattern) (a : arguments)
    (o r so : gmap str json) (json : json) (h p : str) (file : str) (w : world) :
  json = JObj o -> o !! lit "replace" = Some (JObj r) ->
  r !! lit "substitutions" = Some (JObj so) -> all_strings so ->
  r !! lit "hostname" = Some (JStr h) -> r !! lit "protocol" = Some (JStr p) ->
  list_configs a = false -> list_projects a = false ->
  hostname a = None -> protocol a = None ->
  (username a = None \/ username a = Some []) ->
  (r !! lit "username" = None \/ r !! lit "username" = Some JNull ->
   process regex a json file w =
   replace regex file (text_of <$> so) h p None (dry_run a) w) /\
  (forall u, r !! lit "username" = Some (JStr u) ->
   process regex a json file w =
   replace regex file (text_of <$> so) h p (Some u) (dry_run a) w).
Proof.
  intros -> Ho Hs Hall Hh Hp Hc Hl Hah Hap Hau.
  assert (Hgu : given (username a) = None) by (destruct Hau as [-> | ->]; reflexivity).
  split.
  - intros Hu. unfold process. rewrite Hc, Hl, Hah, Hap, Hgu. simpl given.
    erewrite bind_ok by (unfold getitem; rewrite Ho; reflexivity).
    erewrite bind_ok by (unfold getitem; rewrite Hs; reflexivity).
    erewrite bind_ok by (apply as_subst_ok; exact Hall).
    erewrite bind_ok.
    2:{ erewrite bind_ok by (unfold getitem; rewrite Ho; reflexivity).
        erewrite bind_ok by (unfold getitem; rewrite Hh; reflexivity). reflexivity. }
    erewrite bind_ok.
    2:{ erewrite bind_ok by (unfold getitem; rewrite Ho; reflexivity).
        erewrite bind_ok by (unfold getitem; rewrite Hp; reflexivity). reflexivity. }
    erewrite bind_ok; [reflexivity|].
    erewrite bind_ok by (unfold getitem; rewrite Ho; reflexivity).
    destruct Hu as [Hu|Hu]; (erewrite bind_ok by (unfold get; rewrite Hu; reflexivity));
      reflexivity.
  - intros u Hu. unfold process. rewrite Hc, Hl, Hah, Hap, Hgu. simpl given.
    erewrite bind_ok by (unfold getitem; rewrite Ho; reflexivity).
    erewrite bind_ok by (unfold getitem; rewrite Hs; reflexivity).
    erewrite bind_ok by (apply as_subst_ok; exact Hall).
    erewrite bind_ok.
    2:{ erewrite bind_ok by (unfold getitem; rewrite Ho; reflexivity).
        erewrite bind_ok by (unfold getitem; rewrite Hh; reflexivity). reflexivity. }
    erewrite bind_ok.
    2:{ erewrite bind_ok by (unfold getitem; rewrite Ho; reflexivity).
        erewrite bind_ok by (unfold getitem; rewrite Hp; reflexivity). reflexivity. }
    erewrite bind_ok; [reflexivity|].
    erewrite bind_ok by (unfold getitem; rewrite Ho; reflexivity).
    erewrite bind_ok by (unfold get; rewrite Hu; reflexivity).
    reflexivity.
Qed.

Lemma X9_witness :
  process Example.regex Example.args Example.conf Example.target Example.start =
  replace Example.regex Example.target
    (text_of <$> Example.fields [("oldproject1"%string, JStr (lit "new/path/project1"))])
    (lit "newgit.example.com") (lit "ssh-colon") (Some (lit "git")) false Example.start.
Proof.
  apply (proj2 (X9_configuration_is_the_default Example.regex Example.args
           (Example.config_fields Example.hosts_text Example.paths_text (Some "ssh-colon"%string))
           (Example.replace_fields (Some "ssh-colon"%string))
           (Example.fields [("oldproject1"%string, JStr (lit "new/path/project1"))])
           Example.conf (lit "newgit.example.com") (lit "ssh-colon")
           Example.target Example.start
           eq_refl ltac:(vm_compute; reflexivity) ltac:(vm_compute; reflexivity)
           example_all_strings ltac:(vm_compute; reflexivity) ltac:(vm_compute; reflexivity)
           eq_refl eq_refl eq_refl eq_refl (or_introl eq_refl))).
  vm_compute. reflexivity.
Defined.

(** X10: the key text of a match.  For fragments that have no group named
    [key], the captured key is the beginning of the matched span, the span
    begins at the beginning of a line, and the key is made of white space,
    [url], white space, [=] and white space: the replacement, which starts
    with the key, keeps the indentation and the spelling of the line. *)
Theorem X10_key_is_the_start_of_the_line (hosts paths : pattern) (text : str) (m : Match) :
  binds "key" hosts = false -> binds "key" paths = false ->
  m ∈ finditer (composite hosts paths) text ->
  exists s1 s2 s3 tail,
    group m "key" = Some (s1 ++ lit "url" ++ s2 ++ lit "=" ++ s3) /\
    group0 m = (s1 ++ lit "url" ++ s2 ++ lit "=" ++ s3) ++ tail /\
    Forall space s1 /\ Forall space s2 /\ Forall space s3 /\
    (m_start m = 0 \/ text !! (m_start m - 1) = Some nl).
Proof.
  intros Hh Hp Hm. apply finditer_found, composite_found in Hm
    as (key & uri & sl & proj & sfx & sp & Hg & _ & _ & (s1 & s2 & s3 & -> & F1 & F2 & F3) &
        _ & _ & Hk & _ & _ & _ & _ & Hbol & _).
  exists s1, s2, s3, (uri ++ sl ++ proj ++ sfx ++ sp).
  rewrite (Hk Hh Hp), Hg. auto 10.
Qed.

Lemma X10_witness :
  exists s1 s2 s3 tail,
    group Example.url_match "key" = Some (s1 ++ lit "url" ++ s2 ++ lit "=" ++ s3) /\
    group0 Example.url_match = (s1 ++ lit "url" ++ s2 ++ lit "=" ++ s3) ++ tail /\
    Forall space s1 /\ Forall space s2 /\ Forall space s3 /\
    (m_start Example.url_match = 0 \/
     Example.url_line !! (m_start Example.url_match - 1) = Some nl).
Proof.
  apply (X10_key_is_the_start_of_the_line Example.hosts Example.paths Example.url_line
           Example.url_match).
  - reflexivity.
  - reflexivity.
  - replace (finditer (composite Example.hosts Example.paths) Example.url_line)
      with [Example.url_match] by (vm_compute; reflexivity).
    left.
Defined.

(** X11: the matches that [regex.finditer] and [regex.sub] hand to the
    script are matches in the text scanned, come in the order of the text and
    do not overlap: each one starts at or after the end of the one before,
    and ends within the text. *)
Theorem X11_matches_in_order_without_overlap (re : pattern) (text : str) :
  ordered 0 (finditer re text) /\
  Forall (fun m => m_string m = text /\ m_end m <= length text /\
                   text = take (m_start m) text ++ group0 m ++ drop (m_end m) text)
    (finditer re text).
Proof.
  split.
  - unfold finditer, scan. apply (scan_from_ordered re text [] 0). lia.
  - apply Forall_forall. intros m Hm.
    apply finditer_found, found_span in Hm as (Ht & _ & Hle & Hs). auto.
Qed.

(** X12: the project name runs as far as it can.  In every match of the
    composite pattern the captured project name lies inside the matched span
    and is followed in the text by a dot, by a newline or by nothing: blanks
    between the name and the end of the line belong to the name that is
    looked up in the substitution table. *)
Theorem X12_project_name_is_maximal (hosts paths : pattern) (text : str) (m : Match) :
  m ∈ finditer (composite hosts paths) text ->
  exists lead project tail,
    group m "project" = Some project /\
    text = lead ++ project ++ tail /\
    m_start m <= length lead /\ length lead + length project <= m_end m /\
    (tail = [] \/ exists c tail', tail = c :: tail' /\ (c = "."%char \/ c = nl)).
Proof.
  intros Hm. destruct (finditer_match_at _ _ _ Hm) as (cu & adv & Hsub & Hat).
  pose proof (match_at_found _ _ _ _ Hat) as (cuE & HmE & _ & Hstart & Hend & _).
  unfold match_at in Hat. unfold composite in Hat. simpl seq in Hat.
  apply exec_cat_sound in Hat as (c0 & k0 & H0 & Hat).
  apply matches_bol_inv in H0 as (-> & -> & _).
  apply exec_cat_sound in Hat as (c1 & k1 & H1 & Hat).
  apply exec_cat_sound in Hat as (c2 & k2 & H2 & Hat).
  apply exec_cat_sound in Hat as (c3 & k3 & H3 & Hat).
  assert (Hpre : matches (Cat (Group (Some "key"%string) key_re)
                   (Cat (uri_re hosts paths) (Plus true (Chr "/")))) cu ∅ c3 k3).
  { repeat (econstructor; eauto). }
  apply matches_advance in Hpre as (w0 & Hr0 & Hs0).
  clear H1 H2 H3 c1 c2 k1 k2 HmE cuE Hend.
  apply project_group_exec in Hat as (c & w & r' & Hr & Hok & Hat & Hmax).
  set (cu2 := Cursor (rev w ++ c :: seen c3) r') in *.
  assert (Hsub2 : subject cu2 = text).
  { rewrite <- Hsub, <- (subject_advance cu c3 w0 Hr0 Hs0).
    unfold subject, cu2. simpl. rewrite Hr, rev_app_distr, rev_involutive. simpl.
    rewrite <- !app_assoc. reflexivity. }
  pose proof Hat as Hat'.
  apply exec_sound in Hat' as (cuF & csF & HF & HkF).
  assert (Hgroup : group m "project" = Some (c :: w)).
  { destruct (adv && (pos cuF =? pos cu)); [discriminate|]. injection HkF as <-.
    unfold group. simpl.
    rewrite (matches_binds _ _ _ _ _ "project"%string HF eq_refl). apply lookup_insert_eq. }
  assert (Hend : pos cu2 <= m_end m).
  { apply matches_advance in HF as (wF & _ & HsF).
    destruct (adv && (pos cuF =? pos cu)); [discriminate|]. injection HkF as <-. simpl.
    rewrite (pos_advance _ _ _ HsF). lia. }
  assert (Hpos : pos cu2 = length (rev (seen c3)) + length (c :: w)).
  { unfold pos, cu2. simpl. rewrite length_app, !length_rev. simpl. lia. }
  assert (Hlead : m_start m <= length (rev (seen c3))).
  { rewrite Hstart, length_rev, Hs0, length_app. unfold pos. lia. }
  exists (rev (seen c3)), (c :: w), r'.
  split; [exact Hgroup|]. split.
  { rewrite <- Hsub2. unfold subject, cu2. simpl.
    rewrite rev_app_distr, rev_involutive. simpl. rewrite <- !app_assoc. reflexivity. }
  split; [exact Hlead|]. split; [lia|].
  destruct (project_run r') as (w2 & r3 & Hr' & Hw2 & Hr3).
  destruct w2 as [|d w2]; [simpl in Hr'; subst r3; exact Hr3|]. exfalso.
  destruct Hr3 as [-> | (e & r4 & -> & [-> | ->])].
  - specialize (Hmax (d :: w2) [] Hr' ltac:(discriminate) Hw2).
    revert Hmax. apply tail_succeeds; [reflexivity|].
    destruct adv; [|discriminate]. simpl andb.
    match goal with |- context [?a =? ?b] => destruct (Nat.eqb_spec a b) as [He|He] end;
      [|discriminate].
    unfold pos in He. simpl in He. rewrite !length_app, length_rev in He. simpl in He.
    rewrite Hs0 in He. rewrite !length_app in He. lia.
  - rewrite (tail_fails_before_dot cu2 _ _ (d :: w2) r4) in Hat; [discriminate | exact Hr' | discriminate |].
    apply project_ok_char. exact Hw2.
  - specialize (Hmax (d :: w2) (nl :: r4) Hr' ltac:(discriminate) Hw2).
    revert Hmax. apply tail_succeeds; [reflexivity|].
    destruct adv; [|discriminate]. simpl andb.
    match goal with |- context [?a =? ?b] => destruct (Nat.eqb_spec a b) as [He|He] end;
      [|discriminate].
    unfold pos in He. simpl in He. rewrite !length_app, length_rev in He. simpl in He.
    rewrite Hs0 in He. rewrite !length_app in He. lia.
Qed.

Lemma X12_witness :
  exists lead project tail,
    group Example.url_match "project" = Some project /\
    Example.url_line = lead ++ project ++ tail /\
    m_start Example.url_match <= length lead /\
    length lead + length project <= m_end Example.url_match /\
    (tail = [] \/ exists c tail', tail = c :: tail' /\ (c = "."%char \/ c = nl)).
Proof.
  apply (X12_project_name_is_maximal Example.hosts Example.paths Example.url_line
           Example.url_match).
  replace (finditer (composite Example.hosts Example.paths) Example.url_line)
    with [Example.url_match] by (vm_compute; reflexivity).
  left.
Defined.

(** X13: what a dry run shows and what a real run writes.  On the same file
    both write the same warnings; the text the dry run prints is the end of
    the file the real run writes, which holds before it one copy of the old
    text, as read in text mode, for every match without substitution, so the
    two are the same exactly when every matched project has a substitution. *)
Theorem X13_dry_run_and_real_run (hosts paths : pattern) (file : str)
    (subst : gmap str str) (host proto : str) (username : option str)
    (text : str) (w : world) :
  files w !! file = Some text ->
  exists wd wr preview,
    replace (composite hosts paths) file subst host proto username true w = (Ok tt, wd) /\
    replace (composite hosts paths) file subst host proto username false w = (Ok tt, wr) /\
    stdout wd = stdout w ++
      [lit "In " ++ file ++ lit " the following would be the new contents:" ++ [nl];
       preview ++ [nl]] /\
    stderr wd = stderr wr /\
    files wr !! file =
      Some (concat (replicate
                      (length (unmapped subst
                                 (finditer (composite hosts paths) (universal_newlines text))))
                      (universal_newlines text)) ++ preview) /\
    stdout wr = stdout w.
Proof.
  intros Hfile.
  assert (Hkey : forall m, m ∈ finditer (composite hosts paths) (universal_newlines text) ->
                          is_Some (group m "key")).
  { intros m Hm. apply (composite_groups _ _ _ _ Hm). }
  destruct (replace_run (composite hosts paths) file subst host proto username true text w
              Hfile Hkey) as (wd & Hd & Hed & _ & _ & Hod).
  destruct (replace_run (composite hosts paths) file subst host proto username false text w
              Hfile Hkey) as (wr & Hr & Her & _ & Hfr & Hor).
  exists wd, wr,
    (rewrite (composite hosts paths) subst host proto username (universal_newlines text)).
  split; [exact Hd|]. split; [exact Hr|]. split; [exact Hod|].
  split; [rewrite Hed, Her; reflexivity|]. split; [|exact Hor].
  rewrite Hfr, lookup_insert_eq, unmapped_strings. reflexivity.
Qed.

Lemma X13_witness :
  exists wd wr preview,
    replace (composite Example.hosts Example.paths) Example.target Example.substitutions
      (lit "newgit.example.com") (lit "ssh-colon") None true
      (Example.world_of Example.mixed_text) = (Ok tt, wd) /\
    replace (composite Example.hosts Example.paths) Example.target Example.substitutions
      (lit "newgit.example.com") (lit "ssh-colon") None false
      (Example.world_of Example.mixed_text) = (Ok tt, wr) /\
    stdout wd = stdout (Example.world_of Example.mixed_text) ++
      [lit "In " ++ Example.target ++ lit " the following would be the new contents:" ++ [nl];
       preview ++ [nl]] /\
    stderr wd = stderr wr /\
    files wr !! Example.target =
      Some (concat (replicate
                      (length (unmapped Example.substitutions
                                 (finditer (composite Example.hosts Example.paths)
                                    (universal_newlines Example.mixed_text))))
                      (universal_newlines Example.mixed_text)) ++ preview) /\
    stdout wr = stdout (Example.world_of Example.mixed_text).
Proof.
  apply (X13_dry_run_and_real_run Example.hosts Example.paths Example.target
           Example.substitutions (lit "newgit.example.com") (lit "ssh-colon") None
           Example.mixed_text (Example.world_of Example.mixed_text)).
  vm_compute. reflexivity.
Defined.

(** X14: a run changes no file but its targets.  A path that is neither a
    target file nor one of the configuration files found under a target
    directory holds, when the run ends, what it held before, in every mode
    and however the run ends. *)
Theorem X14_other_files_are_not_modified (fs : tree) (a : arguments) (json : json)
    (w : world) (p : str) :
  (forall t, t ∈ targets a ->
     if isdir fs t then p ∉ confFiles fs t (modules a) (modules_only a) else p <> t) ->
  files (snd (main fs a json w)) !! p = files w !! p.
Proof.
  intros Hp.
  assert (H : keeps (fun w => files w !! p) (main fs a json)); [|exact (H w)].
  unfold main. do 8 (apply keeps_bind; [apply keeps_lookup; keeps | intros ?]).
  revert Hp. generalize (targets a). intros ts Hts.
  induction ts as [|t ts IH]; [apply keeps_ret|].
  simpl. apply keeps_bind; [|intros _; apply IH; intros t' Ht'; apply Hts; right; exact Ht'].
  specialize (Hts t ltac:(left)). destruct (isdir fs t).
  - revert Hts. generalize (confFiles fs t (modules a) (modules_only a)). intros cs Hcs.
    induction cs as [|c cs IHc]; [apply keeps_ret|].
    simpl. apply keeps_bind.
    + apply keeps_process_other. intros ->. apply Hcs. left.
    + intros _. apply IHc. intros Hin. apply Hcs. right. exact Hin.
  - apply keeps_process_other. exact Hts.
Qed.

Lemma X14_witness :
  files (snd (main Example.no_dirs Example.args Example.conf Example.start)) !! lit "other"
  = files Example.start !! lit "other".
Proof.
  apply (X14_other_files_are_not_modified Example.no_dirs Example.args Example.conf
           Example.start (lit "other")).
  intros t Ht. vm_compute in Ht.
  apply elem_of_cons in Ht as [-> | Ht]; [simpl; discriminate | inversion Ht].
Defined.

(** X15: the listing modes stop at the first file they cannot open.  When
    the first target is a file that cannot be opened, a run with
    [--list-configs] or [--list-projects] ends with the [IOError] of that
    file: the targets after it are not examined, no file is opened or
    changed. *)
Theorem X15_listing_stops_at_unreadable_target (fs : tree) (a : arguments)
    (o s : gmap str json) (json : json) (h p : str) (regex : pattern)
    (t : str) (ts : list str) (w w1 : world) :
  json = JObj o -> o !! lit "search" = Some (JObj s) ->
  s !! lit "hostname" = Some (JStr h) -> s !! lit "path" = Some (JStr p) ->
  validateJSONConfig json w = (Ok tt, w1) ->
  compile true (pattern_text h p) = Done regex ->
  targets a = t :: ts -> isdir fs t = false -> files w !! t = None ->
  (list_configs a = true ->
   main fs a json w = (Raise (IOError t "No such file or directory"), w1)) /\
  (forall r so : gmap str Py.json,
   list_configs a = false -> list_projects a = true ->
   o !! lit "replace" = Some (JObj r) -> r !! lit "substitutions" = Some (JObj so) ->
   all_strings so ->
   exists w',
     main fs a json w = (Raise (IOError t "No such file or directory"), w') /\
     files w' = files w /\ opened w' = opened w1 /\ stderr w' = stderr w1).
Proof.
  intros Hj Ho Hh Hp Hv Hc Ht Hd Hf.
  assert (Hf1 : files w1 !! t = None).
  { pose proof (keeps_validate json w) as Hk. rewrite Hv in Hk. simpl in Hk.
    rewrite Hk. exact Hf. }
  assert (Hw1 : files w1 = files w).
  { pose proof (keeps_validate json w) as Hk. rewrite Hv in Hk. exact Hk. }
  rewrite (main_after_validation fs a json o s h p w w1 Hj Ho Hh Hp Hv), Hc, Ht.
  subst json. simpl for_each. rewrite Hd. split.
  - intros Hl. apply bind_raise. unfold process. rewrite Hl.
    unfold printIfMatching. apply bind_raise, read_file_missing, Hf1.
  - intros r so Hl Hl' Hr Hs Hall.
    unfold process. rewrite Hl, Hl'.
    assert (Hrun : exists w',
      listProjects regex t (text_of <$> so) (list_categorised a) (show_new_path a) w1 =
        (Raise (IOError t "No such file or directory"), w') /\
      files w' = files w /\ opened w' = opened w1 /\ stderr w' = stderr w1).
    { unfold listProjects. destruct (list_categorised a).
      - erewrite bind_ok by reflexivity.
        erewrite bind_raise by (apply read_file_missing; exact Hf1).
        eexists. split; [reflexivity|]. cbn. auto.
      - erewrite bind_ok by reflexivity.
        erewrite bind_raise by (apply read_file_missing; exact Hf1).
        eexists. split; [reflexivity|]. cbn. auto. }
    destruct Hrun as (w' & Hrun & Hfs & Hop & Her). exists w'.
    split; [|auto]. apply bind_raise.
    erewrite bind_ok by (unfold getitem; rewrite Hr; reflexivity).
    erewrite bind_ok by (unfold getitem; rewrite Hs; reflexivity).
    erewrite bind_ok by (apply as_subst_ok; exact Hall).
    exact Hrun.
Qed.

Lemma X15_witness :
  exists w',
    main Example.no_dirs Example.listing_args Example.conf Example.no_files =
      (Raise (IOError Example.target "No such file or directory"), w') /\
    files w' = files Example.no_files /\ opened w' = opened Example.no_files /\
    stderr w' = stderr Example.no_files.
Proof.
  apply (proj2 (X15_listing_stops_at_unreadable_target Example.no_dirs Example.listing_args
           (Example.config_fields Example.hosts_text Example.paths_text (Some "ssh-colon"%string))
           (Example.search_fields Example.hosts_text Example.paths_text)
           Example.conf Example.hosts_text Example.paths_text Example.regex
           Example.target [] Example.no_files Example.no_files
           eq_refl ltac:(vm_compute; reflexivity) ltac:(vm_compute; reflexivity)
           ltac:(vm_compute; reflexivity) ltac:(vm_compute; reflexivity)
           ltac:(vm_compute; reflexivity) eq_refl eq_refl ltac:(vm_compute; reflexivity))
           (Example.replace_fields (Some "ssh-colon"%string))
           (Example.fields [("oldproject1"%string, JStr (lit "new/path/project1"))])).
  - reflexivity.
  - reflexivity.
  - vm_compute. reflexivity.
  - vm_compute. reflexivity.
  - exact example_all_strings.
Defined.
